(** * redaer: the feed-tracking engine

    A shallow embedding of the Go packages [links] (links/htmlextract.go)
    and [store] (store/store.go, store/feed.go, store/errors.go) and the
    properties of the link life cycle, feed discovery, the feed parser and
    the unread bookkeeping.

    Conventions.
    - A Go [string] is a [string] of bytes.
    - A [time.Time] is the instant it denotes, an integer count of
      nanoseconds since the zero [time.Time]; a [time.Duration] is a signed
      64-bit count of nanoseconds.
    - A [*LinkDetails] that the code mutates in place is passed in and
      returned; the store keeps its records behind locations in a heap.
    - What the code asks of the Go runtime and its libraries (the clock,
      the HTTP client, [net/url], [time.Parse], [sort.Sort]) is a variable
      of the section that embeds the code; tokenizers are modelled by the
      sequence of tokens they deliver and the error that ends it.
    - [log.Printf] and [Body.Close] are left out. *)

From Stdlib Require Import ZArith String Ascii List Lia Bool.
From Stdlib Require Import Sorted Permutation DecimalString.
From stdpp Require Import gmap strings list sorting.

Local Open Scope string_scope.
Local Open Scope Z_scope.
Local Open Scope list_scope.

(** ** Go's [strings] package, as far as the code uses it *)

Module strings.

Definition lowerByte (c : ascii) : ascii :=
  let n := nat_of_ascii c in
  if (Nat.leb 65 n && Nat.leb n 90)%bool then ascii_of_nat (n + 32) else c.

(** [strings.ToLower] on the ASCII letters; other bytes are kept. *)
Fixpoint ToLower (s : string) : string :=
  match s with
  | EmptyString => EmptyString
  | String c s' => String (lowerByte c) (ToLower s')
  end.

Definition HasPrefix (s pre : string) : bool := String.prefix pre s.

Definition HasSuffix (s suffix : string) : bool :=
  (Nat.leb (String.length suffix) (String.length s)
   && String.eqb
        (String.substring (String.length s - String.length suffix)
                          (String.length suffix) s)
        suffix)%bool.

Fixpoint Contains (s substr : string) : bool :=
  (String.prefix substr s
   || match s with
      | EmptyString => false
      | String _ s' => Contains s' substr
      end)%bool.

End strings.

(** ** store/errors.go *)

(** The dynamic type behind Go's [error] interface: a [*LinkError], [io.EOF],
    or an error of some library ([xml.SyntaxError], [*url.Error], ...), of
    which only the message matters.  A nil [error] is [None]. *)
Inductive error : Type :=
| LinkError (Msg : string) (Transient : bool)
| EOF
| LibError (msg : string).

Definition Error (e : error) : string :=
  match e with
  | LinkError Msg Transient => if Transient then "TRANSIENT: " +:+ Msg else Msg
  | EOF => "EOF"
  | LibError msg => msg
  end.

Definition IsTransient (err : option error) : bool :=
  match err with
  | Some (LinkError _ Transient) => Transient
  | _ => false
  end.

(** [MkError] and [MkTransientError] take the message [fmt.Sprintf] built. *)
Definition MkError (msg : string) : error := LinkError msg false.
Definition MkTransientError (msg : string) : error := LinkError msg true.

(** [%d] of an [int]. *)
Definition itoa (n : Z) : string := NilZero.string_of_int (Z.to_int n).

(** ** links/htmlextract.go *)

Module links.

Record Link : Type := mkLink { Title : string; Url : string }.

(** [html.TokenType], without [ErrorToken]: the tokenizer delivers that
    one when its input ends, see [Tokenizer]. *)
Inductive TokenType : Type :=
| TextToken | StartTagToken | EndTagToken | SelfClosingTagToken
| CommentToken | DoctypeToken.

Record Attribute : Type := mkAttribute { Key : string; Val : string }.

Record Token : Type :=
  mkToken { Type_ : TokenType; Data : string; Attr : list Attribute }.

(** An [*html.Tokenizer]: the tokens still to come, then [ErrorToken] with
    [Err()] being [io.EOF] ([None]) or an error with the given message. *)
Record Tokenizer : Type :=
  mkTokenizer { pending : list Token; failure : option string }.

Definition Err (p : Tokenizer) : error :=
  match failure p with
  | None => EOF
  | Some msg => LibError msg
  end.

Fixpoint findAttr (attrs : list Attribute) (name : string)
  : Attribute * bool :=
  match attrs with
  | [] => (mkAttribute "" "", false)
  | att :: rest =>
      if String.eqb (Key att) name then (att, true) else findAttr rest name
  end.

Definition checkForLINK (tok : Token) : Link * bool :=
  if negb (String.eqb (Data tok) "link") then (mkLink "" "", false)
  else
    let '(href, ok) := findAttr (Attr tok) "href" in
    if negb ok then (mkLink "" "", false)
    else
      let rv := mkLink "Some Link" (Val href) in
      let '(tyattr, ok) := findAttr (Attr tok) "type" in
      if ok then (mkLink (Val tyattr) (Url rv), true) else (rv, true).

(** The [tokLoop] of [checkForAnchor]: [Some title] when the loop is left
    by [break], [None] with the error when the tokenizer ends first. *)
Fixpoint anchorBody (toks : list Token) (failure : option string)
         (depth : Z) (title : string)
  : (string + error) * list Token :=
  match toks with
  | [] =>
      match failure with
      | None => (inr (LibError "EOF while parsing anchor body."), [])
      | Some msg => (inr (LibError msg), [])
      end
  | tok :: rest =>
      match Type_ tok with
      | StartTagToken => anchorBody rest failure (depth + 1) title
      | EndTagToken =>
          let depth := depth - 1 in
          if (depth <? 0)%Z then (inl title, rest)
          else anchorBody rest failure depth title
      | TextToken => anchorBody rest failure depth (title +:+ Data tok)
      | _ => anchorBody rest failure depth title
      end
  end.

Definition checkForAnchor (startTok : Token) (parser : Tokenizer)
           (lnks : list Link)
  : list Link * option error * Tokenizer :=
  if negb (String.eqb (Data startTok) "a") then (lnks, None, parser)
  else
    let '(href, ok) := findAttr (Attr startTok) "href" in
    if negb ok then (lnks, None, parser)
    else
      match anchorBody (pending parser) (failure parser) 0 "" with
      | (inr err, rest) =>
          (lnks, Some err, mkTokenizer rest (failure parser))
      | (inl text, rest) =>
          let parser := mkTokenizer rest (failure parser) in
          if String.eqb text "" then
            let '(title, ok) := findAttr (Attr startTok) "title" in
            if ok then
              (lnks ++ [mkLink (Val title) (Val href)], None, parser)
            else (lnks, None, parser)
          else (lnks ++ [mkLink text (Val href)], None, parser)
      end.

Definition checkTag (startTok : Token) (parser : Tokenizer)
           (lnks : list Link)
  : list Link * option error * Tokenizer :=
  if (String.eqb (Data startTok) "a"
      && match Type_ startTok with StartTagToken => true | _ => false end)%bool
  then checkForAnchor startTok parser lnks
  else if String.eqb (Data startTok) "link" then
    let '(lnk, ok) := checkForLINK startTok in
    if ok then (lnks ++ [lnk], None, parser) else (lnks, None, parser)
  else (lnks, None, parser).

(** The loop of [Extract]; [None] when [fuel] iterations do not reach the
    end of the input. *)
Fixpoint ExtractLoop (fuel : nat) (parser : Tokenizer) (rv : list Link)
  : option (list Link * option error) :=
  match fuel with
  | O => None
  | S fuel =>
      match pending parser with
      | [] =>
          match failure parser with
          | None => Some (rv, None)
          | Some _ => Some (rv, Some (Err parser))
          end
      | tok :: rest =>
          let parser := mkTokenizer rest (failure parser) in
          match Type_ tok with
          | SelfClosingTagToken | StartTagToken =>
              match checkTag tok parser rv with
              | (rv, Some err, _) => Some (rv, Some err)
              | (rv, None, parser) => ExtractLoop fuel parser rv
              end
          | _ => ExtractLoop fuel parser rv
          end
      end
  end.

(** Every iteration reads a token, so one more than the number of tokens
    is enough, see [ExtractLoop_enough]. *)
Definition Extract (parser : Tokenizer) : option (list Link * option error) :=
  ExtractLoop (S (List.length (pending parser))) parser [].

End links.

(** ** [encoding/xml] tokens, as the decoder delivers them *)

Module xml.

Record Name : Type := mkName { Space : string; Local_ : string }.
Record Attr : Type := mkAttr { AName : Name; Value : string }.
Record StartElement : Type := mkStart { SName : Name; SAttr : list Attr }.

Inductive Token : Type :=
| TStartElement (t : StartElement)
| TEndElement (n : Name)
| TCharData (s : string)
| TComment
| TProcInst
| TDirective.

(** An [*xml.Decoder]: the tokens still to come, then the error that
    [Token()] keeps returning: [io.EOF] ([None]) at the end of a well
    formed input, or a syntax or read error with the given message. *)
Record Decoder : Type :=
  mkDecoder { upcoming : list Token; failure : option string }.

Definition endError (failure : option string) : error :=
  match failure with
  | None => EOF
  | Some msg => LibError msg
  end.

Definition Token_ (d : Decoder) : (Token + error) * Decoder :=
  match upcoming d with
  | [] => (inr (endError (failure d)), d)
  | t :: rest => (inl t, mkDecoder rest (failure d))
  end.

End xml.

(** ** [time] *)

Module time.

Definition Time : Type := Z.
Definition Duration : Type := Z.

Definition zero : Time := 0.
Definition minDuration : Duration := - 2 ^ 63.
Definition maxDuration : Duration := 2 ^ 63 - 1.

Definition Before (t u : Time) : bool := t <? u.
Definition After (t u : Time) : bool := u <? t.

(** [t.Sub(u)]: the difference, or the least or greatest [Duration] when
    the difference does not fit. *)
Definition Sub (t u : Time) : Duration :=
  let d := t - u in
  if d <? minDuration then minDuration
  else if maxDuration <? d then maxDuration
  else d.

Definition RFC822 : string := "02 Jan 06 15:04 MST".
Definition RFC822Z : string := "02 Jan 06 15:04 -0700".
Definition RFC1123 : string := "Mon, 02 Jan 2006 15:04:05 MST".
Definition RFC1123Z : string := "Mon, 02 Jan 2006 15:04:05 -0700".
Definition RFC3339 : string := "2006-01-02T15:04:05Z07:00".

End time.

(** ** store/store.go and store/feed.go *)

Module store.

Import links(Link, mkLink).

Inductive LinkState : Type :=
| LinkIsNew
| LinkNoFeedFound
| LinkTransientError
| LinkHasFeed
| LinkIgnore.

Record Article : Type :=
  mkArticle { Url : string; Title : string; PubDate : time.Time }.

Abbreviation ArticleArray := (list Article).

Record LinkDetails : Type := mkLinkDetails {
  BaseUrl : string;
  State : LinkState;
  FeedUrl : string;
  LastError : option error;
  (** [Title] in the source; here [Title] is the article's. *)
  LTitle : string;
  LastRead : time.Time;
  LastChecked : time.Time;
  Articles : ArticleArray
}.

Definition withState (s : LinkState) (ld : LinkDetails) : LinkDetails :=
  mkLinkDetails (BaseUrl ld) s (FeedUrl ld) (LastError ld) (LTitle ld)
                (LastRead ld) (LastChecked ld) (Articles ld).
Definition withFeedUrl (u : string) (ld : LinkDetails) : LinkDetails :=
  mkLinkDetails (BaseUrl ld) (State ld) u (LastError ld) (LTitle ld)
                (LastRead ld) (LastChecked ld) (Articles ld).
Definition withLastError (e : option error) (ld : LinkDetails) : LinkDetails :=
  mkLinkDetails (BaseUrl ld) (State ld) (FeedUrl ld) e (LTitle ld)
                (LastRead ld) (LastChecked ld) (Articles ld).
Definition withLastRead (t : time.Time) (ld : LinkDetails) : LinkDetails :=
  mkLinkDetails (BaseUrl ld) (State ld) (FeedUrl ld) (LastError ld)
                (LTitle ld) t (LastChecked ld) (Articles ld).
Definition withLastChecked (t : time.Time) (ld : LinkDetails) : LinkDetails :=
  mkLinkDetails (BaseUrl ld) (State ld) (FeedUrl ld) (LastError ld)
                (LTitle ld) (LastRead ld) t (Articles ld).
Definition withArticles (a : ArticleArray) (ld : LinkDetails) : LinkDetails :=
  mkLinkDetails (BaseUrl ld) (State ld) (FeedUrl ld) (LastError ld)
                (LTitle ld) (LastRead ld) (LastChecked ld) a.

(** *** Reading articles: [UnreadArticles], [MarkAllAsRead] *)

Fixpoint unreadLoop (LastRead : time.Time) (arts rv : list Article)
  : list Article :=
  match arts with
  | [] => rv
  | art :: rest =>
      if time.Before LastRead (PubDate art)
      then unreadLoop LastRead rest (rv ++ [art])
      else unreadLoop LastRead rest rv
  end.

Definition UnreadArticles (ld : LinkDetails) : list Article :=
  unreadLoop (LastRead ld) (Articles ld) [].

Fixpoint latestLoop (arts : list Article) (latest : time.Time) : time.Time :=
  match arts with
  | [] => latest
  | art :: rest =>
      if time.After (PubDate art) latest
      then latestLoop rest (PubDate art)
      else latestLoop rest latest
  end.

Definition MarkAllAsRead (ld : LinkDetails) : LinkDetails :=
  let latest := latestLoop (Articles ld) time.zero in
  if time.After latest (LastRead ld) then withLastRead latest ld else ld.

Definition ErrorOccurred (err : error) (link : LinkDetails) : LinkDetails :=
  withLastError (Some err) (withState LinkTransientError link).

(** *** [sort.Interface] for [ArticleArray] *)

Definition Len (aa : ArticleArray) : nat := List.length aa.

(** [None] where Go panics on an index out of range. *)
Definition Less (aa : ArticleArray) (i j : nat) : option bool :=
  match aa !! i, aa !! j with
  | Some a, Some b => Some (time.Before (PubDate a) (PubDate b))
  | _, _ => None
  end.

Definition Swap (aa : ArticleArray) (i j : nat) : option ArticleArray :=
  match aa !! i, aa !! j with
  | Some a, Some b => Some (<[j := a]> (<[i := b]> aa))
  | _, _ => None
  end.

(** What [sort.Sort] promises of its result: the same elements, and no
    element [Less] than one before it. *)
Definition SortContract (srt : ArticleArray -> ArticleArray) : Prop :=
  forall aa : ArticleArray,
    srt aa ≡ₚ aa
    /\ forall i j : nat, (i < j < Len aa)%nat -> Less (srt aa) j i = Some false.

(** Publish times that do not decrease along the list. *)
Definition ascending (aa : ArticleArray) : Prop :=
  forall (i j : nat) (a b : Article),
    (i <= j)%nat -> aa !! i = Some a -> aa !! j = Some b ->
    PubDate a <= PubDate b.

(** *** Feed discovery: which links look like feeds *)

Definition feedHints : list string := ["rss"; "atom"; "feed"].
Definition urlSuffixes : list string :=
  ["atom.xml"; "rss.xml"; "feed.xml"; "feed=rss2"; "feed=atom"; "feed=rss";
   "feed"].

Definition namedLikeFeedLink (link : Link) : bool :=
  let t := strings.ToLower (links.Title link) in
  if existsb (fun cand => strings.Contains t cand) feedHints then true
  else
    let u := strings.ToLower (links.Url link) in
    existsb (fun cand => (String.eqb u cand || strings.HasSuffix u cand)%bool)
            urlSuffixes.

Definition contentTypes : list string :=
  ["text/xml"; "text/plain"; "application/xml"; "application/rss+xml";
   "application/atom+xml"].

Definition validFeedContentType (ct : list string) : bool :=
  existsb (fun c => existsb (fun pref => strings.HasPrefix c pref) contentTypes)
          ct.

(** The loop of [firstStartElement], over the tokens still to come. *)
Fixpoint firstStartLoop (toks : list xml.Token)
  : option xml.StartElement * list xml.Token :=
  match toks with
  | [] => (None, [])
  | xml.TStartElement t :: rest => (Some t, rest)
  | _ :: rest => firstStartLoop rest
  end.

Definition firstStartElement (ring : xml.Decoder)
  : (xml.StartElement + error) * xml.Decoder :=
  match firstStartLoop (xml.upcoming ring) with
  | (Some t, rest) => (inl t, xml.mkDecoder rest (xml.failure ring))
  | (None, rest) =>
      (inr (MkError "No start element found."),
       xml.mkDecoder rest (xml.failure ring))
  end.

Definition minCheckDuration : time.Duration := 300000000000.

(** *** The code that runs against the Go runtime *)

(** What an HTTP response gives the code: the body is read once, through
    the HTML tokenizer by [links.Extract] or through the XML decoder. *)
Record Response : Type := mkResponse {
  StatusCode : Z;
  Status : string;
  ContentType : list string;
  BodyHTML : links.Tokenizer;
  BodyXML : xml.Decoder
}.

(** What the code asks of the Go runtime and its libraries. *)
Class Runtime : Type := mkRuntime {
  (** The state of everything outside the program. *)
  W : Type;
  (** [time.Now()]. *)
  timeNow : W -> time.Time * W;
  (** [client.Get(url)]: a response, or the message of the error. *)
  httpGet : string -> W -> (Response + string) * W;
  (** [net/url]: [url.Parse], [ResolveReference] and [String]. *)
  URL : Type;
  urlParse : string -> URL + string;
  ResolveReference : URL -> URL -> URL;
  urlString : URL -> string;
  (** [time.Parse(layout, value)], [None] for an error. *)
  timeParse : string -> string -> option time.Time;
  (** [sort.Sort] on an [ArticleArray]. *)
  sortSort : ArticleArray -> ArticleArray
}.

Section Engine.

Context {RT : Runtime}.

(** The outside world and the URLs fetched from it so far, oldest
    first. *)
Record Sys : Type := mkSys { world : W; fetched : list string }.

(** A computation: [None] when a loop was not given enough iterations
    to finish. *)
Definition M (A : Type) : Type := Sys -> option (A * Sys).

Definition ret {A} (a : A) : M A := fun s => Some (a, s).
Definition bind {A B} (m : M A) (k : A -> M B) : M B :=
  fun s => match m s with
           | Some (a, s') => k a s'
           | None => None
           end.
Definition liftOption {A} (o : option A) : M A :=
  fun s => match o with Some a => Some (a, s) | None => None end.

Notation "'let*' x := m 'in' k" := (bind m (fun x => k))
  (at level 10, x name, m at level 100, k at level 200).

Definition Now : M time.Time :=
  fun s => let '(t, w) := timeNow (world s) in
           Some (t, mkSys w (fetched s)).

Definition clientGet (url : string) : M (Response + error) :=
  fun s => let '(r, w) := httpGet url (world s) in
           let r := match r with
                    | inl resp => inl resp
                    | inr msg => inr (LibError msg)
                    end in
           Some (r, mkSys w (fetched s ++ [url])).

Definition forceAbsolute (base maybeRel : string) : string + error :=
  match urlParse maybeRel with
  | inr msg => inr (LibError msg)
  | inl maybeRelU =>
      match urlParse base with
      | inr msg => inr (LibError msg)
      | inl baseU => inl (urlString (ResolveReference baseU maybeRelU))
      end
  end.

Definition makeFeedRequest (baseUrl reqUrl : string) : M (Response + error) :=
  match forceAbsolute baseUrl reqUrl with
  | inr err => ret (inr err)
  | inl absU =>
      let* r := clientGet absU in
      match r with
      | inr err => ret (inr err)
      | inl resp =>
          if negb (StatusCode resp =? 200)
          then ret (inr (MkError ("Bad response: " +:+ Status resp)))
          else ret (inl resp)
      end
  end.

(** **** The feed parser *)

Definition formats : list string :=
  [time.RFC822; time.RFC822Z; time.RFC1123; time.RFC1123Z; time.RFC3339;
   "2006-1-2"].

Fixpoint parseTimeLoop (fmts : list string) (accum : string)
  : option time.Time :=
  match fmts with
  | [] => None
  | format :: rest =>
      match timeParse format accum with
      | Some tm => Some tm
      | None => parseTimeLoop rest accum
      end
  end.

Definition parseTime (accum : string) : time.Time + error :=
  match parseTimeLoop formats accum with
  | Some tm => inl tm
  | None => inr (MkError ("Could not parse time: " +:+ accum))
  end.

(** The loop over [t.Attr] in [genericExtractArticle]. *)
Fixpoint hrefLoop (attrs : list xml.Attr) (url : string) (found : bool)
  : string * bool :=
  match attrs with
  | [] => (url, found)
  | attr :: rest =>
      if String.eqb (xml.Local_ (xml.AName attr)) "href"
      then hrefLoop rest (xml.Value attr) true
      else hrefLoop rest url found
  end.

Definition withUrl (u : string) (a : Article) : Article :=
  mkArticle u (Title a) (PubDate a).
Definition withTitle (t : string) (a : Article) : Article :=
  mkArticle (Url a) t (PubDate a).
Definition withPubDate (d : time.Time) (a : Article) : Article :=
  mkArticle (Url a) (Title a) d.

Definition emptyArticle : Article := mkArticle "" "" time.zero.

(** The loop of [genericExtractArticle], over the tokens still to come;
    [failure] is the decoder's. *)
Fixpoint extractLoop (toks : list xml.Token) (failure : option string)
         (looksLikeAtom : bool) (accum : string) (rv : Article)
  : (Article * option error) * list xml.Token :=
  match toks with
  | [] => ((emptyArticle, Some (xml.endError failure)), [])
  | t :: rest =>
      match t with
      | xml.TStartElement t =>
          if (looksLikeAtom
              && String.eqb (xml.Local_ (xml.SName t)) "link")%bool
          then
            let '(url, found) := hrefLoop (xml.SAttr t) (Url rv) false in
            if negb found then
              ((emptyArticle,
                Some (MkError "Could not find HREF attribute for ENTRY LINK.")),
               rest)
            else extractLoop rest failure looksLikeAtom "" (withUrl url rv)
          else extractLoop rest failure looksLikeAtom "" rv
      | xml.TEndElement n =>
          let name := xml.Local_ n in
          if (String.eqb name "item" || String.eqb name "entry")%bool then
            ((rv, None), rest)
          else if String.eqb name "title" then
            extractLoop rest failure looksLikeAtom accum
                        (withTitle (Title rv +:+ accum) rv)
          else if String.eqb name "link" then
            if negb looksLikeAtom
            then extractLoop rest failure looksLikeAtom accum
                             (withUrl accum rv)
            else extractLoop rest failure looksLikeAtom accum rv
          else if (String.eqb name "pubDate" || String.eqb name "updated"
                   || String.eqb name "date")%bool then
            match parseTime accum with
            | inr err => ((rv, Some err), rest)
            | inl tm =>
                extractLoop rest failure looksLikeAtom accum
                            (withPubDate tm rv)
            end
          else extractLoop rest failure looksLikeAtom accum rv
      | xml.TCharData s =>
          extractLoop rest failure looksLikeAtom (accum +:+ s) rv
      | _ => extractLoop rest failure looksLikeAtom accum rv
      end
  end.

Definition genericExtractArticle (ring : xml.Decoder) (link : LinkDetails)
           (looksLikeAtom : bool)
  : (Article * option error) * xml.Decoder :=
  let '(r, rest) :=
    extractLoop (xml.upcoming ring) (xml.failure ring) looksLikeAtom ""
                emptyArticle in
  (r, xml.mkDecoder rest (xml.failure ring)).

(** The loop of [feedParser]; [None] when [fuel] iterations do not reach
    the end of the input. *)
Fixpoint feedParserLoop (fuel : nat) (ring : xml.Decoder)
         (link : LinkDetails)
  : option (option error * LinkDetails) :=
  match fuel with
  | O => None
  | S fuel =>
      match xml.Token_ ring with
      | (inr EOF, _) => Some (None, link)
      | (inr err, _) => Some (Some err, link)
      | (inl (xml.TStartElement t), ring) =>
          let looksLikeAtom := String.eqb (xml.Local_ (xml.SName t)) "entry" in
          if (String.eqb (xml.Local_ (xml.SName t)) "item" || looksLikeAtom)%bool
          then
            match genericExtractArticle ring link looksLikeAtom with
            | ((_, Some err), _) => Some (Some err, link)
            | ((art, None), ring) =>
                feedParserLoop fuel ring
                               (withArticles (Articles link ++ [art]) link)
            end
          else feedParserLoop fuel ring link
      | (inl _, ring) => feedParserLoop fuel ring link
      end
  end.

(** Every iteration reads a token, so one more than the number of tokens
    is enough, see [feedParserLoop_enough]. *)
Definition feedParser (ring : xml.Decoder) (root : xml.StartElement)
           (link : LinkDetails)
  : option (option error * LinkDetails) :=
  feedParserLoop (S (List.length (xml.upcoming ring))) ring link.

Definition ArticleParser : Type :=
  xml.Decoder -> xml.StartElement -> LinkDetails
  -> option (option error * LinkDetails).

Definition parseFunctionForFeed (root : xml.StartElement)
  : option ArticleParser :=
  let tag := xml.Local_ (xml.SName root) in
  if String.eqb tag "rss" then Some feedParser
  else if String.eqb tag "feed" then Some feedParser
  else if String.eqb tag "RDF" then Some feedParser
  else None.

Definition recognizedFeedFormat (rd : xml.Decoder) : bool :=
  match firstStartElement rd with
  | (inl start, _) =>
      match parseFunctionForFeed start with Some _ => true | None => false end
  | (inr _, _) => false
  end.


(** **** Feed discovery *)

Definition checkForFeedUrl (baseUrl : string) (link : Link)
  : M (string * bool) :=
  if negb (namedLikeFeedLink link) then ret ("", false)
  else
    let* r := makeFeedRequest baseUrl (links.Url link) in
    match r with
    | inr err => ret ("", false)
    | inl resp =>
        if (validFeedContentType (ContentType resp)
            && recognizedFeedFormat (BodyXML resp))%bool
        then ret (links.Url link, true)
        else ret ("", false)
    end.

(** The loop over the links of the page in [findFeedUrl]: the URL of
    the first link that [checkForFeedUrl] accepts. *)
Fixpoint probeLoop (baseUrl : string) (lnks : list Link)
  : M (option string) :=
  match lnks with
  | [] => ret None
  | link :: rest =>
      let* r := checkForFeedUrl baseUrl link in
      let '(feedUrl, ok) := r in
      if ok then ret (Some feedUrl) else probeLoop baseUrl rest
  end.

Definition findFeedUrl (ld : LinkDetails) : M (string * option error) :=
  let* r := clientGet (BaseUrl ld) in
  match r with
  | inr err =>
      ret ("", Some (MkTransientError ("findFeedUrl: " +:+ Error err)))
  | inl resp =>
      if StatusCode resp =? 200 then
        let* r := liftOption (links.Extract (BodyHTML resp)) in
        let '(lnks, err) := r in
        match err, lnks with
        | Some err, [] =>
            ret ("", Some (MkTransientError
                             ("findFeedUrl extract: " +:+ Error err)))
        | _, _ =>
            let* found := probeLoop (BaseUrl ld) lnks in
            match found with
            | Some feedUrl => ret (feedUrl, None)
            | None =>
                ret ("", Some (MkTransientError
                                 ("findFeedUrl: No link found in main page for "
                                    +:+ LTitle ld)))
            end
        end
      else if 500 <=? StatusCode resp then
        ret ("", Some (MkTransientError
                         ("findFeedUrl: Server error " +:+ Status resp)))
      else
        ret ("", Some (MkError ("Error " +:+ itoa (StatusCode resp)
                                  +:+ " reading " +:+ BaseUrl ld)))
  end.

(** **** Article refresh *)

(** The loop of [checkForArticles] that makes the article URLs
    absolute; it stops at the first URL that does not resolve. *)
Fixpoint absolutizeLoop (base : string) (arts : list Article)
  : list Article + error :=
  match arts with
  | [] => inl []
  | art :: rest =>
      match forceAbsolute base (Url art) with
      | inr err => inr err
      | inl url =>
          match absolutizeLoop base rest with
          | inr err => inr err
          | inl rest => inl (withUrl url art :: rest)
          end
      end
  end.

Definition checkForArticles (link : LinkDetails) : M LinkDetails :=
  let link := withArticles [] link in
  let* moment := Now in
  let timeSinceLast := time.Sub moment (LastChecked link) in
  if timeSinceLast <? minCheckDuration then ret link
  else
    let* r := makeFeedRequest (BaseUrl link) (FeedUrl link) in
    match r with
    | inr err => ret (ErrorOccurred err link)
    | inl resp =>
        match firstStartElement (BodyXML resp) with
        | (inr err, _) => ret (ErrorOccurred err link)
        | (inl first, ring) =>
            match parseFunctionForFeed first with
            | None => ret link
            | Some pfn =>
                let* r := liftOption (pfn ring first link) in
                match r with
                | (None, link) =>
                    let link :=
                      if (1 <? List.length (Articles link))%nat
                      then withArticles (sortSort (Articles link)) link
                      else link in
                    match absolutizeLoop (BaseUrl link) (Articles link) with
                    | inl arts =>
                        ret (withLastChecked moment (withArticles arts link))
                    | inr err =>
                        ret (withArticles [] (ErrorOccurred err link))
                    end
                | (Some err, link) =>
                    ret (withArticles [] (ErrorOccurred err link))
                end
            end
        end
    end.

(** **** The life cycle of a link *)

(** One iteration of the loop of [checkLink]: the record, and
    [stateNeedsCheck]. *)
Definition checkLinkBody (ld : LinkDetails) : M (LinkDetails * bool) :=
  match State ld with
  | LinkTransientError =>
      let ld :=
        if String.eqb (FeedUrl ld) "" then withState LinkIsNew ld
        else withState LinkHasFeed ld in
      ret (ld, true)
  | LinkIsNew =>
      let* r := findFeedUrl ld in
      let '(feedUrl, err) := r in
      match err with
      | Some e =>
          if IsTransient err then ret (ErrorOccurred e ld, false)
          else ret (withState LinkNoFeedFound ld, false)
      | None => ret (withFeedUrl feedUrl (withState LinkHasFeed ld), true)
      end
  | LinkHasFeed =>
      let* ld := checkForArticles ld in
      ret (ld, false)
  | LinkIgnore => ret (ld, false)
  | LinkNoFeedFound => ret (ld, false)
  end.

Fixpoint checkLinkLoop (fuel : nat) (ld : LinkDetails) : M LinkDetails :=
  match fuel with
  | O => fun _ => None
  | S fuel =>
      let* r := checkLinkBody ld in
      let '(ld, stateNeedsCheck) := r in
      if stateNeedsCheck then checkLinkLoop fuel ld else ret ld
  end.

(** The loop runs at most three times (TransientError, New, HasFeed),
    see [checkLink_total]. *)
Definition checkLink (ld : LinkDetails) : M LinkDetails :=
  checkLinkLoop 3 ld.

End Engine.

(** *** The link store *)

(** A [*LinkDetails]. *)
Abbreviation ptr := positive.
Abbreviation Heap := (gmap ptr LinkDetails).

Record LinkStore : Type := mkLinkStore {
  Links : gmap string ptr;
  noted : list string
}.

Definition newStore : LinkStore := mkLinkStore ∅ [].

Definition InterestedIn (url title : string) (st : LinkStore * Heap)
  : LinkStore * Heap :=
  let '(ls, heap) := st in
  match Links ls !! url with
  | Some _ => (mkLinkStore (Links ls) (noted ls ++ [url]), heap)
  | None =>
      let p := fresh (dom heap) in
      (mkLinkStore (<[url := p]> (Links ls)) (noted ls ++ [url]),
       <[p := mkLinkDetails url LinkIsNew "" None title time.zero time.zero []]>
         heap)
  end.

(** What [CheckForUpdates] sends on [linkIn], in order: [store.Links[base]]
    for each noted [base], the nil pointer ([None]) for a missing key.  Each
    value sent is handed to [checkLink] by one of the worker goroutines. *)
Definition linkInSends (ls : LinkStore) : list (option ptr) :=
  map (fun base => Links ls !! base) (noted ls).

End store.

Import store.

(** ** The link extractor over [encoding/xml] (package [links]) *)

(** The decoder runs with [Strict = false], [AutoClose] and [Entity] set
    for HTML; it is, as before, the tokens it delivers. *)
Module xmllinks.

Section Extractor.

(** [%s] of an [xml.StartElement], as [fmt] prints the struct. *)
Variable showStart : xml.StartElement -> string.

Fixpoint extractAttrLoop (attrs : list xml.Attr) (name : string) : string :=
  match attrs with
  | [] => ""
  | attr :: rest =>
      if String.eqb (xml.Local_ (xml.AName attr)) name then xml.Value attr
      else extractAttrLoop rest name
  end.

Definition extractAttr (t : xml.StartElement) (name : string) : string :=
  extractAttrLoop (xml.SAttr t) name.

Definition extractHREF (t : xml.StartElement) : string := extractAttr t "href".

Definition isLinkTagWithHREF (t : xml.StartElement) : bool :=
  (String.eqb (xml.Local_ (xml.SName t)) "link"
   && negb (String.eqb (extractHREF t) ""))%bool.

(** The loop of [extractTitleCData], over the tokens still to come. *)
Fixpoint titleLoop (toks : list xml.Token) (failure : option string)
         (depth : Z) (rv : string)
  : (string + error) * list xml.Token :=
  match toks with
  | [] =>
      (inr (LibError ("Error extracting title: "
                        +:+ Error (xml.endError failure))), [])
  | t :: rest =>
      match t with
      | xml.TStartElement _ => titleLoop rest failure (depth + 1) rv
      | xml.TEndElement n =>
          let depth := depth - 1 in
          if ((depth =? -1) && String.eqb (xml.Local_ n) "a")%bool
          then (inl rv, rest)
          else if depth <? 0
               then (inr (LibError "Mismatched close tags for anchor?"), rest)
               else titleLoop rest failure depth rv
      | xml.TCharData c => titleLoop rest failure depth (rv +:+ c)
      | _ => titleLoop rest failure depth rv
      end
  end.

Definition extractTitleCData (d : xml.Decoder)
  : (string + error) * xml.Decoder :=
  let '(r, rest) := titleLoop (xml.upcoming d) (xml.failure d) 0 "" in
  (r, xml.mkDecoder rest (xml.failure d)).

Definition parseLink (d : xml.Decoder) (anchor : xml.StartElement)
  : (links.Link + error) * xml.Decoder :=
  let url := extractHREF anchor in
  if String.eqb url "" then
    (inr (LibError ("No href attribute (" +:+ showStart anchor +:+ ")")), d)
  else if String.eqb (xml.Local_ (xml.SName anchor)) "link" then
    (inl (links.mkLink (extractAttr anchor "type") url), d)
  else
    match extractTitleCData d with
    | (inr _, d) =>
        (inr (LibError ("Could not extract title for " +:+ url)), d)
    | (inl title, d) => (inl (links.mkLink title url), d)
    end.

(** The loop of [parseLinks]; [None] when [fuel] iterations do not reach the
    end of the input. *)
Fixpoint parseLinksLoop (fuel : nat) (d : xml.Decoder) (rv : list links.Link)
  : option (list links.Link * option error) :=
  match fuel with
  | O => None
  | S fuel =>
      match xml.Token_ d with
      | (inr EOF, _) => Some (rv, None)
      | (inr err, _) => Some (rv, Some err)
      | (inl (xml.TStartElement t), d) =>
          if (String.eqb (xml.Local_ (xml.SName t)) "a"
              || isLinkTagWithHREF t)%bool
          then
            match parseLink d t with
            | (inr err, _) => Some (rv, Some err)
            | (inl lnk, d) => parseLinksLoop fuel d (rv ++ [lnk])
            end
          else parseLinksLoop fuel d rv
      | (inl _, d) => parseLinksLoop fuel d rv
      end
  end.

(** Every iteration reads a token, so one more than the number of tokens
    is enough, see [parseLinksLoop_enough]. *)
Definition parseLinks (d : xml.Decoder)
  : option (list links.Link * option error) :=
  parseLinksLoop (S (List.length (xml.upcoming d))) d [].

Definition Extract (src : xml.Decoder) : option (list links.Link * option error) :=
  parseLinks src.

End Extractor.

End xmllinks.

(** ** The command (package [main]) *)

Module main.

(** A line feed. *)
Definition nl : string := String (ascii_of_nat 10) "".

(** The [<li>] lines of the unread articles. *)
Fixpoint printArticles (unread : list Article) (out : string) : string :=
  match unread with
  | [] => out
  | art :: rest =>
      printArticles rest
                    (out +:+ "<li><a href='" +:+ Url art +:+ "'>" +:+ Title art
                         +:+ "</a>" +:+ nl)
  end.

(** The loop of [main] that prints the summary: what is written to the
    standard output, and the records; [None] where [str.Links[lnk.Url]] is
    nil and Go panics. *)
Fixpoint report (lnks : list links.Link) (ls : LinkStore) (heap : Heap)
         (out : string)
  : option (string * Heap) :=
  match lnks with
  | [] => Some (out, heap)
  | lnk :: rest =>
      match Links ls !! links.Url lnk with
      | None => None
      | Some p =>
          match heap !! p with
          | None => None
          | Some details =>
              match State details with
              | LinkHasFeed =>
                  let unread := UnreadArticles details in
                  if (List.length unread =? 0)%nat then report rest ls heap out
                  else
                    let out := out +:+ "<h1>" +:+ LTitle details +:+ "</h1>"
                                   +:+ nl in
                    let out := out +:+ "<ul>" +:+ nl in
                    let out := printArticles unread out in
                    let out := out +:+ "</ul>" +:+ nl in
                    report rest ls (<[p := MarkAllAsRead details]> heap) out
              | _ =>
                  match LastError details with
                  | Some err =>
                      let out := out +:+ "<h1>" +:+ LTitle details +:+ "</h1>"
                                     +:+ nl in
                      let out := out +:+ "<i>ERROR: " +:+ Error err +:+ "</i>"
                                     +:+ nl in
                      report rest ls heap out
                  | None => report rest ls heap out
                  end
              end
          end
      end
  end.

(** The calls of [InterestedIn] that [main] makes, one for each link of the
    input. *)
Definition register (lnks : list links.Link) (st : LinkStore * Heap)
  : LinkStore * Heap :=
  foldl (fun st lnk => InterestedIn (links.Url lnk) (links.Title lnk) st)
        st lnks.

End main.

(** ** Sample records, stores and runtimes *)

Module sample.

Definition art (u : string) (d : time.Time) : Article := mkArticle u "" d.

(** A record with feed [feedUrl], last read at [lastRead], last checked at
    [lastChecked]. *)
Definition record (st : LinkState) (feedUrl : string)
           (lastRead lastChecked : time.Time) (arts : list Article)
  : LinkDetails :=
  mkLinkDetails "http://x/" st feedUrl None "x" lastRead lastChecked arts.

(** Read up to 10, with one article of time 5. *)
Definition readPast : LinkDetails :=
  record LinkHasFeed "http://x/f.xml" 10 0 [art "a" 5].

(** The scenario of the unread computation, at [T]. *)
Definition around (T : time.Time) : LinkDetails :=
  record LinkHasFeed "http://x/f.xml" T 0
         [art "a" (T - 1); art "b" T; art "c" (T + 1); art "d" (T + 2)].

(** A store that already knows ["http://x/"], behind pointer 1. *)
Definition knownStore : LinkStore * Heap :=
  (mkLinkStore {[ "http://x/" := 1%positive ]} [],
   {[ 1%positive := record LinkIsNew "" 0 0 [] ]}).

(** Resolution of a reference against a base, right for the references
    the samples use: the empty reference, which gives the base, and
    absolute URLs, which give themselves. *)
Definition resolve (base rel : string) : string :=
  if String.eqb rel "" then base else rel.

Definition byPubDate (a b : Article) : Prop := PubDate a <= PubDate b.

#[global] Instance byPubDate_dec : RelDecision byPubDate :=
  fun a b => Z_le_dec (PubDate a) (PubDate b).

(** A runtime whose clock always reads [now] and whose server answers a
    request with [serve url]; [parse] stands for [time.Parse]. *)
Definition runtime (now : time.Time) (serve : string -> Response + string)
           (parse : string -> string -> option time.Time)
  : Runtime :=
  mkRuntime unit (fun w => (now, w)) (fun url w => (serve url, w))
            string (fun s => inl s) resolve (fun u => u) parse
            (merge_sort byPubDate).

Definition start (RT : Runtime) (w : W) : Sys := mkSys w [].

Definition noServer (url : string) : Response + string :=
  inr "connection refused".
Definition noParse (layout value : string) : option time.Time := None.

Definition elem (name : string) : xml.StartElement :=
  xml.mkStart (xml.mkName "" name) [].
Definition open_ (name : string) : xml.Token := xml.TStartElement (elem name).
Definition close (name : string) : xml.Token :=
  xml.TEndElement (xml.mkName "" name).
Definition text (s : string) : xml.Token := xml.TCharData s.

(** A 200 response with the given content type and body; the body as HTML
    tokens is given where a sample reads it as a page. *)
Definition ok (ct : string) (page : list links.Token) (toks : list xml.Token)
           (failure : option string)
  : Response :=
  mkResponse 200 "200 OK" [ct] (links.mkTokenizer page None)
             (xml.mkDecoder toks failure).

(** A record with a feed and one article, last checked at 900 ns. *)
Definition checkedAt900 : LinkDetails :=
  record LinkHasFeed "http://x/f.xml" 0 900 [art "a" 5].

(** The clock reads 1000 ns: 100 ns after the last check. *)
Definition soonAfter : Runtime := runtime 1000 noServer noParse.

(** The clock reads 400 s; no server answers. *)
Definition offline : Runtime := runtime 400000000000 noServer noParse.

(** A record with a feed and one article, never checked. *)
Definition neverChecked : LinkDetails :=
  record LinkHasFeed "http://x/f.xml" 0 0 [art "a" 5].

(** The clock reads 400 s; every URL serves an HTML page. *)
Definition htmlOnly : Runtime :=
  runtime 400000000000
          (fun _ => inl (ok "text/html" [] [open_ "html"; close "html"] None))
          noParse.

(** Midnight UTC of 1 and 2 January 2020, in nanoseconds since the zero
    time. *)
Definition jan1 : time.Time := 63713433600 * 10 ^ 9.
Definition jan2 : time.Time := 63713520000 * 10 ^ 9.

(** [time.Parse] on the two dates the samples use, which only the layout
    ["2006-1-2"] accepts. *)
Definition dayParse (layout value : string) : option time.Time :=
  if String.eqb layout "2006-1-2" then
    if String.eqb value "2020-1-1" then Some jan1
    else if String.eqb value "2020-1-2" then Some jan2
    else None
  else None.

(** [<name>content</name>] *)
Definition field (name content : string) : list xml.Token :=
  [open_ name; text content; close name].

Definition item (fields : list xml.Token) : list xml.Token :=
  open_ "item" :: fields ++ [close "item"].

(** An RSS feed of two items, the later one first. *)
Definition twoItems : list xml.Token :=
  [open_ "rss"; open_ "channel"]
    ++ item (field "title" "B" ++ field "link" "http://x/b"
               ++ field "pubDate" "2020-1-2")
    ++ item (field "title" "A" ++ field "link" "http://x/a"
               ++ field "pubDate" "2020-1-1")
    ++ [close "channel"; close "rss"].

(** The clock reads 400 s; every URL serves [twoItems]. *)
Definition feedServer : Runtime :=
  runtime 400000000000
          (fun _ => inl (ok "application/rss+xml" [] twoItems None))
          dayParse.

(** What the decoder makes of [<rss><channel><item><title>B</item>...]:
    it reports the closing tag that does not match. *)
Definition mismatch : string :=
  "XML syntax error on line 1: element <title> closed by </item>".
Definition brokenItem : list xml.Token :=
  [open_ "rss"; open_ "channel"; open_ "item"; open_ "title"; text "B"].

(** The clock reads 400 s; every URL serves [brokenItem]. *)
Definition brokenFeed : Runtime :=
  runtime 400000000000
          (fun _ => inl (ok "application/rss+xml" [] brokenItem (Some mismatch)))
          dayParse.

(** An item with two dates: [<pubDate>2020-1-1</pubDate>] and then
    [<date>2020-1-2</date>]. *)
Definition twoDates : list xml.Token :=
  field "pubDate" "2020-1-1" ++ field "date" "2020-1-2" ++ [close "item"].

Definition anchor (href title : string) : list links.Token :=
  [links.mkToken links.StartTagToken "a" [links.mkAttribute "href" href];
   links.mkToken links.TextToken title [];
   links.mkToken links.EndTagToken "a" []].

(** A page with two links that look like feeds. *)
Definition twoFeedLinks : list links.Token :=
  anchor "http://x/feed.xml" "RSS Feed" ++ anchor "http://x/atom.xml" "Atom".

(** The same page as the XML decoder would deliver it. *)
Definition twoFeedLinksXml : list xml.Token :=
  [xml.TStartElement
     (xml.mkStart (xml.mkName "" "a")
                  [xml.mkAttr (xml.mkName "" "href") "http://x/feed.xml"]);
   text "RSS Feed"; close "a";
   xml.TStartElement
     (xml.mkStart (xml.mkName "" "a")
                  [xml.mkAttr (xml.mkName "" "href") "http://x/atom.xml"]);
   text "Atom"; close "a"].

(** The clock reads 400 s; ["http://x/"] serves the page [twoFeedLinks] and
    every other URL the feed [twoItems]. *)
Definition twoFeeds : Runtime :=
  runtime 400000000000
          (fun url =>
             if String.eqb url "http://x/"
             then inl (ok "text/html" twoFeedLinks twoFeedLinksXml None)
             else inl (ok "application/rss+xml" [] twoItems None))
          dayParse.

Definition newRecord : LinkDetails := record LinkIsNew "" 0 0 [].

(** A page with four links: the first does not look like a feed, the
    other three do. *)
Definition fourLinks : list links.Token :=
  anchor "http://x/about" "About" ++ anchor "http://x/rss.xml" "News"
    ++ anchor "http://x/atom.xml" "Atom" ++ anchor "http://x/feed" "Feed".

(** The clock reads 400 s; ["http://x/"] serves the page [fourLinks], which
    is only read as HTML, ["http://x/rss.xml"] an HTML page, and every
    other URL the feed [twoItems]. *)
Definition secondIsFeed : Runtime :=
  runtime 400000000000
          (fun url =>
             if String.eqb url "http://x/"
             then inl (ok "text/html" fourLinks [] None)
             else if String.eqb url "http://x/rss.xml"
                  then inl (ok "text/html" [] [open_ "html"; close "html"]
                               None)
                  else inl (ok "application/rss+xml" [] twoItems None))
          dayParse.

(** An Atom feed that names itself by the empty reference:
    [<feed><link rel="self" type="application/atom+xml" href=""/></feed>],
    as the HTML tokenizer and as the XML decoder deliver it. *)
Definition selfLinkPage : list links.Token :=
  [links.mkToken links.StartTagToken "feed" [];
   links.mkToken links.SelfClosingTagToken "link"
                 [links.mkAttribute "rel" "self";
                  links.mkAttribute "type" "application/atom+xml";
                  links.mkAttribute "href" ""];
   links.mkToken links.EndTagToken "feed" []].

Definition selfLinkFeed : list xml.Token :=
  [open_ "feed";
   xml.TStartElement
     (xml.mkStart (xml.mkName "" "link")
                  [xml.mkAttr (xml.mkName "" "rel") "self";
                   xml.mkAttr (xml.mkName "" "type") "application/atom+xml";
                   xml.mkAttr (xml.mkName "" "href") ""]);
   close "link"; close "feed"].

(** The clock reads 400 s; every URL serves that feed. *)
Definition selfLink : Runtime :=
  runtime 400000000000
          (fun _ => inl (ok "application/atom+xml" selfLinkPage selfLinkFeed
                            None))
          dayParse.

End sample.

(** ** Notions used in the statements *)

Section Notions.

Context {RT : Runtime}.

(** A computation that finishes from every state. *)
Definition total {A} (m : M A) : Prop := forall s, is_Some (m s).

(** Where [sort.Sort] is called: on lists of two or more. *)
Definition sortIfLong (arts : ArticleArray) : ArticleArray :=
  if (1 <? List.length arts)%nat then sortSort arts else arts.

Definition isItemName (name : string) : bool :=
  (String.eqb name "item" || String.eqb name "entry")%bool.

Definition closesItem (t : xml.Token) : bool :=
  match t with
  | xml.TEndElement n => isItemName (xml.Local_ n)
  | _ => false
  end.

(** The decoder delivers the start of an item or entry and then ends, with
    a syntax error or at the end of its input, before it has delivered
    the end element of an item or entry.  This is what a strict decoder
    makes of an item whose closing tags do not match: it reports the
    mismatch instead of the end element. *)
Definition unclosedItem (toks : list xml.Token) : Prop :=
  exists pre st body,
    toks = pre ++ xml.TStartElement st :: body
    /\ isItemName (xml.Local_ (xml.SName st)) = true
    /\ Forall (fun t => closesItem t = false) body.

Definition isDateName (name : string) : bool :=
  (String.eqb name "pubDate" || String.eqb name "updated"
   || String.eqb name "date")%bool.

(** A part of the body of an item or entry: a date element with text
    content, [<n attrs>content</n>] with [n] one of [pubDate], [updated],
    [date], or a run of other tokens. *)
Inductive Part : Type :=
| DateChild (n : xml.Name) (attrs : list xml.Attr) (content : string)
| Others (toks : list xml.Token).

Definition partTokens (p : Part) : list xml.Token :=
  match p with
  | DateChild n attrs content =>
      [xml.TStartElement (xml.mkStart n attrs); xml.TCharData content;
       xml.TEndElement n]
  | Others toks => toks
  end.

Definition bodyTokens (parts : list Part) : list xml.Token :=
  concat (map partTokens parts).

(** The contents of the date elements, in the order of the item. *)
Definition dateContents (parts : list Part) : list string :=
  omap (fun p => match p with
                 | DateChild _ _ content => Some content
                 | Others _ => None
                 end) parts.

Definition hasHref (attrs : list xml.Attr) : bool :=
  existsb (fun attr => String.eqb (xml.Local_ (xml.AName attr)) "href") attrs.

(** A token the item loop reads through without looking at a date and
    without ending: no end of an item, entry or date element, and no
    [link] of an Atom entry that lacks its [href]. *)
Definition quietToken (atom : bool) (t : xml.Token) : bool :=
  match t with
  | xml.TStartElement st =>
      (negb (atom && String.eqb (xml.Local_ (xml.SName st)) "link")
       || hasHref (xml.SAttr st))%bool
  | xml.TEndElement n =>
      (negb (isItemName (xml.Local_ n)) && negb (isDateName (xml.Local_ n)))%bool
  | _ => true
  end.

Definition wellFormedPart (atom : bool) (p : Part) : Prop :=
  match p with
  | DateChild n _ _ => isDateName (xml.Local_ n) = true
  | Others toks => forallb (quietToken atom) toks = true
  end.

Definition timeOr (d : time.Time) (content : option string) : time.Time :=
  match content with
  | Some c => match parseTime c with inl tm => tm | inr _ => d end
  | None => d
  end.

Definition isSome {A} (o : option A) : bool :=
  match o with Some _ => true | None => false end.

(** A response that [checkForFeedUrl] accepts. *)
Definition feedResponse (r : Response + string) : bool :=
  match r with
  | inl resp =>
      ((StatusCode resp =? 200)
       && validFeedContentType (ContentType resp)
       && recognizedFeedFormat (BodyXML resp))%bool
  | inr _ => false
  end.

(** The URL fetched to probe a link: none for a link that does not look
    like a feed or whose URL does not resolve. *)
Definition probeOf (baseUrl : string) (link : links.Link) : option string :=
  if namedLikeFeedLink link then
    match forceAbsolute baseUrl (links.Url link) with
    | inl absU => Some absU
    | inr _ => None
    end
  else None.

Definition probesOf (baseUrl : string) (lnks : list links.Link) : list string :=
  omap (probeOf baseUrl) lnks.

(** The world after the URLs have been fetched, in order. *)
Definition worldAfter (urls : list string) (w : W) : W :=
  foldl (fun w url => (httpGet url w).2) w urls.

(** Probed from the world [w] once the links [before] it have been probed,
    [link] is accepted: it looks like a feed, its URL resolves, and the
    fetch of it is answered with a feed. *)
Definition probeAccepted (baseUrl : string) (w : W)
           (before : list links.Link) (link : links.Link) : bool :=
  match probeOf baseUrl link with
  | Some absU =>
      feedResponse (httpGet absU (worldAfter (probesOf baseUrl before) w)).1
  | None => false
  end.

(** Probed in order from the world [w], no link of [lnks] is accepted. *)
Definition allRefused (baseUrl : string) (w : W) (lnks : list links.Link)
  : Prop :=
  forall before link after,
    lnks = before ++ link :: after ->
    probeAccepted baseUrl w before link = false.

(** A record in state HasFeed has a feed URL. *)
Definition hasFeedUrl (ld : LinkDetails) : Prop :=
  State ld = LinkHasFeed -> FeedUrl ld <> "".

(** The links of the pages served at [base] that look like feeds have a
    URL that is not empty. *)
Definition feedLinksNamed (base : string) : Prop :=
  forall w resp w' lnks err link,
    httpGet base w = (inl resp, w') ->
    links.Extract (BodyHTML resp) = Some (lnks, err) ->
    In link lnks ->
    namedLikeFeedLink link = true ->
    links.Url link <> "".

End Notions.

(** ** Notions used in the further properties *)

Section MoreNotions.

Context {RT : Runtime}.

(** A store whose keys lead to records: every key of [Links] points to a
    record of the heap with that [BaseUrl], and every noted URL is a key. *)
Definition storeOK (st : LinkStore * Heap) : Prop :=
  (forall url p,
      Links st.1 !! url = Some p ->
      exists ld, st.2 !! p = Some ld /\ BaseUrl ld = url)
  /\ (forall base, In base (noted st.1) -> is_Some (Links st.1 !! base)).

(** The record [InterestedIn] makes for a URL it has not seen. *)
Definition freshRecord (url title : string) : LinkDetails :=
  mkLinkDetails url LinkIsNew "" None title time.zero time.zero [].

(** A record with a feed whose last refresh was refused, back in state
    HasFeed as [checkLink] puts it before it tries again. *)
Definition refusedBefore : LinkDetails :=
  mkLinkDetails "http://x/" LinkHasFeed "http://x/f.xml"
                (Some (LibError "connection refused")) "x" 0 0 [].

(** A server that answers every request with 404, under a clock that
    reads 400 s. *)
Definition sampleNotFound : Runtime :=
  sample.runtime 400000000000
                 (fun _ => inl (mkResponse 404 "404 Not Found" []
                                           (links.mkTokenizer [] None)
                                           (xml.mkDecoder [] None)))
                 sample.noParse.

Definition isStart (t : xml.Token) : bool :=
  match t with
  | xml.TStartElement _ => true
  | _ => false
  end.

(** An element with text content, [<n attrs>content</n>]. *)
Definition element (f : xml.Name * list xml.Attr * string) : list xml.Token :=
  let '(n, attrs, content) := f in
  [xml.TStartElement (xml.mkStart n attrs); xml.TCharData content;
   xml.TEndElement n].

Definition elements (fs : list (xml.Name * list xml.Attr * string))
  : list xml.Token :=
  concat (map element fs).

Definition named (name : string) (f : xml.Name * list xml.Attr * string)
  : bool :=
  String.eqb (xml.Local_ f.1.1) name.

(** The contents of the elements called [name], in order. *)
Definition contentsOf (name : string)
           (fs : list (xml.Name * list xml.Attr * string))
  : list string :=
  map snd (List.filter (named name) fs).

Definition hrefValues (attrs : list xml.Attr) : list string :=
  map xml.Value
      (List.filter (fun attr => String.eqb (xml.Local_ (xml.AName attr)) "href")
                   attrs).

(** The [href] values of the elements called [link], in order. *)
Definition linkHrefs (fs : list (xml.Name * list xml.Attr * string))
  : list string :=
  concat (map (fun f => hrefValues f.1.2) (List.filter (named "link") fs)).

(** The contents of the elements called [pubDate], [updated] or [date]. *)
Definition dateTexts (fs : list (xml.Name * list xml.Attr * string))
  : list string :=
  map snd (List.filter (fun f => isDateName (xml.Local_ f.1.1)) fs).

(** The article the children of an item or entry describe. *)
Definition articleOf (atom : bool)
           (fs : list (xml.Name * list xml.Attr * string))
  : Article :=
  mkArticle (default "" (last (if atom then linkHrefs fs
                               else contentsOf "link" fs)))
            (foldr String.append "" (contentsOf "title" fs))
            (timeOr time.zero (last (dateTexts fs))).

(** A child the item loop reads through: not named like an item, and with
    an [href] attribute when it is the [link] of an Atom entry. *)
Definition simpleChild (atom : bool) (f : xml.Name * list xml.Attr * string)
  : Prop :=
  isItemName (xml.Local_ f.1.1) = false
  /\ ((atom && named "link" f)%bool = true -> hasHref f.1.2 = true).

(** A piece of a feed behind its root: an item or entry with its children
    and its end element, or a single token. *)
Inductive Piece : Type :=
| PItem (st : xml.StartElement)
        (fs : list (xml.Name * list xml.Attr * string)) (closing : xml.Name)
| POther (t : xml.Token).

Definition pieceTokens (p : Piece) : list xml.Token :=
  match p with
  | PItem st fs closing =>
      xml.TStartElement st :: elements fs ++ [xml.TEndElement closing]
  | POther t => [t]
  end.

Definition feedTokens (ps : list Piece) : list xml.Token :=
  concat (map pieceTokens ps).

Definition isEntry (st : xml.StartElement) : bool :=
  String.eqb (xml.Local_ (xml.SName st)) "entry".

(** An item or entry that begins and ends as one, with children the item
    loop reads through and dates that parse; or a token that does not start
    an item or entry. *)
Definition goodPiece (p : Piece) : Prop :=
  match p with
  | PItem st fs closing =>
      isItemName (xml.Local_ (xml.SName st)) = true
      /\ isItemName (xml.Local_ closing) = true
      /\ Forall (simpleChild (isEntry st)) fs
      /\ Forall (fun c => exists tm, parseTime c = inl tm) (dateTexts fs)
  | POther t =>
      forall st, t = xml.TStartElement st ->
                 isItemName (xml.Local_ (xml.SName st)) = false
  end.

Definition pieceArticles (ps : list Piece) : list Article :=
  omap (fun p => match p with
                 | PItem st fs _ => Some (articleOf (isEntry st) fs)
                 | POther _ => None
                 end) ps.

(** What a token does to the depth that the anchor loops count. *)
Inductive TagKind : Type := Opens | Closes | Neither.

Definition htmlKind (tok : links.Token) : TagKind :=
  match links.Type_ tok with
  | links.StartTagToken => Opens
  | links.EndTagToken => Closes
  | _ => Neither
  end.

Definition xmlKind (t : xml.Token) : TagKind :=
  match t with
  | xml.TStartElement _ => Opens
  | xml.TEndElement _ => Closes
  | _ => Neither
  end.

(** With [depth] tags open before them, the tags of [toks] are matched:
    every closing tag closes a tag that is open, and none is left open. *)
Fixpoint matched {T} (kind : T -> TagKind) (depth : Z) (toks : list T) : bool :=
  match toks with
  | [] => depth =? 0
  | tok :: rest =>
      match kind tok with
      | Opens => matched kind (depth + 1) rest
      | Closes => (0 <? depth) && matched kind (depth - 1) rest
      | Neither => matched kind depth rest
      end
  end.

(** The text tokens of [toks], put together. *)
Definition htmlText (toks : list links.Token) : string :=
  foldr String.append ""
        (omap (fun tok => match links.Type_ tok with
                          | links.TextToken => Some (links.Data tok)
                          | _ => None
                          end) toks).

Definition xmlText (toks : list xml.Token) : string :=
  foldr String.append ""
        (omap (fun t => match t with
                        | xml.TCharData c => Some c
                        | _ => None
                        end) toks).

(** [l] is made from the tag [tok]: an [a] or [link] tag whose first
    [href] attribute holds the URL of [l]. *)
Definition linkFrom (tok : links.Token) (l : links.Link) : Prop :=
  (links.Data tok = "a" \/ links.Data tok = "link")
  /\ exists att, links.findAttr (links.Attr tok) "href" = (att, true)
                 /\ links.Url l = links.Val att.

(** The message of the error that ends [checkForAnchor] when the input
    ends inside an anchor. *)
Definition anchorError (failure : option string) : error :=
  LibError (default "EOF while parsing anchor body." failure).

(** [a] is [b] with its URL made absolute against [base]. *)
Definition absolutized (base : string) (a b : Article) : Prop :=
  forceAbsolute base (Url b) = inl (Url a)
  /\ Title a = Title b
  /\ PubDate a = PubDate b.

(** The pieces of [sample.twoItems] behind its root. *)
Definition twoItemPieces : list Piece :=
  [POther (sample.open_ "channel");
   PItem (sample.elem "item")
         [(xml.mkName "" "title", [], "B");
          (xml.mkName "" "link", [], "http://x/b");
          (xml.mkName "" "pubDate", [], "2020-1-2")]
         (xml.mkName "" "item");
   PItem (sample.elem "item")
         [(xml.mkName "" "title", [], "A");
          (xml.mkName "" "link", [], "http://x/a");
          (xml.mkName "" "pubDate", [], "2020-1-1")]
         (xml.mkName "" "item");
   POther (sample.close "channel");
   POther (sample.close "rss")].

End MoreNotions.

(** ** Reading articles *)

Section Reading.

Lemma unreadLoop_filter (T : time.Time) (arts rv : list Article) :
  unreadLoop T arts rv = rv ++ List.filter (fun a => T <? PubDate a) arts.
Proof.
  revert rv. induction arts as [|a arts IH]; intros rv; simpl.
  - now rewrite app_nil_r.
  - unfold time.Before. destruct (T <? PubDate a); rewrite IH.
    + now rewrite <- app_assoc.
    + reflexivity.
Qed.

Lemma latestLoop_max (arts : list Article) (latest : time.Time) :
  latestLoop arts latest = foldr Z.max latest (map PubDate (rev arts)).
Proof.
  revert latest. induction arts as [|a arts IH]; intros latest; simpl.
  - reflexivity.
  - rewrite map_app, foldr_app. simpl. unfold time.After.
    destruct (Z.ltb_spec latest (PubDate a)); rewrite IH; f_equal; lia.
Qed.

Lemma foldr_max_rev (l : list Z) (z : Z) :
  foldr Z.max z (rev l) = foldr Z.max z l.
Proof.
  revert z. induction l as [|x l IH]; intros z; simpl; [reflexivity|].
  rewrite foldr_app. simpl. rewrite IH.
  clear IH. revert z. induction l as [|y l IH]; intros z; simpl; [lia|].
  rewrite IH. lia.
Qed.

Lemma latestLoop_zero (arts : list Article) :
  latestLoop arts time.zero = foldr Z.max 0 (map PubDate arts).
Proof.
  rewrite latestLoop_max, map_rev. apply foldr_max_rev.
Qed.

Lemma withLastRead_same (ld : LinkDetails) : withLastRead (LastRead ld) ld = ld.
Proof. now destruct ld. Qed.

End Reading.

(** C9 (as stated, refuted): [MarkAllAsRead] does not always set [LastRead]
    to the latest publish time among the articles.  A record read up to 10
    whose only article was published at 5 keeps [LastRead = 10]. *)
Lemma MarkAllAsRead_not_always_latest :
  ~ (forall (ld : LinkDetails) (a : Article),
        In a (Articles ld) ->
        (forall b, In b (Articles ld) -> PubDate b <= PubDate a) ->
        LastRead (MarkAllAsRead ld) = PubDate a).
Proof.
  intros H.
  specialize (H sample.readPast (sample.art "a" 5)).
  assert (LastRead (MarkAllAsRead sample.readPast) = 5) as E.
  { apply H; simpl.
    - now left.
    - intros b [<-|[]]. simpl. lia. }
  vm_compute in E. discriminate E.
Qed.

(** C9 (amended): [UnreadArticles] returns, in order, exactly the articles
    published strictly after [LastRead]; [MarkAllAsRead] changes [LastRead]
    only, to the latest of the current [LastRead], the zero time and the
    publish times of the articles, so it never moves [LastRead] back.  With
    [LastRead = T] and publish times [T-1, T, T+1, T+2], [UnreadArticles]
    returns the two articles after [T], and [MarkAllAsRead] sets [LastRead]
    to [T+2] when that is not before the zero time, and to the zero time
    when it is. *)
Theorem UnreadArticles_MarkAllAsRead_spec :
  (forall ld : LinkDetails,
      UnreadArticles ld
      = List.filter (fun a => LastRead ld <? PubDate a) (Articles ld))
  /\ (forall ld : LinkDetails,
         MarkAllAsRead ld
         = withLastRead
             (Z.max (LastRead ld) (foldr Z.max 0 (map PubDate (Articles ld))))
             ld)
  /\ (forall T : time.Time,
         UnreadArticles (sample.around T)
         = [sample.art "c" (T + 1); sample.art "d" (T + 2)]
         /\ LastRead (MarkAllAsRead (sample.around T))
            = Z.max time.zero (T + 2)
         /\ (time.zero <= T + 2 ->
             LastRead (MarkAllAsRead (sample.around T)) = T + 2)).
Proof.
  split; [|split].
  - intros ld. unfold UnreadArticles. now rewrite unreadLoop_filter.
  - intros ld. unfold MarkAllAsRead. rewrite latestLoop_zero.
    set (latest := foldr Z.max 0 (map PubDate (Articles ld))).
    unfold time.After. destruct (Z.ltb_spec (LastRead ld) latest).
    + now rewrite Z.max_r by lia.
    + rewrite Z.max_l by lia. symmetry. apply withLastRead_same.
  - intros T. split.
    + unfold UnreadArticles. rewrite unreadLoop_filter. simpl.
      rewrite Z.ltb_irrefl.
      replace (T <? T - 1) with false by (symmetry; apply Z.ltb_ge; lia).
      replace (T <? T + 1) with true by (symmetry; apply Z.ltb_lt; lia).
      replace (T <? T + 2) with true by (symmetry; apply Z.ltb_lt; lia).
      reflexivity.
    + assert (LastRead (MarkAllAsRead (sample.around T))
              = Z.max time.zero (T + 2)) as Hread.
      { unfold MarkAllAsRead. rewrite latestLoop_zero. simpl.
        unfold time.After, time.zero.
        replace (Z.max (T - 1) (Z.max T (Z.max (T + 1) (Z.max (T + 2) 0))))
          with (Z.max 0 (T + 2)) by lia.
        replace (T <? Z.max 0 (T + 2)) with true
          by (symmetry; apply Z.ltb_lt; lia).
        reflexivity. }
      split; [exact Hread|].
      intros HT. rewrite Hread. unfold time.zero in *. lia.
Qed.

Lemma UnreadArticles_MarkAllAsRead_spec_witness :
  time.zero <= 100 + 2
  /\ LastRead (MarkAllAsRead (sample.around 100)) = 100 + 2
  /\ LastRead (MarkAllAsRead (sample.around (-10))) = time.zero.
Proof.
  split; [unfold time.zero; lia|]. split.
  - apply (proj2 (proj2 (proj2 (proj2 UnreadArticles_MarkAllAsRead_spec) 100))).
    unfold time.zero. lia.
  - exact (proj1 (proj2 (proj2 (proj2 UnreadArticles_MarkAllAsRead_spec)
                                (-10)))).
Defined.

(** ** The link store *)

(** C10: for a URL already in the store, [InterestedIn] leaves the map and
    every record (so also the record's title, whatever title is passed)
    as they are and appends the URL to [noted]; after two such calls
    [CheckForUpdates] sends the pointer of that one record twice. *)
Theorem InterestedIn_known_url
        (ls : LinkStore) (heap : Heap) (url title : string) (p : ptr)
        (Hknown : Links ls !! url = Some p) :
  InterestedIn url title (ls, heap)
  = (mkLinkStore (Links ls) (noted ls ++ [url]), heap)
  /\ forall title' : string,
      let st := InterestedIn url title' (InterestedIn url title (ls, heap)) in
      st.2 = heap
      /\ Links st.1 = Links ls
      /\ noted st.1 = noted ls ++ [url; url]
      /\ linkInSends st.1 = linkInSends ls ++ [Some p; Some p].
Proof.
  assert (InterestedIn url title (ls, heap)
          = (mkLinkStore (Links ls) (noted ls ++ [url]), heap)) as E1.
  { unfold InterestedIn. now rewrite Hknown. }
  split; [exact E1|].
  intros title'. rewrite E1. unfold InterestedIn. simpl. rewrite Hknown. simpl.
  repeat split.
  - now rewrite <- app_assoc.
  - unfold linkInSends. simpl. rewrite <- app_assoc, map_app. simpl.
    now rewrite Hknown.
Qed.

Lemma InterestedIn_known_url_witness :
  Links sample.knownStore.1 !! "http://x/" = Some 1%positive
  /\ InterestedIn "http://x/" "other title" sample.knownStore
     = (mkLinkStore (Links sample.knownStore.1) ["http://x/"],
        sample.knownStore.2).
Proof.
  assert (Links sample.knownStore.1 !! "http://x/" = Some 1%positive) as H
      by reflexivity.
  split; [exact H|].
  exact (proj1 (InterestedIn_known_url sample.knownStore.1 sample.knownStore.2
                                       "http://x/" "other title" 1%positive H)).
Defined.

(** ** The loops get enough iterations *)

Section Termination.

Lemma anchorBody_shorter toks failure depth title :
  (List.length (links.anchorBody toks failure depth title).2
   <= List.length toks)%nat.
Proof.
  revert depth title.
  induction toks as [|tok toks IH]; intros depth title; simpl.
  - destruct failure; simpl; lia.
  - destruct (links.Type_ tok); try (etransitivity; [apply IH|lia]).
    destruct (depth - 1 <? 0); simpl; [lia|].
    etransitivity; [apply IH|lia].
Qed.

Lemma checkTag_shorter tok parser rv :
  (List.length (links.pending (links.checkTag tok parser rv).2)
   <= List.length (links.pending parser))%nat.
Proof.
  unfold links.checkTag, links.checkForAnchor, links.checkForLINK.
  pose proof (anchorBody_shorter (links.pending parser)
                                 (links.failure parser) 0 "") as Hlen.
  repeat match goal with
         | |- context [if ?b then _ else _] => destruct b; simpl; try lia
         | |- context [let '(_, _) := ?x in _] => destruct x; simpl; try lia
         | |- context [match ?x with inl _ => _ | inr _ => _ end] =>
             destruct x; simpl in *; try lia
         end.
Qed.

Lemma ExtractLoop_enough fuel parser rv :
  (List.length (links.pending parser) < fuel)%nat ->
  is_Some (links.ExtractLoop fuel parser rv).
Proof.
  revert parser rv. induction fuel as [|fuel IH]; intros parser rv Hlen.
  - lia.
  - simpl. destruct (links.pending parser) as [|tok rest] eqn:Etoks.
    + destruct (links.failure parser); eauto.
    + simpl in Hlen.
      assert (forall rv', is_Some (links.ExtractLoop
                 fuel (links.mkTokenizer rest (links.failure parser)) rv'))
        as Hskip by (intros; apply IH; simpl; lia).
      pose proof (checkTag_shorter
                    tok (links.mkTokenizer rest (links.failure parser)) rv)
        as Htag.
      destruct (links.checkTag tok _ rv) as [[rv' [err|]] parser'];
        simpl in Htag;
        destruct (links.Type_ tok); eauto; apply IH; lia.
Qed.

Lemma Extract_total parser : is_Some (links.Extract parser).
Proof. apply ExtractLoop_enough. lia. Qed.

Context {RT : Runtime}.

Lemma extractLoop_shorter toks failure atom accum rv :
  (List.length (extractLoop toks failure atom accum rv).2
   <= List.length toks)%nat.
Proof.
  revert accum rv.
  induction toks as [|t toks IH]; intros accum rv; simpl; [lia|].
  destruct t as [t|n|s| | |]; try (etransitivity; [apply IH|lia]).
  - destruct (atom && _)%bool.
    + destruct (hrefLoop _ _ _) as [url [|]]; simpl; [|lia].
      etransitivity; [apply IH|lia].
    + etransitivity; [apply IH|lia].
  - repeat match goal with
           | |- context [if ?b then _ else _] => destruct b; simpl; try lia
           | |- context [match parseTime ?x with _ => _ end] =>
               destruct (parseTime x); simpl; try lia
           end; (etransitivity; [apply IH|lia]).
Qed.

Lemma feedParserLoop_enough fuel ring link :
  (List.length (xml.upcoming ring) < fuel)%nat ->
  is_Some (feedParserLoop fuel ring link).
Proof.
  revert ring link. induction fuel as [|fuel IH]; intros ring link Hlen.
  - lia.
  - simpl. unfold xml.Token_.
    destruct (xml.upcoming ring) as [|t rest] eqn:Etoks.
    + destruct (xml.endError _); eauto.
    + simpl in Hlen.
      assert (forall link', is_Some (feedParserLoop
                 fuel (xml.mkDecoder rest (xml.failure ring)) link'))
        as Hskip by (intros; apply IH; simpl; lia).
      destruct t as [t|n|s| | |]; auto.
      destruct (_ || _)%bool; auto.
      unfold genericExtractArticle. simpl.
      pose proof (extractLoop_shorter
                    rest (xml.failure ring)
                    (String.eqb (xml.Local_ (xml.SName t)) "entry")
                    "" emptyArticle) as Hshort.
      destruct (extractLoop rest _ _ _ _) as [[art [err|]] rest'];
        simpl in Hshort; eauto.
      apply IH. simpl. lia.
Qed.

Lemma feedParser_total ring root link : is_Some (feedParser ring root link).
Proof. apply feedParserLoop_enough. lia. Qed.

Lemma total_ret {A} (a : A) : total (ret a).
Proof. intros s. unfold ret. eauto. Qed.

Lemma total_bind {A B} (m : M A) (k : A -> M B) :
  total m -> (forall a, total (k a)) -> total (bind m k).
Proof.
  intros Hm Hk s. unfold bind.
  destruct (Hm s) as [[a s'] ->]. apply Hk.
Qed.

Lemma total_liftOption {A} (o : option A) : is_Some o -> total (liftOption o).
Proof. intros [a ->] s. simpl. eauto. Qed.

Lemma total_Now : total Now.
Proof. intros s. unfold Now. destruct (timeNow _). eauto. Qed.

Lemma total_clientGet url : total (clientGet url).
Proof. intros s. unfold clientGet. destruct (httpGet _ _). eauto. Qed.

Create HintDb total.
Hint Resolve total_ret total_Now total_clientGet feedParser_total
     Extract_total : total.

Ltac total_step :=
  match goal with
  | |- total (bind _ _) => apply total_bind; [|intros ?]
  | |- total (ret _) => apply total_ret
  | |- total (liftOption _) => apply total_liftOption
  | |- total (if ?b then _ else _) => destruct b
  | |- total (match ?x with _ => _ end) => destruct x
  | |- total (let '(_, _) := ?x in _) => destruct x
  end.

Lemma total_makeFeedRequest baseUrl reqUrl :
  total (makeFeedRequest baseUrl reqUrl).
Proof. unfold makeFeedRequest. repeat total_step; auto with total. Qed.

Lemma total_checkForFeedUrl baseUrl link :
  total (checkForFeedUrl baseUrl link).
Proof.
  unfold checkForFeedUrl.
  repeat total_step; auto using total_makeFeedRequest with total.
Qed.

Lemma total_probeLoop baseUrl lnks : total (probeLoop baseUrl lnks).
Proof.
  induction lnks as [|link rest IH]; simpl.
  - apply total_ret.
  - apply total_bind; [apply total_checkForFeedUrl|].
    intros [feedUrl [|]]; [apply total_ret|exact IH].
Qed.

Lemma total_findFeedUrl ld : total (findFeedUrl ld).
Proof.
  unfold findFeedUrl.
  repeat total_step; auto using total_probeLoop with total.
Qed.

Lemma total_checkForArticles link : total (checkForArticles link).
Proof.
  unfold checkForArticles.
  apply total_bind; [apply total_Now|]. intros moment.
  destruct (_ <? _); [apply total_ret|].
  apply total_bind; [apply total_makeFeedRequest|]. intros [resp|err];
    [|apply total_ret].
  destruct (firstStartElement _) as [[first|err] ring]; [|apply total_ret].
  unfold parseFunctionForFeed.
  repeat match goal with
         | |- total (match (if ?b then _ else _) with _ => _ end) => destruct b
         end; try apply total_ret;
    (apply total_bind; [apply total_liftOption, feedParser_total|];
     intros [[err|] link']; [apply total_ret|];
     destruct (absolutizeLoop _ _); apply total_ret).
Qed.

End Termination.

(** ** Article refresh *)

Section Refresh.

Context {RT : Runtime}.

Lemma withArticles_withArticles a b link :
  withArticles a (withArticles b link) = withArticles a link.
Proof. reflexivity. Qed.

(** The parser touches nothing but the articles, and only appends. *)
Lemma feedParserLoop_frame fuel ring link r link' :
  feedParserLoop fuel ring link = Some (r, link') ->
  exists arts, link' = withArticles (Articles link ++ arts) link.
Proof.
  revert ring link. induction fuel as [|fuel IH]; intros ring link; simpl;
    [discriminate|].
  assert (link = withArticles (Articles link ++ []) link) as Hsame
      by (rewrite app_nil_r; now destruct link).
  destruct (xml.Token_ ring) as [[t|err] ring1].
  - destruct t as [t|n|c| | |]; try apply IH.
    destruct (_ || _)%bool; [|apply IH].
    destruct (genericExtractArticle _ _ _) as [[art [err|]] ring2].
    + intros [= _ <-]. now exists [].
    + intros H. apply IH in H as [arts ->]. simpl.
      exists (art :: arts). now rewrite <- app_assoc.
  - destruct err; intros [= _ <-]; now exists [].
Qed.

Lemma parseFunctionForFeed_Some first pfn :
  parseFunctionForFeed first = Some pfn -> pfn = feedParser.
Proof.
  unfold parseFunctionForFeed.
  repeat destruct (String.eqb _ _); congruence.
Qed.

Lemma parseFunctionForFeed_None first :
  parseFunctionForFeed first = None
  <-> ~ In (xml.Local_ (xml.SName first)) ["rss"; "feed"; "RDF"].
Proof.
  unfold parseFunctionForFeed. simpl.
  destruct (String.eqb_spec (xml.Local_ (xml.SName first)) "rss");
    [split; [discriminate|intros []; auto]|].
  destruct (String.eqb_spec (xml.Local_ (xml.SName first)) "feed");
    [split; [discriminate|intros []; auto]|].
  destruct (String.eqb_spec (xml.Local_ (xml.SName first)) "RDF");
    [split; [discriminate|intros []; auto]|].
  split; [|reflexivity]. intros _ [H|[H|[H|[]]]]; congruence.
Qed.

Lemma makeFeedRequest_fetched baseUrl reqUrl s r s' :
  makeFeedRequest baseUrl reqUrl s = Some (r, s') ->
  match forceAbsolute baseUrl reqUrl with
  | inr err => r = inr err /\ s' = s
  | inl absU =>
      fetched s' = fetched s ++ [absU]
      /\ match (httpGet absU (world s)).1 with
         | inr msg => r = inr (LibError msg)
         | inl resp =>
             if StatusCode resp =? 200 then r = inl resp
             else r = inr (MkError ("Bad response: " +:+ Status resp))
         end
  end.
Proof.
  unfold makeFeedRequest, bind, clientGet, ret.
  destruct (forceAbsolute _ _) as [absU|err]; [|now intros [= <- <-]].
  destruct (httpGet absU (world s)) as [[resp|msg] w]; simpl.
  - destruct (StatusCode resp =? 200); simpl; now intros [= <- <-].
  - now intros [= <- <-].
Qed.

(** The ways a refresh ends: the record with its articles dropped (too
    soon, or a root that is no feed), the same with an error recorded, or
    the parsed articles, sorted and made absolute, with [LastChecked]
    moved to the time the refresh began. *)
Lemma checkForArticles_outcome link s link' s' :
  checkForArticles link s = Some (link', s') ->
  link' = withArticles [] link
  \/ (exists err, link' = ErrorOccurred err (withArticles [] link))
  \/ (exists ring first parsed arts,
         feedParser ring first (withArticles [] link)
         = Some (None, withArticles parsed link)
         /\ absolutizeLoop (BaseUrl link) (sortIfLong parsed) = inl arts
         /\ link' = withLastChecked (timeNow (world s)).1
                                    (withArticles arts link)).
Proof.
  unfold checkForArticles, bind, Now, ret, liftOption.
  destruct (timeNow (world s)) as [moment w]. simpl.
  destruct (_ <? _); [intros [= <- _]; now left|].
  destruct (makeFeedRequest _ _ _) as [[[resp|err] s1]|];
    [|intros [= <- _]; right; left; eauto|discriminate].
  destruct (firstStartElement _) as [[first|err] ring];
    [|intros [= <- _]; right; left; eauto].
  destruct (parseFunctionForFeed first) as [pfn|] eqn:Epfn;
    [|intros [= <- _]; now left].
  apply parseFunctionForFeed_Some in Epfn as ->.
  destruct (feedParser ring first _) as [[[err|] lk]|] eqn:Eparse;
    [| |discriminate].
  - intros [= <- _]. right; left. exists err.
    apply feedParserLoop_frame in Eparse as [arts ->]. reflexivity.
  - pose proof Eparse as Hframe.
    apply feedParserLoop_frame in Hframe as [parsed ->]. simpl in *.
    destruct (absolutizeLoop _ _) as [arts|err] eqn:Eabs.
    + intros [= <- _]. right; right. exists ring, first, parsed, arts.
      unfold sortIfLong.
      split; [exact Eparse|].
      destruct (1 <? List.length parsed)%nat; now split.
    + intros [= <- _]. right; left. exists err.
      now destruct (1 <? List.length parsed)%nat.
Qed.

Lemma checkForArticles_frame link s link' s' :
  checkForArticles link s = Some (link', s') ->
  BaseUrl link' = BaseUrl link /\ FeedUrl link' = FeedUrl link
  /\ LTitle link' = LTitle link /\ LastRead link' = LastRead link.
Proof.
  intros H. apply checkForArticles_outcome in H
    as [->|[[err ->]|(ring & first & parsed & arts & _ & _ & ->)]];
    repeat split.
Qed.

(** What one refresh can fetch: nothing, or the feed URL made absolute. *)
Lemma checkForArticles_fetched link s link' s' :
  checkForArticles link s = Some (link', s') ->
  fetched s' = fetched s
  \/ exists absU,
      forceAbsolute (BaseUrl link) (FeedUrl link) = inl absU
      /\ fetched s' = fetched s ++ [absU].
Proof.
  unfold checkForArticles, bind, Now, ret, liftOption.
  destruct (timeNow (world s)) as [moment w]. simpl.
  destruct (_ <? _); [intros [= _ <-]; now left|].
  destruct (makeFeedRequest _ _ _) as [[r s1]|] eqn:Ereq; [|discriminate].
  apply makeFeedRequest_fetched in Ereq. simpl in Ereq.
  assert (s' = s1 ->
          fetched s' = fetched s
          \/ exists absU,
              forceAbsolute (BaseUrl link) (FeedUrl link) = inl absU
              /\ fetched s' = fetched s ++ [absU]) as Hs1.
  { intros ->. destruct (forceAbsolute _ _) as [absU|err].
    - right. exists absU. now destruct Ereq.
    - left. now destruct Ereq as [_ ->]. }
  intros H. apply Hs1. clear Hs1 Ereq. revert H.
  destruct r as [resp|err]; [|now intros [= _ <-]].
  destruct (firstStartElement _) as [[first|err] ring];
    [|now intros [= _ <-]].
  destruct (parseFunctionForFeed first) as [pfn|]; [|now intros [= _ <-]].
  destruct (pfn ring first _) as [[[err|] lk]|]; [| |discriminate].
  - now intros [= _ <-].
  - destruct (absolutizeLoop _ _); now intros [= _ <-].
Qed.

End Refresh.

(** ** The life cycle of a link *)

Section LifeCycle.

Context {RT : Runtime}.

Lemma checkLinkBody_TransientError ld s :
  State ld = LinkTransientError ->
  checkLinkBody ld s
  = Some ((withState (if String.eqb (FeedUrl ld) "" then LinkIsNew
                      else LinkHasFeed) ld, true), s).
Proof.
  intros H. unfold checkLinkBody. rewrite H. unfold ret.
  now destruct (String.eqb _ _).
Qed.

Lemma checkLinkLoop_HasFeed n ld s :
  State ld = LinkHasFeed ->
  checkLinkLoop (S n) ld s = checkForArticles ld s.
Proof.
  intros H. simpl. unfold checkLinkBody. rewrite H. unfold bind, ret.
  destruct (checkForArticles ld s) as [[ld' s']|]; reflexivity.
Qed.

Lemma checkLinkBody_New ld s :
  State ld = LinkIsNew ->
  exists ld' again s',
    checkLinkBody ld s = Some ((ld', again), s')
    /\ (again = true -> State ld' = LinkHasFeed).
Proof.
  intros H. unfold checkLinkBody. rewrite H. unfold bind.
  destruct (total_findFeedUrl ld s) as [[[feedUrl err] s'] ->].
  destruct err as [e|]; [destruct (IsTransient _)|]; unfold ret;
    eexists _, _, _; (split; [reflexivity|]); intros; try discriminate.
  reflexivity.
Qed.

(** A pass of [checkLink] finishes: three iterations are enough. *)
Lemma checkLinkLoop_total n ld : total (checkLinkLoop (3 + n) ld).
Proof.
  assert (forall k ld, State ld = LinkHasFeed ->
                       total (checkLinkLoop (S k) ld)) as Hfeed.
  { intros k ld0 H s. rewrite checkLinkLoop_HasFeed by exact H.
    apply total_checkForArticles. }
  assert (forall k ld, State ld = LinkIsNew ->
                       total (checkLinkLoop (S (S k)) ld)) as Hnew.
  { intros k ld0 H s.
    destruct (checkLinkBody_New ld0 s H) as (ld' & again & s' & E & Hagain).
    change (checkLinkLoop (S (S k)) ld0 s)
      with (bind (checkLinkBody ld0)
                 (fun r => let '(ld, b) := r in
                           if b then checkLinkLoop (S k) ld else ret ld) s).
    unfold bind. rewrite E. destruct again.
    - apply Hfeed. now apply Hagain.
    - apply total_ret. }
  intros s.
  destruct (State ld) eqn:H.
  - now apply Hnew.
  - simpl. unfold bind, checkLinkBody. rewrite H. simpl. eauto.
  - change (checkLinkLoop (3 + n) ld s)
      with (bind (checkLinkBody ld)
                 (fun r => let '(ld, b) := r in
                           if b then checkLinkLoop (2 + n) ld else ret ld) s).
    unfold bind. rewrite checkLinkBody_TransientError by exact H.
    destruct (String.eqb _ _); [now apply Hnew|now apply Hfeed].
  - now apply Hfeed.
  - simpl. unfold bind, checkLinkBody. rewrite H. simpl. eauto.
Qed.

Lemma checkLink_total ld : total (checkLink ld).
Proof. apply (checkLinkLoop_total 0). Qed.

End LifeCycle.

(** C2: a record in state TransientError is moved, without any fetch, to
    HasFeed when its feed URL is non-empty and to New otherwise; the feed
    URL is kept and the loop of [checkLink] goes round again on the new
    state.  With a feed URL the rest of the pass is one article refresh and
    nothing else, so discovery is not run: the pass keeps the feed URL and
    fetches nothing but, at most, that URL. *)
Theorem TransientError_recovers
        {RT : Runtime} (ld : LinkDetails) (s : Sys)
        (Hstate : State ld = LinkTransientError) :
  let next := if String.eqb (FeedUrl ld) "" then LinkIsNew else LinkHasFeed in
  checkLinkBody ld s = Some ((withState next ld, true), s)
  /\ FeedUrl (withState next ld) = FeedUrl ld
  /\ (forall n, checkLinkLoop (S n) ld s = checkLinkLoop n (withState next ld) s)
  /\ (FeedUrl ld <> "" ->
      next = LinkHasFeed
      /\ checkLink ld s = checkForArticles (withState LinkHasFeed ld) s
      /\ forall ld' s',
          checkLink ld s = Some (ld', s') ->
          FeedUrl ld' = FeedUrl ld
          /\ (fetched s' = fetched s
              \/ exists absU,
                  forceAbsolute (BaseUrl ld) (FeedUrl ld) = inl absU
                  /\ fetched s' = fetched s ++ [absU]))
  /\ (FeedUrl ld = "" ->
      next = LinkIsNew
      /\ checkLink ld s = checkLinkLoop 2 (withState LinkIsNew ld) s).
Proof.
  intros next.
  assert (forall n, checkLinkLoop (S n) ld s
                    = checkLinkLoop n (withState next ld) s) as Hloop.
  { intros n. simpl. unfold bind.
    now rewrite checkLinkBody_TransientError by exact Hstate. }
  split; [now apply checkLinkBody_TransientError|].
  split; [reflexivity|]. split; [exact Hloop|]. split.
  - intros Hfeed. apply String.eqb_neq in Hfeed.
    assert (next = LinkHasFeed) as -> by (subst next; now rewrite Hfeed).
    assert (checkLink ld s = checkForArticles (withState LinkHasFeed ld) s) as E.
    { unfold checkLink. rewrite Hloop. now apply checkLinkLoop_HasFeed. }
    split; [reflexivity|]. split; [exact E|].
    intros ld' s' Hrun. rewrite E in Hrun. split.
    + now apply checkForArticles_frame in Hrun as (_ & -> & _).
    + apply checkForArticles_fetched in Hrun. exact Hrun.
  - intros Hfeed. apply String.eqb_eq in Hfeed.
    assert (next = LinkIsNew) as -> by (subst next; now rewrite Hfeed).
    split; [reflexivity|]. unfold checkLink. now rewrite Hloop.
Qed.

(** The scenario of the recovery: the fetch of the feed is refused, which
    leaves the record in TransientError with its feed URL; the next pass
    begins by moving it back to HasFeed. *)
Lemma TransientError_recovers_witness :
  let failed := ErrorOccurred (LibError "connection refused")
                              (withArticles [] sample.neverChecked) in
  let s1 := mkSys (RT := sample.offline) tt ["http://x/f.xml"] in
  checkLink (RT := sample.offline) sample.neverChecked
            (sample.start sample.offline tt)
  = Some (failed, s1)
  /\ State failed = LinkTransientError
  /\ checkLinkBody (RT := sample.offline) failed s1
     = Some ((withState LinkHasFeed failed, true), s1).
Proof.
  intros failed s1. split; [reflexivity|].
  assert (State failed = LinkTransientError) as H by reflexivity.
  split; [exact H|].
  exact (proj1 (TransientError_recovers (RT := sample.offline) failed s1 H)).
Defined.

(** ** Refreshing too soon, and feeds that are none *)

(** C3 (as stated, refuted): a refresh within the minimum interval is not a
    no-op on the articles.  The record, in state HasFeed and last checked
    at 900 ns, holds one article; refreshed at 1000 ns it holds none. *)
Lemma refresh_too_soon_changes_articles :
  State sample.checkedAt900 = LinkHasFeed
  /\ time.Sub 1000 (LastChecked sample.checkedAt900) < minCheckDuration
  /\ checkForArticles (RT := sample.soonAfter) sample.checkedAt900
                      (sample.start sample.soonAfter tt)
     = Some (withArticles [] sample.checkedAt900,
             sample.start sample.soonAfter tt)
  /\ Articles sample.checkedAt900 = [sample.art "a" 5]
  /\ Articles (withArticles [] sample.checkedAt900)
     <> Articles sample.checkedAt900.
Proof. repeat split. discriminate. Qed.

(** C3 (amended): for a record in state HasFeed, a refresh less than 300
    seconds after [LastChecked] is not an error and fetches nothing; it
    empties the articles list and changes nothing else, so [LastChecked],
    the state and the last error stay.  A second refresh within the interval
    changes nothing any more. *)
Theorem refresh_too_soon
        {RT : Runtime} (link : LinkDetails) (s : Sys)
        (moment : time.Time) (w : W)
        (Hstate : State link = LinkHasFeed)
        (Hnow : timeNow (world s) = (moment, w))
        (Hsoon : time.Sub moment (LastChecked link) < minCheckDuration) :
  minCheckDuration = 300 * 10 ^ 9
  /\ checkForArticles link s
     = Some (withArticles [] link, mkSys w (fetched s))
  /\ checkLink link s = Some (withArticles [] link, mkSys w (fetched s))
  /\ forall (moment2 : time.Time) (w2 : W),
      timeNow w = (moment2, w2) ->
      time.Sub moment2 (LastChecked link) < minCheckDuration ->
      checkForArticles (withArticles [] link) (mkSys w (fetched s))
      = Some (withArticles [] link, mkSys w2 (fetched s)).
Proof.
  assert (forall (lk : LinkDetails) (s0 : Sys) (m : time.Time) (w0 : W),
             timeNow (world s0) = (m, w0) ->
             time.Sub m (LastChecked lk) < minCheckDuration ->
             checkForArticles lk s0
             = Some (withArticles [] lk, mkSys w0 (fetched s0))) as Hskip.
  { intros lk s0 m w0 Hn Hs.
    unfold checkForArticles, bind, Now, ret. rewrite Hn. simpl.
    apply Z.ltb_lt in Hs. now rewrite Hs. }
  split; [reflexivity|]. split; [now apply (Hskip link s moment w)|]. split.
  - unfold checkLink. rewrite checkLinkLoop_HasFeed by exact Hstate.
    now apply (Hskip link s moment w).
  - intros moment2 w2 Hnow2 Hsoon2.
    now rewrite (Hskip (withArticles [] link) (mkSys w (fetched s)) moment2 w2).
Qed.

Lemma refresh_too_soon_witness :
  checkForArticles (RT := sample.soonAfter) sample.checkedAt900
                   (sample.start sample.soonAfter tt)
  = Some (withArticles [] sample.checkedAt900,
          sample.start sample.soonAfter tt).
Proof.
  refine (proj1 (proj2 (refresh_too_soon (RT := sample.soonAfter)
                          sample.checkedAt900
                   (sample.start sample.soonAfter tt) 1000 tt
                          _ _ _))).
  - reflexivity.
  - reflexivity.
  - vm_compute. reflexivity.
Defined.

(** C4 (as stated, refuted): a refresh that finds a root element that is no
    feed does change the record.  The record, in state HasFeed, holds one
    article; the server answers 200 with a body whose first start element
    is [html]; after the refresh the record holds no article. *)
Lemma refresh_unknown_root_changes_articles :
  let resp := sample.ok "text/html" []
                        [sample.open_ "html"; sample.close "html"] None in
  State sample.neverChecked = LinkHasFeed
  /\ @httpGet sample.htmlOnly "http://x/f.xml" tt = (inl resp, tt)
  /\ StatusCode resp = 200
  /\ (firstStartElement (BodyXML resp)).1 = inl (sample.elem "html")
  /\ checkForArticles (RT := sample.htmlOnly) sample.neverChecked
                      (sample.start sample.htmlOnly tt)
     = Some (withArticles [] sample.neverChecked,
             mkSys (RT := sample.htmlOnly) tt ["http://x/f.xml"])
  /\ Articles sample.neverChecked = [sample.art "a" 5]
  /\ withArticles [] sample.neverChecked <> sample.neverChecked.
Proof. repeat split. discriminate. Qed.

(** C4 (amended): for a record in state HasFeed that is due for a refresh,
    when the feed URL is fetched with status 200 and the first start
    element of the body is none of [rss], [feed], [RDF], the refresh
    records no error and leaves the state, the last error and
    [LastChecked] as they were, but it empties the articles list. *)
Theorem refresh_unknown_root
        {RT : Runtime} (link : LinkDetails) (s : Sys)
        (moment : time.Time) (w w' : W) (absU : string) (resp : Response)
        (first : xml.StartElement) (ring : xml.Decoder)
        (Hstate : State link = LinkHasFeed)
        (Hnow : timeNow (world s) = (moment, w))
        (Hdue : minCheckDuration <= time.Sub moment (LastChecked link))
        (Habs : forceAbsolute (BaseUrl link) (FeedUrl link) = inl absU)
        (Hget : httpGet absU w = (inl resp, w'))
        (Hok : StatusCode resp = 200)
        (Hfirst : firstStartElement (BodyXML resp) = (inl first, ring))
        (Hroot : ~ In (xml.Local_ (xml.SName first)) ["rss"; "feed"; "RDF"]) :
  let link' := withArticles [] link in
  checkForArticles link s = Some (link', mkSys w' (fetched s ++ [absU]))
  /\ checkLink link s = Some (link', mkSys w' (fetched s ++ [absU]))
  /\ State link' = State link
  /\ LastError link' = LastError link
  /\ LastChecked link' = LastChecked link
  /\ Articles link' = [].
Proof.
  intros link'.
  assert (checkForArticles link s
          = Some (link', mkSys w' (fetched s ++ [absU]))) as E.
  { unfold checkForArticles, bind, Now, ret. rewrite Hnow. simpl.
    apply Z.ltb_ge in Hdue. rewrite Hdue.
    unfold makeFeedRequest. rewrite Habs. unfold bind, clientGet. simpl.
    rewrite Hget. simpl. rewrite Hok. simpl. rewrite Hfirst.
    apply parseFunctionForFeed_None in Hroot. now rewrite Hroot. }
  split; [exact E|]. split; [|now repeat split].
  unfold checkLink. now rewrite checkLinkLoop_HasFeed by exact Hstate.
Qed.

Lemma refresh_unknown_root_witness :
  checkForArticles (RT := sample.htmlOnly) sample.neverChecked (sample.start sample.htmlOnly tt)
  = Some (withArticles [] sample.neverChecked,
          mkSys (RT := sample.htmlOnly) tt ["http://x/f.xml"]).
Proof.
  refine (proj1 (refresh_unknown_root
                   (RT := sample.htmlOnly) sample.neverChecked (sample.start sample.htmlOnly tt)
                   400000000000 tt tt "http://x/f.xml"
                   (sample.ok "text/html" []
                              [sample.open_ "html"; sample.close "html"] None)
                   (sample.elem "html")
                   (xml.mkDecoder [sample.close "html"] None)
                   _ _ _ _ _ _ _ _)); try reflexivity.
  - vm_compute. discriminate.
  - simpl. intros [F|[F|[F|[]]]]; discriminate F.
Defined.

(** ** The articles stay sorted *)

Section Sorted.

Context {RT : Runtime}.

Lemma ascending_nil : ascending [].
Proof. intros i j a b _ H. destruct i; discriminate H. Qed.

Lemma ascending_short (aa : ArticleArray) :
  (List.length aa <= 1)%nat -> ascending aa.
Proof.
  intros Hlen i j a b Hij Ha Hb.
  apply lookup_lt_Some in Ha as Hi. apply lookup_lt_Some in Hb as Hj.
  assert (i = j) as -> by lia.
  rewrite Ha in Hb. injection Hb as ->. lia.
Qed.

Lemma ascending_sort (srt : ArticleArray -> ArticleArray) (aa : ArticleArray) :
  SortContract srt -> ascending (srt aa).
Proof.
  intros Hsort i j a b Hij Ha Hb.
  destruct (Hsort aa) as [Hperm Hless].
  destruct (decide (i = j)) as [->|Hne].
  - rewrite Ha in Hb. injection Hb as ->. lia.
  - apply lookup_lt_Some in Hb as Hj.
    rewrite (Permutation_length Hperm) in Hj.
    specialize (Hless i j ltac:(unfold Len; lia)).
    unfold Less in Hless. rewrite Ha, Hb in Hless.
    injection Hless as Hless. unfold time.Before in Hless.
    apply Z.ltb_ge in Hless. exact Hless.
Qed.

Lemma ascending_sortIfLong (parsed : ArticleArray) :
  SortContract sortSort -> ascending (sortIfLong parsed).
Proof.
  intros Hsort. unfold sortIfLong.
  destruct (Nat.ltb_spec 1 (List.length parsed)).
  - now apply ascending_sort.
  - now apply ascending_short.
Qed.

Lemma absolutizeLoop_PubDate base arts arts' :
  absolutizeLoop base arts = inl arts' ->
  PubDate <$> arts' = PubDate <$> arts.
Proof.
  revert arts'. induction arts as [|a arts IH]; intros arts'; simpl.
  - now intros [= <-].
  - destruct (forceAbsolute base (Url a)) as [url|err]; [|discriminate].
    destruct (absolutizeLoop base arts) as [rest|err]; [|discriminate].
    intros [= <-]. simpl. f_equal. now apply IH.
Qed.

Lemma ascending_same_dates (aa bb : ArticleArray) :
  PubDate <$> aa = PubDate <$> bb -> ascending bb -> ascending aa.
Proof.
  intros Hdates Hbb i j a b Hij Ha Hb.
  assert (forall k x, aa !! k = Some x ->
                      exists y, bb !! k = Some y /\ PubDate y = PubDate x)
    as Hsame.
  { intros k x Hk.
    assert ((PubDate <$> bb) !! k = Some (PubDate x)) as Hk'
        by (rewrite <- Hdates, list_lookup_fmap, Hk; reflexivity).
    rewrite list_lookup_fmap in Hk'.
    destruct (bb !! k) as [y|]; [|discriminate].
    exists y. split; [reflexivity|]. now injection Hk'. }
  destruct (Hsame i a Ha) as (a' & Ha' & <-).
  destruct (Hsame j b Hb) as (b' & Hb' & <-).
  now apply (Hbb i j).
Qed.

Lemma checkForArticles_ascending link s link' s' :
  SortContract sortSort ->
  checkForArticles link s = Some (link', s') ->
  ascending (Articles link').
Proof.
  intros Hsort H. apply checkForArticles_outcome in H
    as [->|[[err ->]|(ring & first & parsed & arts & _ & Habs & ->)]];
    simpl; try apply ascending_nil.
  apply absolutizeLoop_PubDate in Habs.
  eapply ascending_same_dates; [exact Habs|].
  now apply ascending_sortIfLong.
Qed.

Lemma checkLinkBody_ascending ld s ld' again s' :
  SortContract sortSort ->
  ascending (Articles ld) ->
  checkLinkBody ld s = Some ((ld', again), s') ->
  ascending (Articles ld').
Proof.
  intros Hsort Hasc. unfold checkLinkBody, bind, ret.
  destruct (State ld).
  - destruct (findFeedUrl ld s) as [[[feedUrl [e|]] s1]|]; [| |discriminate].
    + destruct (IsTransient _); now intros [= <- _ _].
    + now intros [= <- _ _].
  - now intros [= <- _ _].
  - destruct (String.eqb _ _); now intros [= <- _ _].
  - destruct (checkForArticles ld s) as [[lk s1]|] eqn:E; [|discriminate].
    intros [= <- _ _]. now apply checkForArticles_ascending in E.
  - now intros [= <- _ _].
Qed.

Lemma checkLinkLoop_ascending fuel ld s ld' s' :
  SortContract sortSort ->
  ascending (Articles ld) ->
  checkLinkLoop fuel ld s = Some (ld', s') ->
  ascending (Articles ld').
Proof.
  intros Hsort. revert ld s.
  induction fuel as [|fuel IH]; intros ld s Hasc; simpl; [discriminate|].
  unfold bind.
  destruct (checkLinkBody ld s) as [[[ld1 again] s1]|] eqn:E; [|discriminate].
  apply checkLinkBody_ascending in E; [|assumption..].
  destruct again.
  - now apply IH.
  - now intros [= <- _].
Qed.

End Sorted.

(** The sort of the sample runtimes keeps [sort.Sort]'s promise. *)
Lemma merge_sort_contract : SortContract (merge_sort sample.byPubDate).
Proof.
  intros aa.
  assert (Total sample.byPubDate) as Htotal
      by (intros a b; unfold sample.byPubDate; lia).
  assert (Transitive sample.byPubDate) as Htrans
      by (intros a b c; unfold sample.byPubDate; lia).
  pose proof (merge_sort_Permutation sample.byPubDate aa) as Hperm.
  split; [exact Hperm|].
  intros i j Hij. unfold Len in Hij.
  pose proof (StronglySorted_merge_sort sample.byPubDate aa) as Hsorted.
  rewrite <- (Permutation_length Hperm) in Hij.
  revert i j Hij Hsorted. generalize (merge_sort sample.byPubDate aa).
  intros l i j Hij Hsorted. unfold Less.
  destruct (lookup_lt_is_Some_2 l j ltac:(lia)) as [b Hb].
  destruct (lookup_lt_is_Some_2 l i ltac:(lia)) as [a Ha].
  rewrite Ha, Hb. f_equal. unfold time.Before. apply Z.ltb_ge.
  revert i j a b Hij Ha Hb.
  induction Hsorted as [|x l Hsorted IH Hall]; intros i j a b Hij Ha Hb.
  - destruct i; discriminate Ha.
  - destruct j as [|j]; [lia|]. simpl in Hb. destruct i as [|i].
    + simpl in Ha. injection Ha as ->.
      rewrite List.Forall_forall in Hall.
      apply Hall. apply list_elem_of_In. eapply list_elem_of_lookup_2. exact Hb.
    + simpl in Ha. apply (IH i j); [simpl in Hij; lia|assumption..].
Qed.

(** C8: with a [sort.Sort] that keeps its promise, the articles of a record
    are in ascending order of publish time after every refresh, whatever
    its outcome, and so stay in ascending order through a pass of
    [checkLink], through [MarkAllAsRead] and through [InterestedIn]; a
    refresh always ends, and its result does not depend on the articles
    the record held before: the old list is dropped, not merged. *)
Theorem articles_ascending {RT : Runtime} (Hsort : SortContract sortSort) :
  (forall link s, is_Some (checkForArticles link s))
  /\ (forall link s link' s',
         checkForArticles link s = Some (link', s') ->
         ascending (Articles link'))
  /\ (forall link other s,
         checkForArticles (withArticles other link) s = checkForArticles link s)
  /\ (forall ld s ld' s',
         ascending (Articles ld) ->
         checkLink ld s = Some (ld', s') ->
         ascending (Articles ld'))
  /\ (forall ld, Articles (MarkAllAsRead ld) = Articles ld)
  /\ (forall url title ls (heap : Heap),
         (forall p ld, heap !! p = Some ld -> ascending (Articles ld)) ->
         forall p ld,
           (InterestedIn url title (ls, heap)).2 !! p = Some ld ->
           ascending (Articles ld)).
Proof.
  repeat split.
  - apply total_checkForArticles.
  - intros link s link' s'. now apply checkForArticles_ascending.
  - intros ld s ld' s'. now apply checkLinkLoop_ascending.
  - intros ld. unfold MarkAllAsRead. now destruct (time.After _ _).
  - intros url title ls heap Hheap p ld. unfold InterestedIn.
    destruct (Links ls !! url); simpl; [apply Hheap|].
    destruct (decide (p = fresh (dom heap))) as [->|Hne].
    + rewrite lookup_insert_eq. intros [= <-]. apply ascending_nil.
    + rewrite lookup_insert_ne by congruence. apply Hheap.
Qed.

Lemma articles_ascending_witness :
  ascending [mkArticle "http://x/a" "A" sample.jan1;
             mkArticle "http://x/b" "B" sample.jan2].
Proof.
  refine (proj1 (proj2 (articles_ascending (RT := sample.feedServer)
                                           merge_sort_contract))
                sample.neverChecked (sample.start sample.feedServer tt)
                (mkLinkDetails "http://x/" LinkHasFeed "http://x/f.xml" None "x"
                               0 400000000000
                               [mkArticle "http://x/a" "A" sample.jan1;
                                mkArticle "http://x/b" "B" sample.jan2])
                (mkSys (RT := sample.feedServer) tt ["http://x/f.xml"]) _).
  vm_compute. reflexivity.
Defined.

(** ** Feeds that break off inside an item *)

Section BrokenItem.

Context {RT : Runtime}.

Lemma parseTime_permanent accum err :
  parseTime accum = inr err -> IsTransient (Some err) = false.
Proof.
  unfold parseTime. destruct (parseTimeLoop _ _); [discriminate|].
  now intros [= <-].
Qed.

Lemma endError_permanent failure :
  IsTransient (Some (xml.endError failure)) = false.
Proof. now destruct failure. Qed.

(** Whatever makes the extraction of an article fail is not transient. *)
Lemma extractLoop_permanent toks failure atom accum rv a err :
  (extractLoop toks failure atom accum rv).1 = (a, Some err) ->
  IsTransient (Some err) = false.
Proof.
  revert accum rv.
  induction toks as [|t toks IH]; intros accum rv; simpl.
  - intros [= _ <-]. apply endError_permanent.
  - destruct t as [t|n|c| | |]; try apply IH.
    + destruct (atom && _)%bool; [|apply IH].
      destruct (hrefLoop _ _ _) as [url [|]]; simpl; [apply IH|].
      now intros [= _ <-].
    + destruct (_ || _)%bool; [discriminate|].
      destruct (String.eqb _ "title"); [apply IH|].
      destruct (String.eqb _ "link"); [destruct (negb atom); apply IH|].
      destruct (_ || _)%bool; [|apply IH].
      destruct (parseTime accum) as [tm|e] eqn:E; [apply IH|].
      simpl. intros [= _ <-]. now apply parseTime_permanent in E.
Qed.

Lemma feedParserLoop_permanent fuel ring link err link' :
  feedParserLoop fuel ring link = Some (Some err, link') ->
  IsTransient (Some err) = false.
Proof.
  revert ring link. induction fuel as [|fuel IH]; intros ring link; simpl;
    [discriminate|].
  unfold xml.Token_. destruct (xml.upcoming ring) as [|t rest].
  - destruct (xml.failure ring); simpl; [|discriminate].
    now intros [= <- _].
  - destruct t as [t|n|c| | |]; try apply IH.
    destruct (_ || _)%bool; [|apply IH].
    unfold genericExtractArticle. simpl.
    destruct (extractLoop rest _ _ _ _) as [[art [e|]] rest'] eqn:E;
      [|apply IH].
    intros [= <- _].
    apply (extractLoop_permanent rest (xml.failure ring)
             (String.eqb (xml.Local_ (xml.SName t)) "entry") "" emptyArticle art).
    now rewrite E.
Qed.

(** An article is only ever completed by the end element of an item or
    entry. *)
Lemma extractLoop_closed toks failure atom accum rv art rest :
  extractLoop toks failure atom accum rv = ((art, None), rest) ->
  exists used t, toks = used ++ t :: rest /\ closesItem t = true.
Proof.
  revert accum rv.
  induction toks as [|t toks IH]; intros accum rv; simpl; [discriminate|].
  assert (forall acc r,
             extractLoop toks failure atom acc r = ((art, None), rest) ->
             exists used t', t :: toks = used ++ t' :: rest
                             /\ closesItem t' = true) as Hnext.
  { intros acc r H. apply IH in H as (used & t' & -> & Ht').
    now exists (t :: used), t'. }
  destruct t as [t|n|c| | |]; try apply Hnext.
  - destruct (atom && _)%bool; [|apply Hnext].
    destruct (hrefLoop _ _ _) as [url [|]]; simpl; [apply Hnext|discriminate].
  - destruct (String.eqb _ "item" || String.eqb _ "entry")%bool eqn:Eitem.
    + intros [= _ <-]. now exists [], (xml.TEndElement n).
    + destruct (String.eqb _ "title"); [apply Hnext|].
      destruct (String.eqb _ "link"); [destruct (negb atom); apply Hnext|].
      destruct (_ || _ || _)%bool; [|apply Hnext].
      destruct (parseTime accum); [apply Hnext|discriminate].
Qed.

Lemma extractLoop_unclosed toks failure atom accum rv :
  Forall (fun t => closesItem t = false) toks ->
  exists a err, (extractLoop toks failure atom accum rv).1 = (a, Some err).
Proof.
  intros Hopen.
  destruct (extractLoop toks failure atom accum rv) as [[a [err|]] rest] eqn:E;
    [now exists a, err|].
  apply extractLoop_closed in E as (used & t & -> & Ht).
  apply Forall_app in Hopen as [_ Hopen].
  apply Forall_cons in Hopen as [Hopen _]. congruence.
Qed.

Lemma unclosedItem_rest toks failure atom accum rv art rest :
  unclosedItem toks ->
  extractLoop toks failure atom accum rv = ((art, None), rest) ->
  unclosedItem rest.
Proof.
  intros (pre & st & body & -> & Hst & Hbody) E.
  apply extractLoop_closed in E as (used & t & E & Ht).
  apply app_eq_inv in E as [(k & -> & E)|(k & -> & E)].
  - destruct k as [|t' k]; simpl in E.
    + injection E as -> _. discriminate Ht.
    + injection E as _ ->. now exists k, st, body.
  - destruct k as [|t' k]; simpl in E.
    + injection E as <- _. discriminate Ht.
    + injection E as _ ->.
      apply Forall_app in Hbody as [_ Hbody].
      apply Forall_cons in Hbody as [Hbody _]. congruence.
Qed.

(** A feed that breaks off inside an item never parses. *)
Lemma feedParserLoop_unclosed fuel ring link r link' :
  unclosedItem (xml.upcoming ring) ->
  feedParserLoop fuel ring link = Some (r, link') ->
  exists err, r = Some err.
Proof.
  revert ring link. induction fuel as [|fuel IH]; intros ring link Hopen;
    simpl; [discriminate|].
  unfold xml.Token_. destruct (xml.upcoming ring) as [|t rest] eqn:Etoks.
  - destruct Hopen as (pre & st & body & E & _). now destruct pre.
  - assert ((forall st, t = xml.TStartElement st ->
                        isItemName (xml.Local_ (xml.SName st)) = false) ->
            unclosedItem rest) as Hskip.
    { intros Hnot. destruct Hopen as (pre & st & body & E & Hst & Hbody).
      destruct pre as [|t' pre]; simpl in E; simplify_eq.
      - specialize (Hnot st eq_refl). congruence.
      - now exists pre, st, body. }
    destruct t as [t|n|c| | |];
      try (apply IH; simpl; apply Hskip; discriminate).
    fold (isItemName (xml.Local_ (xml.SName t))).
    destruct (isItemName (xml.Local_ (xml.SName t))) eqn:Eitem.
    + unfold genericExtractArticle. simpl.
      destruct (extractLoop rest _ _ _ _) as [[art [e|]] rest'] eqn:E.
      * intros [= <- _]. now exists e.
      * apply IH. simpl.
        destruct Hopen as (pre & st & body & E' & Hst & Hbody).
        destruct pre as [|t' pre]; simpl in E'; simplify_eq.
        -- destruct (extractLoop_unclosed body (xml.failure ring)
                       (String.eqb (xml.Local_ (xml.SName st)) "entry")
                       "" emptyArticle Hbody) as (a & err & Herr).
           rewrite E in Herr. discriminate Herr.
        -- eapply unclosedItem_rest; [|exact E]. now exists pre, st, body.
    + apply IH. simpl. apply Hskip.
      intros st [= <-]. exact Eitem.
Qed.

End BrokenItem.

(** C5 (as stated, refuted): the articles a record held are not left
    untouched when an item of the feed breaks off at a closing tag that
    does not match.  The record holds one article; after the refresh it
    holds none, its state is TransientError and its last error is the
    decoder's. *)
Lemma refresh_broken_item_drops_articles :
  exists link' s',
    checkForArticles (RT := sample.brokenFeed) sample.neverChecked
                     (sample.start sample.brokenFeed tt)
    = Some (link', s')
    /\ State link' = LinkTransientError
    /\ LastError link' = Some (LibError sample.mismatch)
    /\ Articles link' = []
    /\ Articles link' <> Articles sample.neverChecked.
Proof.
  eexists _, _. split; [vm_compute; reflexivity|].
  repeat split. discriminate.
Qed.

Section BrokenItemRefresh.

Context {RT : Runtime}.

Lemma parseFunctionForFeed_known first :
  In (xml.Local_ (xml.SName first)) ["rss"; "feed"; "RDF"] ->
  parseFunctionForFeed first = Some feedParser.
Proof.
  intros Hroot.
  destruct (parseFunctionForFeed first) as [pfn|] eqn:E.
  - now apply parseFunctionForFeed_Some in E as ->.
  - now apply parseFunctionForFeed_None in E.
Qed.

End BrokenItemRefresh.

(** C5 (amended): for a record in state HasFeed that is due for a refresh,
    when the feed URL is fetched with status 200, the root is one of [rss],
    [feed], [RDF], and the decoder ends inside an item or entry before it
    has delivered the end element of an item or entry (as it does at a
    closing tag that does not match), the refresh records an error that is
    not transient, moves the record to TransientError, leaves [LastChecked]
    as it was and empties the articles list. *)
Theorem refresh_broken_item
        {RT : Runtime} (link : LinkDetails) (s : Sys)
        (moment : time.Time) (w w' : W) (absU : string) (resp : Response)
        (first : xml.StartElement) (ring : xml.Decoder)
        (Hstate : State link = LinkHasFeed)
        (Hnow : timeNow (world s) = (moment, w))
        (Hdue : minCheckDuration <= time.Sub moment (LastChecked link))
        (Habs : forceAbsolute (BaseUrl link) (FeedUrl link) = inl absU)
        (Hget : httpGet absU w = (inl resp, w'))
        (Hok : StatusCode resp = 200)
        (Hfirst : firstStartElement (BodyXML resp) = (inl first, ring))
        (Hroot : In (xml.Local_ (xml.SName first)) ["rss"; "feed"; "RDF"])
        (Hbroken : unclosedItem (xml.upcoming ring)) :
  exists err link',
    checkForArticles link s = Some (link', mkSys w' (fetched s ++ [absU]))
    /\ checkLink link s = Some (link', mkSys w' (fetched s ++ [absU]))
    /\ link' = withArticles [] (ErrorOccurred err link)
    /\ IsTransient (Some err) = false
    /\ State link' = LinkTransientError
    /\ LastError link' = Some err
    /\ LastChecked link' = LastChecked link
    /\ Articles link' = [].
Proof.
  destruct (feedParser_total ring first (withArticles [] link))
    as [[r lk] Eparse].
  pose proof Eparse as Hframe.
  apply feedParserLoop_frame in Hframe as [parsed ->].
  destruct (feedParserLoop_unclosed _ _ _ _ _ Hbroken Eparse) as [err ->].
  exists err, (withArticles [] (ErrorOccurred err link)).
  assert (checkForArticles link s
          = Some (withArticles [] (ErrorOccurred err link),
                  mkSys w' (fetched s ++ [absU]))) as E.
  { unfold checkForArticles, bind, Now, ret. rewrite Hnow. simpl.
    apply Z.ltb_ge in Hdue. rewrite Hdue.
    unfold makeFeedRequest. rewrite Habs. unfold bind, clientGet. simpl.
    rewrite Hget. simpl. rewrite Hok. simpl. rewrite Hfirst.
    rewrite (parseFunctionForFeed_known first Hroot).
    unfold liftOption. now rewrite Eparse. }
  split; [exact E|]. split.
  - unfold checkLink. now rewrite checkLinkLoop_HasFeed by exact Hstate.
  - repeat split. now apply feedParserLoop_permanent in Eparse.
Qed.

Lemma refresh_broken_item_witness :
  exists err link',
    checkForArticles (RT := sample.brokenFeed) sample.neverChecked
                     (sample.start sample.brokenFeed tt)
    = Some (link', mkSys (RT := sample.brokenFeed) tt ["http://x/f.xml"])
    /\ link' = withArticles [] (ErrorOccurred err sample.neverChecked).
Proof.
  destruct (refresh_broken_item
              (RT := sample.brokenFeed) sample.neverChecked
              (sample.start sample.brokenFeed tt)
              400000000000 tt tt "http://x/f.xml"
              (sample.ok "application/rss+xml" [] sample.brokenItem
                         (Some sample.mismatch))
              (sample.elem "rss")
              (xml.mkDecoder [sample.open_ "channel"; sample.open_ "item";
                              sample.open_ "title"; sample.text "B"]
                             (Some sample.mismatch)))
    as (err & link' & E & _ & Hlink & _).
  - reflexivity.
  - reflexivity.
  - vm_compute. discriminate.
  - reflexivity.
  - reflexivity.
  - reflexivity.
  - reflexivity.
  - simpl. now left.
  - exists [sample.open_ "channel"], (sample.elem "item"),
      [sample.open_ "title"; sample.text "B"].
    repeat split. repeat constructor.
  - exists err, link'. now split.
Defined.

(** ** The publish time of an article *)

Section PublishTime.

Context {RT : Runtime}.

Lemma parseTime_first accum :
  parseTime accum
  = match List.find (fun f => isSome (timeParse f accum))
                    formats with
    | Some f =>
        match timeParse f accum with
        | Some tm => inl tm
        | None => inr (MkError ("Could not parse time: " +:+ accum))
        end
    | None => inr (MkError ("Could not parse time: " +:+ accum))
    end.
Proof.
  unfold parseTime. generalize formats. intros fmts.
  induction fmts as [|f fmts IH]; simpl; [reflexivity|].
  destruct (timeParse f accum) as [tm|] eqn:E; simpl.
  - now rewrite E.
  - exact IH.
Qed.

Lemma hrefLoop_found attrs url found :
  (hrefLoop attrs url found).2 = (found || hasHref attrs)%bool.
Proof.
  revert url found. induction attrs as [|attr attrs IH]; intros url found; simpl.
  - now rewrite orb_false_r.
  - destruct (String.eqb _ "href"); rewrite IH; simpl.
    + now rewrite orb_true_r.
    + reflexivity.
Qed.

Lemma isDateName_not_item name :
  isDateName name = true ->
  isItemName name = false /\ String.eqb name "title" = false
  /\ String.eqb name "link" = false.
Proof.
  unfold isDateName, isItemName. intros H.
  apply orb_true_iff in H as [H|H]; [apply orb_true_iff in H as [H|H]|];
    apply String.eqb_eq in H; now subst name.
Qed.

(** Quiet tokens are read through; they leave the publish time alone. *)
Lemma extractLoop_quiet atom failure toks more accum rv :
  forallb (quietToken atom) toks = true ->
  exists accum' rv',
    extractLoop (toks ++ more) failure atom accum rv
    = extractLoop more failure atom accum' rv'
    /\ PubDate rv' = PubDate rv.
Proof.
  revert accum rv. induction toks as [|t toks IH]; intros accum rv Hquiet.
  - now exists accum, rv.
  - simpl in Hquiet. apply andb_true_iff in Hquiet as [Ht Hquiet].
    assert (forall acc r, PubDate r = PubDate rv ->
               exists accum' rv',
                 extractLoop (toks ++ more) failure atom acc r
                 = extractLoop more failure atom accum' rv'
                 /\ PubDate rv' = PubDate rv) as Hnext.
    { intros acc r Hr. destruct (IH acc r Hquiet) as (accum' & rv' & E & Hd).
      exists accum', rv'. split; [exact E|congruence]. }
    simpl. destruct t as [st|n|c| | |]; simpl in Ht; try now apply Hnext.
    + destruct (atom && String.eqb (xml.Local_ (xml.SName st)) "link")%bool;
        [|now apply Hnext].
      simpl in Ht.
      pose proof (hrefLoop_found (xml.SAttr st) (Url rv) false) as Hfound.
      destruct (hrefLoop (xml.SAttr st) (Url rv) false) as [url found].
      simpl in Hfound. rewrite Ht in Hfound. subst found. simpl.
      now apply Hnext.
    + apply andb_true_iff in Ht as [Hitem Hdate].
      apply negb_true_iff in Hitem, Hdate.
      fold (isItemName (xml.Local_ n)). rewrite Hitem.
      fold (isDateName (xml.Local_ n)). rewrite Hdate.
      destruct (String.eqb (xml.Local_ n) "title"); [now apply Hnext|].
      destruct (String.eqb (xml.Local_ n) "link"); [|now apply Hnext].
      destruct (negb atom); now apply Hnext.
Qed.

(** A date element sets the publish time, or stops the extraction. *)
Lemma extractLoop_date atom failure n attrs content more accum rv :
  isDateName (xml.Local_ n) = true ->
  extractLoop (partTokens (DateChild n attrs content) ++ more)
              failure atom accum rv
  = match parseTime content with
    | inl tm => extractLoop more failure atom content (withPubDate tm rv)
    | inr err => ((rv, Some err), more)
    end.
Proof.
  intros Hdate.
  destruct (isDateName_not_item _ Hdate) as (Hitem & Htitle & Hlink).
  simpl. rewrite Hlink, andb_false_r.
  fold (isItemName (xml.Local_ n)). rewrite Hitem, Htitle.
  fold (isDateName (xml.Local_ n)). now rewrite Hdate.
Qed.

Lemma extractLoop_parts atom failure parts closing rest accum rv :
  Forall (wellFormedPart atom) parts ->
  isItemName (xml.Local_ closing) = true ->
  let toks := bodyTokens parts ++ xml.TEndElement closing :: rest in
  (Forall (fun c => exists tm, parseTime c = inl tm) (dateContents parts) ->
   exists art,
     extractLoop toks failure atom accum rv = ((art, None), rest)
     /\ PubDate art = timeOr (PubDate rv) (last (dateContents parts)))
  /\ (Exists (fun c => exists err, parseTime c = inr err) (dateContents parts) ->
      exists a err, (extractLoop toks failure atom accum rv).1 = (a, Some err)).
Proof.
  intros Hparts Hclosing. revert accum rv.
  induction Hparts as [|p parts Hp Hparts IH]; intros accum rv.
  - simpl. fold (isItemName (xml.Local_ closing)). rewrite Hclosing. split.
    + intros _. now exists rv.
    + intros H. inversion H.
  - unfold bodyTokens. simpl. rewrite <- app_assoc.
    fold (bodyTokens parts).
    destruct p as [n attrs content|toks]; simpl in Hp.
    + rewrite (extractLoop_date atom failure n attrs content _ accum rv Hp).
      simpl dateContents. fold (dateContents parts).
      destruct (parseTime content) as [tm|err] eqn:Eparse.
      * destruct (IH content (withPubDate tm rv)) as [IHok IHfail]. split.
        -- intros Hall. apply Forall_cons in Hall as [_ Hall].
           destruct (IHok Hall) as (art & -> & Hdate).
           exists art. split; [reflexivity|].
           rewrite Hdate, last_cons. simpl.
           destruct (last (dateContents parts)) as [c|] eqn:Elast; simpl.
           ++ apply last_Some_elem_of, list_elem_of_In in Elast.
              rewrite List.Forall_forall in Hall.
              destruct (Hall c Elast) as [tm' ->]. reflexivity.
           ++ now rewrite Eparse.
        -- intros Hsome. apply Exists_cons in Hsome as [[e He]|Hsome];
             [congruence|]. now apply IHfail.
      * split.
        -- intros Hall. apply Forall_cons in Hall as [[tm Htm] _].
           congruence.
        -- intros _. now exists rv, err.
    + change (partTokens (Others toks)) with toks.
      destruct (extractLoop_quiet
                  atom failure toks
                  (bodyTokens parts ++ xml.TEndElement closing :: rest)
                  accum rv Hp) as (accum' & rv' & -> & <-).
      simpl dateContents. fold (dateContents parts). apply IH.
Qed.

End PublishTime.

(** C6 (as stated, refuted): the publish time is not that of the first
    date element of the item.  Of [<pubDate>2020-1-1</pubDate>] followed by
    [<date>2020-1-2</date>], both of them dates that parse, the article
    gets 2 January, the later element's. *)
Lemma publish_time_not_the_first :
  (genericExtractArticle (RT := sample.feedServer)
                         (xml.mkDecoder sample.twoDates None)
                         sample.neverChecked false).1
  = (mkArticle "" "" sample.jan2, None)
  /\ parseTime (RT := sample.feedServer) "2020-1-1" = inl sample.jan1
  /\ sample.jan1 <> sample.jan2.
Proof. repeat split. discriminate. Qed.

(** C6 (amended): [parseTime] tries RFC 822, RFC 822 with numeric zone,
    RFC 1123, RFC 1123 with numeric zone, RFC 3339 and ["2006-1-2"] in this
    order, returns the time of the first layout that parses and fails with
    an error when none does.  In an item or entry whose date elements hold
    text, every element named [pubDate], [updated] or [date] is parsed this
    way: when all of them parse, the publish time of the article is that of
    the last of them (the zero time when there is none), and when one of
    them does not, the extraction of the article fails with an error. *)
Theorem publish_time_of_item
        {RT : Runtime} (atom : bool) (failure : option string)
        (parts : list Part) (closing : xml.Name) (rest : list xml.Token)
        (Hparts : Forall (wellFormedPart atom) parts)
        (Hclosing : isItemName (xml.Local_ closing) = true) :
  let toks := bodyTokens parts ++ xml.TEndElement closing :: rest in
  formats = ["02 Jan 06 15:04 MST"; "02 Jan 06 15:04 -0700";
             "Mon, 02 Jan 2006 15:04:05 MST";
             "Mon, 02 Jan 2006 15:04:05 -0700";
             "2006-01-02T15:04:05Z07:00"; "2006-1-2"]
  /\ (forall accum,
         parseTime accum
         = match List.find (fun f => isSome (timeParse f accum)) formats with
           | Some f =>
               match timeParse f accum with
               | Some tm => inl tm
               | None => inr (MkError ("Could not parse time: " +:+ accum))
               end
           | None => inr (MkError ("Could not parse time: " +:+ accum))
           end)
  /\ (Forall (fun c => exists tm, parseTime c = inl tm) (dateContents parts) ->
      exists art,
        extractLoop toks failure atom "" emptyArticle = ((art, None), rest)
        /\ PubDate art = timeOr time.zero (last (dateContents parts)))
  /\ (Exists (fun c => exists err, parseTime c = inr err) (dateContents parts) ->
      exists a err,
        (extractLoop toks failure atom "" emptyArticle).1 = (a, Some err)).
Proof.
  intros toks. split; [reflexivity|]. split; [apply parseTime_first|].
  apply (extractLoop_parts atom failure parts closing rest "" emptyArticle);
    assumption.
Qed.

Lemma publish_time_of_item_witness :
  exists art,
    extractLoop (RT := sample.feedServer) sample.twoDates None false ""
                emptyArticle
    = ((art, None), [])
    /\ PubDate art = sample.jan2.
Proof.
  destruct (publish_time_of_item
              (RT := sample.feedServer) false None
              [DateChild (xml.mkName "" "pubDate") [] "2020-1-1";
               DateChild (xml.mkName "" "date") [] "2020-1-2"]
              (xml.mkName "" "item") [])
    as (_ & _ & Hlast & _).
  - repeat constructor.
  - reflexivity.
  - exact (Hlast ltac:(repeat constructor; eexists; reflexivity)).
Defined.

(** ** Feed discovery *)

Section Discovery.

Context {RT : Runtime}.

Lemma namedLikeFeedLink_spec link :
  namedLikeFeedLink link = true
  <-> (exists hint,
          In hint ["rss"; "atom"; "feed"]
          /\ strings.Contains (strings.ToLower (links.Title link)) hint = true)
      \/ (exists suffix,
             In suffix ["atom.xml"; "rss.xml"; "feed.xml"; "feed=rss2";
                        "feed=atom"; "feed=rss"; "feed"]
             /\ (strings.ToLower (links.Url link) = suffix
                 \/ strings.HasSuffix (strings.ToLower (links.Url link)) suffix
                    = true)).
Proof.
  unfold namedLikeFeedLink.
  fold feedHints. fold urlSuffixes.
  destruct (existsb _ feedHints) eqn:Ehint.
  - split; [|reflexivity]. intros _. left.
    apply existsb_exists in Ehint as (hint & Hin & Hhint). eauto.
  - rewrite existsb_exists. split.
    + intros (suffix & Hin & Hsuf). right. exists suffix. split; [exact Hin|].
      apply orb_true_iff in Hsuf as [Heq|Hsuf]; [left|now right].
      now apply String.eqb_eq.
    + intros [(hint & Hin & Hhint)|(suffix & Hin & Hsuf)].
      * assert (existsb (fun cand => strings.Contains
                   (strings.ToLower (links.Title link)) cand) feedHints = true)
          as Hex by (apply existsb_exists; eauto).
        congruence.
      * exists suffix. split; [exact Hin|]. apply orb_true_iff.
        destruct Hsuf as [Heq|Hsuf]; [left|now right].
        now apply String.eqb_eq.
Qed.

Lemma validFeedContentType_spec ct :
  validFeedContentType ct = true
  <-> exists c pref,
      In c ct
      /\ In pref ["text/xml"; "text/plain"; "application/xml";
                  "application/rss+xml"; "application/atom+xml"]
      /\ strings.HasPrefix c pref = true.
Proof.
  unfold validFeedContentType. fold contentTypes. rewrite existsb_exists.
  split.
  - intros (c & Hc & Hpref).
    apply existsb_exists in Hpref as (pref & Hpref & Hhas). eauto.
  - intros (c & pref & Hc & Hpref & Hhas). exists c. split; [exact Hc|].
    apply existsb_exists. eauto.
Qed.

Lemma recognizedFeedFormat_spec rd :
  recognizedFeedFormat rd = true
  <-> exists first ring,
      firstStartElement rd = (inl first, ring)
      /\ In (xml.Local_ (xml.SName first)) ["rss"; "feed"; "RDF"].
Proof.
  unfold recognizedFeedFormat.
  destruct (firstStartElement rd) as [[first|err] ring].
  - destruct (parseFunctionForFeed first) as [pfn|] eqn:E.
    + split; [|reflexivity]. intros _. exists first, ring.
      split; [reflexivity|].
      destruct (in_dec String.string_dec (xml.Local_ (xml.SName first))
                       ["rss"; "feed"; "RDF"]) as [Hin|Hout];
        [exact Hin|].
      apply parseFunctionForFeed_None in Hout. congruence.
    + split; [discriminate|]. intros (first' & ring' & [= <- <-] & Hin).
      now apply parseFunctionForFeed_None in E.
  - split; [discriminate|]. now intros (first' & ring' & [=] & _).
Qed.

Lemma feedResponse_spec r :
  feedResponse r = true
  <-> exists resp,
      r = inl resp /\ StatusCode resp = 200
      /\ validFeedContentType (ContentType resp) = true
      /\ recognizedFeedFormat (BodyXML resp) = true.
Proof.
  destruct r as [resp|msg]; simpl.
  - rewrite !andb_true_iff, Z.eqb_eq. split.
    + intros [[H1 H2] H3]. now exists resp.
    + intros (resp' & [= <-] & H1 & H2 & H3). now repeat split.
  - split; [discriminate|]. now intros (resp & [=] & _).
Qed.

(** One probe, spelled out. *)
Lemma checkForFeedUrl_eq baseUrl link s :
  checkForFeedUrl baseUrl link s
  = match probeOf baseUrl link with
    | None => Some (("", false), s)
    | Some absU =>
        let '(r, w) := httpGet absU (world s) in
        Some (if feedResponse r then (links.Url link, true) else ("", false),
              mkSys w (fetched s ++ [absU]))
    end.
Proof.
  unfold checkForFeedUrl, probeOf, makeFeedRequest, bind, clientGet, ret,
    feedResponse.
  destruct (namedLikeFeedLink link); simpl; [|reflexivity].
  destruct (forceAbsolute baseUrl (links.Url link)) as [absU|err];
    [|reflexivity].
  destruct (httpGet absU (world s)) as [[resp|msg] w]; simpl; [|reflexivity].
  destruct (StatusCode resp =? 200); simpl; [|reflexivity].
  now destruct (validFeedContentType _ && recognizedFeedFormat _)%bool.
Qed.

Lemma checkForFeedUrl_fetched baseUrl link s r s' :
  checkForFeedUrl baseUrl link s = Some (r, s') ->
  fetched s' = fetched s ++ probesOf baseUrl [link].
Proof.
  rewrite checkForFeedUrl_eq. unfold probesOf. simpl.
  destruct (probeOf baseUrl link) as [absU|].
  - destruct (httpGet absU (world s)) as [x w]. now intros [= _ <-].
  - intros [= _ <-]. now rewrite app_nil_r.
Qed.

Lemma checkForFeedUrl_accepted baseUrl link s u s' :
  checkForFeedUrl baseUrl link s = Some ((u, true), s') ->
  u = links.Url link
  /\ namedLikeFeedLink link = true
  /\ exists absU,
      forceAbsolute baseUrl (links.Url link) = inl absU
      /\ feedResponse (httpGet absU (world s)).1 = true.
Proof.
  rewrite checkForFeedUrl_eq. unfold probeOf.
  destruct (namedLikeFeedLink link); [|discriminate].
  destruct (forceAbsolute baseUrl (links.Url link)) as [absU|err];
    [|discriminate].
  destruct (httpGet absU (world s)) as [x w] eqn:Eget. simpl.
  destruct (feedResponse x) eqn:E; [|discriminate].
  intros [= <- _]. repeat split. exists absU. now rewrite Eget.
Qed.

Lemma probesOf_app baseUrl l1 l2 :
  probesOf baseUrl (l1 ++ l2) = probesOf baseUrl l1 ++ probesOf baseUrl l2.
Proof. apply omap_app. Qed.

(** The links are probed in the order of the page, up to the first that is
    accepted; the links after it are not looked at. *)
Lemma probeLoop_spec baseUrl lnks s :
  exists r s',
    probeLoop baseUrl lnks s = Some (r, s')
    /\ match r with
       | Some u =>
           exists before link after s1,
             lnks = before ++ link :: after
             /\ probeLoop baseUrl before s = Some (None, s1)
             /\ checkForFeedUrl baseUrl link s1 = Some ((u, true), s')
             /\ fetched s' = fetched s ++ probesOf baseUrl (before ++ [link])
       | None => fetched s' = fetched s ++ probesOf baseUrl lnks
       end.
Proof.
  revert s. induction lnks as [|link rest IH]; intros s; simpl.
  - exists None, s. split; [reflexivity|]. now rewrite app_nil_r.
  - unfold bind.
    destruct (total_checkForFeedUrl baseUrl link s) as [[[u ok] s1] E].
    rewrite E. pose proof (checkForFeedUrl_fetched _ _ _ _ _ E) as Hlog.
    destruct ok.
    + exists (Some u), s1. split; [reflexivity|].
      exists [], link, rest, s. repeat split; assumption.
    + destruct (IH s1) as (r & s' & Eloop & Hr). exists r, s'.
      split; [exact Eloop|].
      assert (probeLoop baseUrl [link] s = Some (None, s1)) as Hone
          by (simpl; unfold bind; now rewrite E).
      destruct r as [u'|].
      * destruct Hr as (before & lnk & after & s2 & -> & Hbefore & Hacc & Hf).
        exists (link :: before), lnk, after, s2. repeat split.
        -- simpl. unfold bind. now rewrite E.
        -- exact Hacc.
        -- rewrite Hf, Hlog, <- app_assoc. f_equal.
           now rewrite <- probesOf_app.
      * rewrite Hr, Hlog, <- app_assoc. f_equal.
        now rewrite <- probesOf_app.
Qed.

End Discovery.

(** C7 (as stated, refuted): not every link that looks like a feed is
    probed.  The page has two such links, ["RSS Feed"] and ["Atom"]; the
    first is accepted, and the URL of the second is never fetched. *)
Lemma later_feed_link_not_probed :
  links.Extract (links.mkTokenizer sample.twoFeedLinks None)
  = Some ([links.mkLink "RSS Feed" "http://x/feed.xml";
           links.mkLink "Atom" "http://x/atom.xml"], None)
  /\ namedLikeFeedLink (links.mkLink "Atom" "http://x/atom.xml") = true
  /\ exists s',
      findFeedUrl (RT := sample.twoFeeds) sample.newRecord
                  (sample.start sample.twoFeeds tt)
      = Some (("http://x/feed.xml", None), s')
      /\ fetched s' = ["http://x/"; "http://x/feed.xml"]
      /\ ~ In "http://x/atom.xml" (fetched s').
Proof.
  split; [reflexivity|]. split; [reflexivity|].
  eexists. split; [vm_compute; reflexivity|]. split; [reflexivity|].
  simpl. intros [H|[H|[]]]; discriminate H.
Qed.

Section DiscoveryOrder.

Context {RT : Runtime}.

Lemma worldAfter_app urls1 urls2 w :
  worldAfter (urls1 ++ urls2) w = worldAfter urls2 (worldAfter urls1 w).
Proof. apply foldl_app. Qed.

Lemma probeAccepted_cons baseUrl w l before link :
  probeAccepted baseUrl w (l :: before) link
  = probeAccepted baseUrl (worldAfter (probesOf baseUrl [l]) w) before link.
Proof.
  unfold probeAccepted.
  change (l :: before) with ([l] ++ before).
  now rewrite probesOf_app, worldAfter_app.
Qed.

Lemma allRefused_cons baseUrl w l rest :
  allRefused baseUrl w (l :: rest)
  <-> probeAccepted baseUrl w [] l = false
      /\ allRefused baseUrl (worldAfter (probesOf baseUrl [l]) w) rest.
Proof.
  split.
  - intros Hall. split; [now apply (Hall [] l rest)|].
    intros before link after ->. rewrite <- probeAccepted_cons.
    now apply (Hall (l :: before) link after).
  - intros [Hl Hrest] before link after Heq.
    destruct before as [|l' before]; simpl in Heq; simplify_eq.
    + exact Hl.
    + rewrite probeAccepted_cons. now apply (Hrest before link after).
Qed.

(** One probe, in terms of the world. *)
Lemma checkForFeedUrl_probe baseUrl link w f :
  checkForFeedUrl baseUrl link (mkSys w f)
  = Some (if probeAccepted baseUrl w [] link then (links.Url link, true)
          else ("", false),
          mkSys (worldAfter (probesOf baseUrl [link]) w)
                (f ++ probesOf baseUrl [link])).
Proof.
  rewrite checkForFeedUrl_eq. unfold probeAccepted, probesOf. simpl.
  destruct (probeOf baseUrl link) as [absU|]; simpl.
  - now destruct (httpGet absU w) as [r w'].
  - now rewrite app_nil_r.
Qed.

Lemma probeLoop_refused baseUrl lnks w f :
  allRefused baseUrl w lnks ->
  probeLoop baseUrl lnks (mkSys w f)
  = Some (None, mkSys (worldAfter (probesOf baseUrl lnks) w)
                      (f ++ probesOf baseUrl lnks)).
Proof.
  revert w f. induction lnks as [|l lnks IH]; intros w f Hall; simpl.
  - unfold ret. now rewrite app_nil_r.
  - apply allRefused_cons in Hall as [Hl Hall].
    unfold bind. rewrite checkForFeedUrl_probe, Hl.
    rewrite (IH _ _ Hall), <- app_assoc.
    now rewrite <- worldAfter_app, <- probesOf_app.
Qed.

Lemma probeLoop_accepted baseUrl before link after w f :
  allRefused baseUrl w before ->
  probeAccepted baseUrl w before link = true ->
  probeLoop baseUrl (before ++ link :: after) (mkSys w f)
  = Some (Some (links.Url link),
          mkSys (worldAfter (probesOf baseUrl (before ++ [link])) w)
                (f ++ probesOf baseUrl (before ++ [link]))).
Proof.
  revert w f. induction before as [|l before IH]; intros w f Hall Hacc; simpl.
  - unfold bind. now rewrite checkForFeedUrl_probe, Hacc.
  - apply allRefused_cons in Hall as [Hl Hall].
    rewrite probeAccepted_cons in Hacc.
    unfold bind. rewrite checkForFeedUrl_probe, Hl.
    rewrite (IH _ _ Hall Hacc), <- app_assoc.
    now rewrite <- worldAfter_app, <- probesOf_app.
Qed.

(** Either a link is the first to be accepted, or none is. *)
Lemma first_accepted_or_none baseUrl w lnks :
  allRefused baseUrl w lnks
  \/ exists before link after,
      lnks = before ++ link :: after
      /\ allRefused baseUrl w before
      /\ probeAccepted baseUrl w before link = true.
Proof.
  revert w. induction lnks as [|l lnks IH]; intros w.
  - left. intros before link after Heq. now destruct before.
  - destruct (probeAccepted baseUrl w [] l) eqn:Hl.
    + right. exists [], l, lnks. split; [reflexivity|]. split; [|exact Hl].
      intros before link after Heq. now destruct before.
    + destruct (IH (worldAfter (probesOf baseUrl [l]) w))
        as [Hall|(before & link & after & -> & Hall & Hacc)].
      * left. now apply allRefused_cons.
      * right. exists (l :: before), link, after.
        split; [reflexivity|]. split; [now apply allRefused_cons|].
        now rewrite probeAccepted_cons.
Qed.

End DiscoveryOrder.

(** C7 (amended): a link of the page looks like a feed exactly when its
    lower-cased title contains ["rss"], ["atom"] or ["feed"], or its
    lower-cased URL equals or ends with one of [atom.xml], [rss.xml],
    [feed.xml], [feed=rss2], [feed=atom], [feed=rss], [feed].  Only such
    links are probed, in the order of the page, each with one fetch of its
    URL made absolute, and a probe is accepted exactly when the response
    has status 200, a content type that begins with one of [text/xml],
    [text/plain], [application/xml], [application/rss+xml],
    [application/atom+xml], and a body whose first start element is [rss],
    [feed] or [RDF].  The first link whose probe is accepted ends
    discovery: its URL, as written on the page, is the feed URL, the
    probes up to it are the only fetches made after the page, and the
    links after it are not probed.  When no probe is accepted, all links
    that look like feeds have been probed and discovery fails with a
    transient error.  One of the two is always the case. *)
Theorem discovery_probes
        {RT : Runtime} (ld : LinkDetails) (s : Sys) (resp : Response) (w : W)
        (lnks : list links.Link) (err : option error)
        (Hget : httpGet (BaseUrl ld) (world s) = (inl resp, w))
        (Hok : StatusCode resp = 200)
        (Hpage : links.Extract (BodyHTML resp) = Some (lnks, err))
        (Hlinks : err = None \/ lnks <> []) :
  let base := BaseUrl ld in
  let after probed :=
    mkSys (worldAfter (probesOf base probed) w)
          (fetched s ++ base :: probesOf base probed) in
  (forall link,
      namedLikeFeedLink link = true
      <-> (exists hint,
              In hint ["rss"; "atom"; "feed"]
              /\ strings.Contains (strings.ToLower (links.Title link)) hint
                 = true)
          \/ (exists suffix,
                 In suffix ["atom.xml"; "rss.xml"; "feed.xml"; "feed=rss2";
                            "feed=atom"; "feed=rss"; "feed"]
                 /\ (strings.ToLower (links.Url link) = suffix
                     \/ strings.HasSuffix (strings.ToLower (links.Url link))
                                          suffix = true)))
  /\ (forall r,
         feedResponse r = true
         <-> exists resp,
             r = inl resp /\ StatusCode resp = 200
             /\ (exists c pref,
                    In c (ContentType resp)
                    /\ In pref ["text/xml"; "text/plain"; "application/xml";
                                "application/rss+xml"; "application/atom+xml"]
                    /\ strings.HasPrefix c pref = true)
             /\ (exists first ring,
                    firstStartElement (BodyXML resp) = (inl first, ring)
                    /\ In (xml.Local_ (xml.SName first)) ["rss"; "feed"; "RDF"]))
  /\ (forall before link rest,
         lnks = before ++ link :: rest ->
         allRefused base w before ->
         probeAccepted base w before link = true ->
         findFeedUrl ld s
         = Some ((links.Url link, None), after (before ++ [link])))
  /\ (allRefused base w lnks ->
      exists e,
        findFeedUrl ld s = Some (("", Some e), after lnks)
        /\ IsTransient (Some e) = true)
  /\ (allRefused base w lnks
      \/ exists before link rest,
          lnks = before ++ link :: rest
          /\ allRefused base w before
          /\ probeAccepted base w before link = true).
Proof.
  intros base after. split; [apply namedLikeFeedLink_spec|]. split.
  { intros r. rewrite feedResponse_spec.
    split; intros (resp' & -> & H200 & Hct & Hroot); exists resp';
      (split; [reflexivity|]); (split; [exact H200|]).
    - now rewrite <- validFeedContentType_spec, <- recognizedFeedFormat_spec.
    - now rewrite validFeedContentType_spec, recognizedFeedFormat_spec. }
  assert (findFeedUrl ld s
          = match probeLoop base lnks (mkSys w (fetched s ++ [base])) with
            | Some (Some feedUrl, s') => Some ((feedUrl, None), s')
            | Some (None, s') =>
                Some (("", Some (MkTransientError
                                   ("findFeedUrl: No link found in main page for "
                                      +:+ LTitle ld))), s')
            | None => None
            end) as E.
  { unfold findFeedUrl, bind, clientGet, liftOption, ret. rewrite Hget. simpl.
    rewrite Hok. simpl. rewrite Hpage. fold base.
    destruct err as [e|]; [destruct lnks as [|l lnks]|].
    - now destruct Hlinks.
    - now destruct (probeLoop _ _ _) as [[[u|] s1]|].
    - now destruct (probeLoop _ _ _) as [[[u|] s1]|]. }
  split; [|split; [|apply first_accepted_or_none]].
  - intros before link rest -> Hall Hacc. rewrite E.
    rewrite (probeLoop_accepted base before link rest w _ Hall Hacc).
    unfold after. now rewrite <- app_assoc.
  - intros Hall. rewrite E, (probeLoop_refused base lnks w _ Hall).
    eexists. unfold after. rewrite <- app_assoc. split; reflexivity.
Qed.

Lemma discovery_probes_witness :
  findFeedUrl (RT := sample.secondIsFeed) sample.newRecord
              (sample.start sample.secondIsFeed tt)
  = Some (("http://x/atom.xml", None),
          mkSys (RT := sample.secondIsFeed) tt
                ["http://x/"; "http://x/rss.xml"; "http://x/atom.xml"]).
Proof.
  refine (proj1 (proj2 (proj2 (discovery_probes
              (RT := sample.secondIsFeed) sample.newRecord
              (sample.start sample.secondIsFeed tt)
              (sample.ok "text/html" sample.fourLinks [] None)
              tt
              [links.mkLink "About" "http://x/about";
               links.mkLink "News" "http://x/rss.xml";
               links.mkLink "Atom" "http://x/atom.xml";
               links.mkLink "Feed" "http://x/feed"]
              None eq_refl eq_refl eq_refl (or_introl eq_refl))))
            [links.mkLink "About" "http://x/about";
             links.mkLink "News" "http://x/rss.xml"]
            (links.mkLink "Atom" "http://x/atom.xml")
            [links.mkLink "Feed" "http://x/feed"]
            eq_refl _ eq_refl).
  intros before link rest Heq.
  destruct before as [|l1 [|l2 [|l3 before]]]; simpl in Heq; simplify_eq;
    reflexivity.
Defined.

(** ** The feed URL of a record that has a feed *)

Section FeedUrl.

Context {RT : Runtime}.

(** The feed URL that discovery returns is the URL of a link of the page
    that looks like a feed. *)
Lemma findFeedUrl_found ld s u s' :
  findFeedUrl ld s = Some ((u, None), s') ->
  exists w resp w' lnks err link,
    httpGet (BaseUrl ld) w = (inl resp, w')
    /\ links.Extract (BodyHTML resp) = Some (lnks, err)
    /\ In link lnks
    /\ namedLikeFeedLink link = true
    /\ u = links.Url link.
Proof.
  unfold findFeedUrl, bind, clientGet, liftOption, ret.
  destruct (httpGet (BaseUrl ld) (world s)) as [[resp|msg] w'] eqn:Eget;
    simpl; [|discriminate].
  destruct (StatusCode resp =? 200);
    [|destruct (500 <=? StatusCode resp); discriminate].
  destruct (links.Extract (BodyHTML resp)) as [[lnks err]|] eqn:Epage;
    [|discriminate].
  set (s0 := mkSys w' (fetched s ++ [BaseUrl ld])).
  assert (match probeLoop (BaseUrl ld) lnks s0 with
          | Some (Some feedUrl, s1) => Some ((feedUrl, @None error), s1)
          | Some (None, s1) =>
              Some (("", Some (MkTransientError
                                 ("findFeedUrl: No link found in main page for "
                                    +:+ LTitle ld))), s1)
          | None => None
          end = Some ((u, None), s') ->
          exists link, In link lnks /\ namedLikeFeedLink link = true
                       /\ u = links.Url link) as Hloop.
  { destruct (probeLoop_spec (BaseUrl ld) lnks s0) as (r & s1 & -> & Hr).
    destruct r as [u'|]; [|discriminate]. intros [= -> ->].
    destruct Hr as (before & link & after & s2 & -> & _ & Hacc & _).
    apply checkForFeedUrl_accepted in Hacc as (-> & Hnamed & _).
    exists link. split; [|now split].
    apply in_or_app. right. now left. }
  intros H.
  assert (exists link, In link lnks /\ namedLikeFeedLink link = true
                       /\ u = links.Url link) as (link & Hin & Hnamed & ->).
  { destruct err as [e|]; [destruct lnks as [|l lnks]|].
    - discriminate H.
    - apply Hloop. destruct (probeLoop _ _ s0) as [[[?|] ?]|]; exact H.
    - apply Hloop. destruct (probeLoop _ _ s0) as [[[?|] ?]|]; exact H. }
  now exists (world s), resp, w', lnks, err, link.
Qed.

Lemma checkLinkBody_hasFeedUrl ld s ld' again s' :
  feedLinksNamed (BaseUrl ld) ->
  hasFeedUrl ld ->
  checkLinkBody ld s = Some ((ld', again), s') ->
  hasFeedUrl ld' /\ BaseUrl ld' = BaseUrl ld.
Proof.
  intros Hnamed Hinv. unfold checkLinkBody, bind, ret.
  destruct (State ld) eqn:Hstate.
  - destruct (findFeedUrl ld s) as [[[feedUrl [e|]] s1]|] eqn:Efind;
      [| |discriminate].
    + destruct (IsTransient _); intros [= <- _ _]; now split.
    + intros [= <- _ _]. split; [|reflexivity]. intros _. simpl.
      apply findFeedUrl_found in Efind
        as (w & resp & w' & lnks & err & link & Hget & Hpage & Hin & Hlike & ->).
      now apply (Hnamed w resp w' lnks err link).
  - intros [= <- _ _]. now split.
  - destruct (String.eqb_spec (FeedUrl ld) ""); intros [= <- _ _];
      (split; [|reflexivity]); [discriminate|]. now intros _.
  - destruct (checkForArticles ld s) as [[lk s1]|] eqn:E; [|discriminate].
    intros [= <- _ _].
    pose proof (checkForArticles_frame _ _ _ _ E) as (Hbase & Hfeed & _).
    split; [|exact Hbase]. intros _. rewrite Hfeed. now apply Hinv.
  - intros [= <- _ _]. now split.
Qed.

(** Where every feed link of the page has a URL, a pass of [checkLink]
    gives a record in state HasFeed a feed URL. *)
Lemma checkLinkLoop_hasFeedUrl fuel ld s ld' s' :
  feedLinksNamed (BaseUrl ld) ->
  hasFeedUrl ld ->
  checkLinkLoop fuel ld s = Some (ld', s') ->
  hasFeedUrl ld'.
Proof.
  revert ld s. induction fuel as [|fuel IH]; intros ld s Hnamed Hinv; simpl;
    [discriminate|].
  unfold bind.
  destruct (checkLinkBody ld s) as [[[ld1 again] s1]|] eqn:E; [|discriminate].
  apply checkLinkBody_hasFeedUrl in E as [Hinv1 Hbase]; [|assumption..].
  destruct again.
  - apply IH; [now rewrite Hbase|exact Hinv1].
  - now intros [= <- _].
Qed.

End FeedUrl.

(** C1 (where the code departs from it): a new record whose page is an Atom
    feed that links to itself with [href=""] ends a pass of [checkLink] in
    state HasFeed with an empty feed URL: [links.Extract] delivers the link
    with the empty URL, its type makes it look like a feed, the empty
    reference resolves to the page itself, which is served as a feed, and
    [checkForFeedUrl] returns the URL as written. *)
Theorem HasFeed_with_empty_FeedUrl :
  links.Extract (links.mkTokenizer sample.selfLinkPage None)
  = Some ([links.mkLink "application/atom+xml" ""], None)
  /\ hasFeedUrl sample.newRecord
  /\ exists ld' s',
      checkLink (RT := sample.selfLink) sample.newRecord
                (sample.start sample.selfLink tt)
      = Some (ld', s')
      /\ State ld' = LinkHasFeed
      /\ FeedUrl ld' = ""
      /\ ~ hasFeedUrl ld'.
Proof.
  split; [reflexivity|]. split; [discriminate|].
  eexists _, _. split; [vm_compute; reflexivity|].
  split; [reflexivity|]. split; [reflexivity|].
  intros H. now apply H.
Qed.

(** * Further properties of the code *)

(** ** Reading articles, continued *)

Section ReadingMore.

Lemma filter_after_nil (T : time.Time) (arts : list Article) :
  (forall a, In a arts -> PubDate a <= T) ->
  List.filter (fun a => T <? PubDate a) arts = [].
Proof.
  induction arts as [|a arts IH]; intros Hle; simpl; [reflexivity|].
  replace (T <? PubDate a) with false
    by (symmetry; apply Z.ltb_ge, Hle; now left).
  apply IH. intros b Hb. apply Hle. now right.
Qed.

Lemma foldr_max_ge (l : list Z) (z x : Z) : In x l -> x <= foldr Z.max z l.
Proof.
  induction l as [|y l IH]; simpl; [intros []|].
  intros [->|Hx]; [lia|]. specialize (IH Hx). lia.
Qed.

Lemma MarkAllAsRead_LastRead (ld : LinkDetails) :
  LastRead (MarkAllAsRead ld)
  = Z.max (LastRead ld) (foldr Z.max 0 (map PubDate (Articles ld))).
Proof.
  unfold MarkAllAsRead. rewrite latestLoop_zero. unfold time.After.
  destruct (Z.ltb_spec (LastRead ld)
                       (foldr Z.max 0 (map PubDate (Articles ld)))); simpl; lia.
Qed.

Lemma ascending_tail (a : Article) (arts : list Article) :
  ascending (a :: arts) ->
  ascending arts /\ forall b, In b arts -> PubDate a <= PubDate b.
Proof.
  intros Hasc. split.
  - intros i j x y Hij Hx Hy. now apply (Hasc (S i) (S j) x y); [lia|..].
  - intros b Hb. apply list_elem_of_In, list_elem_of_lookup in Hb as [j Hj].
    now apply (Hasc 0%nat (S j) a b); [lia|..].
Qed.

Lemma filter_after_all (T : time.Time) (arts : list Article) :
  (forall a, In a arts -> T < PubDate a) ->
  List.filter (fun a => T <? PubDate a) arts = arts.
Proof.
  induction arts as [|a arts IH]; intros Hlt; simpl; [reflexivity|].
  replace (T <? PubDate a) with true
    by (symmetry; apply Z.ltb_lt, Hlt; now left).
  f_equal. apply IH. intros b Hb. apply Hlt. now right.
Qed.

End ReadingMore.

(** X1: once [MarkAllAsRead] has run, [UnreadArticles] returns nothing;
    [MarkAllAsRead] never moves [LastRead] back, and running it a second
    time changes nothing. *)
Theorem MarkAllAsRead_leaves_nothing_unread (ld : LinkDetails) :
  UnreadArticles (MarkAllAsRead ld) = []
  /\ LastRead ld <= LastRead (MarkAllAsRead ld)
  /\ MarkAllAsRead (MarkAllAsRead ld) = MarkAllAsRead ld.
Proof.
  assert (Articles (MarkAllAsRead ld) = Articles ld) as Harts
      by (unfold MarkAllAsRead; now destruct (time.After _ _)).
  pose proof (MarkAllAsRead_LastRead ld) as Hread.
  split; [|split].
  - unfold UnreadArticles. rewrite unreadLoop_filter, Harts. simpl.
    apply filter_after_nil. intros a Ha. rewrite Hread.
    assert (PubDate a <= foldr Z.max 0 (map PubDate (Articles ld)))
      by (apply foldr_max_ge, in_map, Ha).
    lia.
  - lia.
  - set (ld' := MarkAllAsRead ld) in *.
    unfold MarkAllAsRead at 1. rewrite latestLoop_zero, Harts.
    unfold time.After.
    replace (LastRead ld' <? foldr Z.max 0 (map PubDate (Articles ld)))
      with false by (symmetry; apply Z.ltb_ge; lia).
    reflexivity.
Qed.

(** X2: when the articles of a record are in ascending order of publish
    time, the unread ones are the end of the list: [UnreadArticles] drops
    the articles up to some index and returns all the later ones. *)
Theorem UnreadArticles_is_a_suffix
        (ld : LinkDetails) (Hasc : ascending (Articles ld)) :
  exists k : nat,
    UnreadArticles ld = drop k (Articles ld)
    /\ (forall a, In a (take k (Articles ld)) -> PubDate a <= LastRead ld)
    /\ (forall a, In a (drop k (Articles ld)) -> LastRead ld < PubDate a).
Proof.
  unfold UnreadArticles. rewrite unreadLoop_filter. simpl.
  generalize dependent (Articles ld). generalize (LastRead ld). intros T arts.
  induction arts as [|a arts IH]; intros Hasc.
  - exists 0%nat. repeat split; intros a [].
  - apply ascending_tail in Hasc as [Htail Hfirst]. simpl.
    destruct (Z.ltb_spec T (PubDate a)) as [Hlt|Hge].
    + exists 0%nat. simpl.
      assert (forall b, In b arts -> T < PubDate b) as Hall
          by (intros b Hb; specialize (Hfirst b Hb); lia).
      rewrite filter_after_all by exact Hall.
      repeat split; [intros b []|]. intros b [<-|Hb]; [exact Hlt|now apply Hall].
    + destruct (IH Htail) as (k & Hk & Htake & Hdrop).
      exists (S k). simpl. repeat split; [exact Hk| |exact Hdrop].
      intros b [<-|Hb]; [exact Hge|now apply Htake].
Qed.

Lemma UnreadArticles_is_a_suffix_witness :
  exists k : nat,
    UnreadArticles (sample.around 100) = drop k (Articles (sample.around 100)).
Proof.
  assert (ascending (Articles (sample.around 100))) as Hasc.
  { intros i j a b Hij Ha Hb.
    destruct i as [|[|[|[|i]]]]; simpl in Ha; try discriminate Ha;
      destruct j as [|[|[|[|j]]]]; simpl in Hb; try discriminate Hb;
      injection Ha as <-; injection Hb as <-; simpl; lia. }
  destruct (UnreadArticles_is_a_suffix (sample.around 100) Hasc)
    as (k & Hk & _).
  now exists k.
Defined.

(** ** [sort.Interface] on an [ArticleArray] *)

Section SortInterface.

Lemma Swap_lookup (aa aa' : list Article) (i j k : nat) :
  Swap aa i j = Some aa' ->
  aa' !! k = aa !! (if decide (k = i) then j else if decide (k = j) then i else k).
Proof.
  unfold Swap.
  destruct (aa !! i) as [a|] eqn:Ha; [|discriminate].
  destruct (aa !! j) as [b|] eqn:Hb; [|discriminate].
  intros [= <-].
  apply lookup_lt_Some in Ha as Hi. apply lookup_lt_Some in Hb as Hj.
  destruct (decide (k = j)) as [->|Hkj].
  - rewrite list_lookup_insert_eq by (rewrite length_insert; exact Hj).
    destruct (decide (j = i)) as [->|]; [now rewrite Ha|now rewrite Ha].
  - rewrite list_lookup_insert_ne by congruence.
    destruct (decide (k = i)) as [->|Hki].
    + rewrite list_lookup_insert_eq by exact Hi. now rewrite Hb.
    + now rewrite list_lookup_insert_ne by congruence.
Qed.

End SortInterface.

(** X3: [Swap] exchanges the articles at two indices and touches no other;
    it keeps the length and the elements, and swapping the same two
    indices again gives the array back.  It panics exactly when an index is
    out of range. *)
Theorem Swap_exchanges (aa : list Article) (i j : nat) :
  (Swap aa i j = None <-> (Len aa <= i \/ Len aa <= j)%nat)
  /\ forall aa',
      Swap aa i j = Some aa' ->
      aa' !! i = aa !! j
      /\ aa' !! j = aa !! i
      /\ (forall k, k <> i -> k <> j -> aa' !! k = aa !! k)
      /\ Len aa' = Len aa
      /\ aa' ≡ₚ aa
      /\ Swap aa' i j = Some aa.
Proof.
  split.
  - unfold Swap, Len. split.
    + destruct (aa !! i) as [a|] eqn:Ha;
        [|apply lookup_ge_None in Ha; now left].
      destruct (aa !! j) as [b|] eqn:Hb; [discriminate|].
      apply lookup_ge_None in Hb. now right.
    + intros [H|H]; apply lookup_ge_None in H; rewrite H; [reflexivity|].
      now destruct (aa !! i).
  - intros aa' Hswap.
    pose proof (fun k => Swap_lookup aa aa' i j k Hswap) as Hlook.
    assert (aa' !! i = aa !! j) as Hi
        by (rewrite Hlook; now destruct (decide (i = i))).
    assert (aa' !! j = aa !! i) as Hj.
    { rewrite Hlook. destruct (decide (j = i)) as [->|]; [reflexivity|].
      now destruct (decide (j = j)). }
    assert (Len aa' = Len aa) as Hlen.
    { revert Hswap. unfold Swap, Len.
      destruct (aa !! i); [|discriminate]. destruct (aa !! j); [|discriminate].
      intros [= <-]. now rewrite !length_insert. }
    split; [exact Hi|]. split; [exact Hj|]. split.
    { intros k Hki Hkj. rewrite Hlook.
      destruct (decide (k = i)); [congruence|].
      now destruct (decide (k = j)). }
    split; [exact Hlen|]. split.
    + apply Permutation_inj. split; [exact Hlen|].
      exists (fun k => if decide (k = i) then j
                       else if decide (k = j) then i else k).
      split; [|exact Hlook].
      intros x y. repeat case_decide; congruence.
    + unfold Swap. rewrite Hi, Hj.
      destruct (aa !! j) as [b|] eqn:Hb;
        [|revert Hswap; unfold Swap; rewrite Hb; now destruct (aa !! i)].
      destruct (aa !! i) as [a|] eqn:Ha;
        [|revert Hswap; unfold Swap; now rewrite Ha].
      f_equal. apply list_eq. intros k.
      apply lookup_lt_Some in Ha as Hia. apply lookup_lt_Some in Hb as Hjb.
      unfold Len in Hlen.
      destruct (decide (k = j)) as [->|Hkj].
      * rewrite list_lookup_insert_eq
          by (rewrite length_insert, Hlen; exact Hjb).
        now rewrite Hb.
      * rewrite list_lookup_insert_ne by congruence.
        destruct (decide (k = i)) as [->|Hki].
        -- rewrite list_lookup_insert_eq by (rewrite Hlen; exact Hia).
           now rewrite Ha.
        -- rewrite list_lookup_insert_ne by congruence.
           rewrite Hlook. destruct (decide (k = i)); [congruence|].
           now destruct (decide (k = j)).
Qed.

(** X4: on indices in range, [Less] is a strict weak order, which is what
    [sort.Sort] asks of it: no article is less than itself, [Less] is
    transitive, and so is being not less in either direction.  It panics
    exactly when an index is out of range. *)
Theorem Less_strict_weak_order (aa : list Article) :
  (forall i j, Less aa i j = None <-> (Len aa <= i \/ Len aa <= j)%nat)
  /\ (forall i, (i < Len aa)%nat -> Less aa i i = Some false)
  /\ (forall i j k,
         Less aa i j = Some true -> Less aa j k = Some true ->
         Less aa i k = Some true)
  /\ (forall i j k,
         Less aa i j = Some false -> Less aa j i = Some false ->
         Less aa j k = Some false -> Less aa k j = Some false ->
         Less aa i k = Some false /\ Less aa k i = Some false).
Proof.
  unfold Less, Len, time.Before. split; [|split; [|split]].
  - intros i j. split.
    + destruct (aa !! i) as [a|] eqn:Ha;
        [|apply lookup_ge_None in Ha; now left].
      destruct (aa !! j) as [b|] eqn:Hb; [discriminate|].
      apply lookup_ge_None in Hb. now right.
    + intros [H|H]; apply lookup_ge_None in H; rewrite H; [reflexivity|].
      now destruct (aa !! i).
  - intros i Hi. destruct (lookup_lt_is_Some_2 aa i Hi) as [a ->].
    now rewrite Z.ltb_irrefl.
  - intros i j k.
    destruct (aa !! i) as [a|]; [|discriminate].
    destruct (aa !! j) as [b|]; [|discriminate].
    destruct (aa !! k) as [c|]; [|discriminate].
    intros [= H1] [= H2]. f_equal.
    apply Z.ltb_lt in H1, H2. apply Z.ltb_lt. lia.
  - intros i j k.
    destruct (aa !! i) as [a|]; [|discriminate].
    destruct (aa !! j) as [b|]; [|discriminate].
    destruct (aa !! k) as [c|]; [|discriminate].
    intros [= H1] [= H2] [= H3] [= H4].
    apply Z.ltb_ge in H1, H2, H3, H4.
    split; f_equal; apply Z.ltb_ge; lia.
Qed.

(** ** The link store, continued *)

Section StoreMore.

Lemma heap_fresh (heap : Heap) (p : ptr) (ld : LinkDetails) :
  heap !! p = Some ld -> p <> fresh (dom heap).
Proof.
  intros Hp ->. apply (is_fresh (dom heap)). apply elem_of_dom. eauto.
Qed.

Lemma InterestedIn_keeps_records url title ls (heap : Heap) p ld :
  heap !! p = Some ld -> (InterestedIn url title (ls, heap)).2 !! p = Some ld.
Proof.
  intros Hp. unfold InterestedIn. destruct (Links ls !! url); simpl; [exact Hp|].
  rewrite lookup_insert_ne; [exact Hp|]. intros E. symmetry in E. revert E.
  now apply heap_fresh with ld.
Qed.

Lemma InterestedIn_storeOK url title st :
  storeOK st -> storeOK (InterestedIn url title st).
Proof.
  destruct st as [ls heap]. intros [Hlinks Hnoted]. unfold InterestedIn.
  destruct (Links ls !! url) as [p|] eqn:Hurl; split; simpl.
  - exact Hlinks.
  - intros base Hin. apply in_app_or in Hin as [Hin|[<-|[]]];
      [now apply Hnoted|]. simpl in *. rewrite Hurl. eauto.
  - intros u q Hu. destruct (decide (u = url)) as [->|Hne].
    + rewrite lookup_insert_eq in Hu. injection Hu as <-.
      rewrite lookup_insert_eq. eauto.
    + rewrite lookup_insert_ne in Hu by congruence.
      destruct (Hlinks u q Hu) as (ld & Hq & Hbase). exists ld.
      split; [|exact Hbase].
      rewrite lookup_insert_ne; [exact Hq|]. intros E. symmetry in E. revert E.
      now apply heap_fresh with ld.
  - intros base Hin. apply in_app_or in Hin as [Hin|[<-|[]]].
    + destruct (decide (base = url)) as [->|Hne].
      * rewrite lookup_insert_eq. eauto.
      * rewrite lookup_insert_ne by congruence. now apply Hnoted.
    + rewrite lookup_insert_eq. eauto.
Qed.

Lemma find_snoc {A} (f : A -> bool) (l : list A) (x : A) :
  List.find f (l ++ [x])
  = match List.find f l with
    | Some y => Some y
    | None => if f x then Some x else None
    end.
Proof.
  induction l as [|y l IH]; simpl; [reflexivity|].
  now destruct (f y).
Qed.

End StoreMore.

(** X5: [InterestedIn] keeps the store well formed: every key of [Links]
    still leads to a record with that [BaseUrl] and every noted URL is a
    key, so [CheckForUpdates] sends no nil pointer and two different URLs
    never share a record.  It changes no record that exists, and the URL
    passed is a key afterwards. *)
Theorem InterestedIn_keeps_store
        (url title : string) (st : LinkStore * Heap) (Hok : storeOK st) :
  let st' := InterestedIn url title st in
  storeOK st'
  /\ (forall p ld, st.2 !! p = Some ld -> st'.2 !! p = Some ld)
  /\ (forall u, u <> url -> Links st'.1 !! u = Links st.1 !! u)
  /\ (exists p ld, Links st'.1 !! url = Some p /\ st'.2 !! p = Some ld
                   /\ BaseUrl ld = url)
  /\ Forall is_Some (linkInSends st'.1)
  /\ (forall u1 u2 p,
         Links st'.1 !! u1 = Some p -> Links st'.1 !! u2 = Some p -> u1 = u2).
Proof.
  intros st'. pose proof (InterestedIn_storeOK url title st Hok) as Hok'.
  fold st' in Hok'. split; [exact Hok'|]. split; [|split; [|split; [|split]]].
  - destruct st as [ls heap]. intros p ld.
    apply InterestedIn_keeps_records.
  - destruct st as [ls heap]. intros u Hne. subst st'. unfold InterestedIn.
    destruct (Links ls !! url); simpl; [reflexivity|].
    now rewrite lookup_insert_ne by congruence.
  - destruct Hok' as [Hlinks Hnoted].
    assert (In url (noted st'.1)) as Hin.
    { destruct st as [ls heap]. subst st'. unfold InterestedIn.
      destruct (Links ls !! url); simpl; apply in_or_app; right; now left. }
    destruct (Hnoted url Hin) as [p Hp].
    destruct (Hlinks url p Hp) as (ld & Hld & Hbase). now exists p, ld.
  - destruct Hok' as [_ Hnoted]. unfold linkInSends.
    apply List.Forall_forall. intros o Ho.
    apply in_map_iff in Ho as (base & <- & Hbase). now apply Hnoted.
  - destruct Hok' as [Hlinks _]. intros u1 u2 p H1 H2.
    destruct (Hlinks u1 p H1) as (ld1 & Hp1 & <-).
    destruct (Hlinks u2 p H2) as (ld2 & Hp2 & <-). congruence.
Qed.

Lemma InterestedIn_keeps_store_witness :
  storeOK (InterestedIn "http://y/" "y" sample.knownStore).
Proof.
  assert (storeOK sample.knownStore) as Hok.
  { split; simpl.
    - intros url p Hurl.
      apply lookup_singleton_Some in Hurl as [<- <-].
      eexists. split; [apply lookup_singleton_eq|reflexivity].
    - intros base []. }
  exact (proj1 (InterestedIn_keeps_store "http://y/" "y" sample.knownStore Hok)).
Defined.

(** X6: registering the links of the input in a new store, as [main] does,
    notes every URL in order and gives each URL one record, in state New
    and with no articles, whose title is that of the first link with that
    URL; a URL that is not among the links is no key. *)
Theorem register_in_new_store (lnks : list links.Link) :
  let st := main.register lnks (newStore, ∅) in
  storeOK st
  /\ noted st.1 = map links.Url lnks
  /\ forall url,
      match List.find (fun l => String.eqb (links.Url l) url) lnks with
      | Some l =>
          exists p, Links st.1 !! url = Some p
                    /\ st.2 !! p = Some (freshRecord url (links.Title l))
      | None => Links st.1 !! url = None
      end.
Proof.
  unfold main.register.
  induction lnks as [|l lnks IH] using rev_ind.
  - simpl. split; [|split; [reflexivity|]].
    + split; simpl; [|intros base []].
      intros url p Hurl. now rewrite lookup_empty in Hurl.
    + intros url. apply lookup_empty.
  - rewrite foldl_snoc.
    set (st := foldl _ _ lnks) in *. destruct IH as (Hok & Hnoted & Hfind).
    split; [now apply InterestedIn_storeOK|]. split.
    + destruct st as [ls heap]. unfold InterestedIn. simpl in Hnoted.
      rewrite map_app. simpl.
      destruct (Links ls !! links.Url l); simpl; now rewrite Hnoted.
    + intros url. rewrite find_snoc. specialize (Hfind url).
      destruct st as [ls heap]. simpl in *.
      destruct (List.find _ lnks) as [l0|] eqn:Efind.
      * destruct Hfind as (p & Hp & Hrec). exists p.
        split; [|now apply InterestedIn_keeps_records].
        unfold InterestedIn.
        destruct (Links ls !! links.Url l) eqn:Hl; simpl; [exact Hp|].
        rewrite lookup_insert_ne; [exact Hp|]. congruence.
      * destruct (String.eqb_spec (links.Url l) url) as [<-|Hne].
        -- unfold InterestedIn. rewrite Hfind. simpl.
           exists (fresh (dom heap)). now rewrite !lookup_insert_eq.
        -- unfold InterestedIn.
           destruct (Links ls !! links.Url l); simpl; [exact Hfind|].
           now rewrite lookup_insert_ne by congruence.
Qed.

(** ** The life cycle of a link, continued *)

Section LifeCycleMore.

Context {RT : Runtime}.

(** What one iteration of the loop of [checkLink] can do to a record. *)
Lemma checkLinkBody_step ld s ld1 again s1 :
  checkLinkBody ld s = Some ((ld1, again), s1) ->
  BaseUrl ld1 = BaseUrl ld /\ LTitle ld1 = LTitle ld
  /\ LastRead ld1 = LastRead ld
  /\ (State ld1 = LinkIgnore -> State ld = LinkIgnore)
  /\ (LastError ld1 = LastError ld
      \/ (again = false /\ State ld1 = LinkTransientError
          /\ is_Some (LastError ld1)))
  /\ (if again
      then State ld <> LinkIgnore
      else State ld1 <> LinkIsNew
           /\ (State ld1 = LinkTransientError -> is_Some (LastError ld1))).
Proof.
  unfold checkLinkBody, bind, ret. destruct (State ld) eqn:Hstate.
  - destruct (findFeedUrl ld s) as [[[feedUrl [e|]] s2]|]; [| |discriminate].
    + destruct (IsTransient _); intros [= <- <- _]; simpl;
        repeat split; try discriminate; eauto.
    + intros [= <- <- _]. simpl. repeat split; try discriminate; eauto.
  - intros [= <- <- _]. rewrite Hstate.
    repeat split; try discriminate; eauto.
  - destruct (String.eqb _ _); intros [= <- <- _]; simpl;
      repeat split; try discriminate; eauto.
  - destruct (checkForArticles ld s) as [[lk s2]|] eqn:E; [|discriminate].
    intros [= <- <- _].
    pose proof (checkForArticles_frame _ _ _ _ E) as (Hbase & _ & Htitle & Hread).
    apply checkForArticles_outcome in E
      as [->|[[err ->]|(ring & first & parsed & arts & _ & _ & ->)]]; simpl;
      rewrite ?Hstate; repeat split; try discriminate; eauto.
  - intros [= <- <- _]. rewrite Hstate.
    repeat split; try discriminate; eauto.
Qed.

Lemma checkLinkLoop_step fuel ld s ld' s' :
  checkLinkLoop fuel ld s = Some (ld', s') ->
  BaseUrl ld' = BaseUrl ld /\ LTitle ld' = LTitle ld
  /\ LastRead ld' = LastRead ld
  /\ (State ld' = LinkIgnore -> State ld = LinkIgnore)
  /\ (LastError ld' = LastError ld
      \/ (State ld' = LinkTransientError /\ is_Some (LastError ld')))
  /\ State ld' <> LinkIsNew
  /\ (State ld' = LinkTransientError -> is_Some (LastError ld')).
Proof.
  revert ld s. induction fuel as [|fuel IH]; intros ld s; simpl;
    [discriminate|].
  unfold bind.
  destruct (checkLinkBody ld s) as [[[ld1 again] s1]|] eqn:E; [|discriminate].
  apply checkLinkBody_step in E
    as (Hbase & Htitle & Hread & Hignore & Herr & Hend).
  destruct again.
  - intros H. apply IH in H
      as (Hbase' & Htitle' & Hread' & Hignore' & Herr' & Hnew & Hte).
    repeat split; try congruence; auto.
    destruct Herr' as [Herr'|Herr']; [|now right].
    destruct Herr as [Herr|(Hfalse & _)]; [left; congruence|discriminate].
  - intros [= <- _]. destruct Hend as [Hnew Hte].
    repeat split; auto.
    destruct Herr as [Herr|(_ & Hs & He)]; [now left|now right].
Qed.

End LifeCycleMore.

(** X7: a pass of [checkLink] never changes the [BaseUrl], the [Title] or
    [LastRead] of a record. *)
Theorem checkLink_frame
        {RT : Runtime} (ld ld' : LinkDetails) (s s' : Sys)
        (Hrun : checkLink ld s = Some (ld', s')) :
  BaseUrl ld' = BaseUrl ld /\ LTitle ld' = LTitle ld
  /\ LastRead ld' = LastRead ld.
Proof.
  apply checkLinkLoop_step in Hrun as (Hbase & Htitle & Hread & _).
  now repeat split.
Qed.

Lemma checkLink_frame_witness :
  BaseUrl (withArticles [] sample.checkedAt900) = BaseUrl sample.checkedAt900
  /\ LTitle (withArticles [] sample.checkedAt900) = LTitle sample.checkedAt900
  /\ LastRead (withArticles [] sample.checkedAt900)
     = LastRead sample.checkedAt900.
Proof.
  apply (checkLink_frame (RT := sample.soonAfter) sample.checkedAt900
                         (withArticles [] sample.checkedAt900)
                         (sample.start sample.soonAfter tt)
                         (sample.start sample.soonAfter tt)).
  reflexivity.
Defined.

(** X8: a pass of [checkLink] always ends, and never leaves a record in
    state New; a record that ends in TransientError has a last error; a
    record ends in state Ignore only if it began there; and a record in
    state Ignore or NoFeedFound is left exactly as it was, with nothing
    fetched: NoFeedFound is never tried again. *)
Theorem checkLink_final_state {RT : Runtime} (ld : LinkDetails) (s : Sys) :
  exists ld' s',
    checkLink ld s = Some (ld', s')
    /\ State ld' <> LinkIsNew
    /\ (State ld' = LinkTransientError -> is_Some (LastError ld'))
    /\ (State ld' = LinkIgnore -> State ld = LinkIgnore)
    /\ (State ld = LinkIgnore \/ State ld = LinkNoFeedFound ->
        ld' = ld /\ s' = s).
Proof.
  destruct (checkLink_total ld s) as [[ld' s'] E]. exists ld', s'.
  split; [exact E|].
  pose proof (checkLinkLoop_step _ _ _ _ _ E)
    as (_ & _ & _ & Hignore & _ & Hnew & Hte).
  repeat split; try assumption.
  - revert E. unfold checkLink. simpl. unfold bind, checkLinkBody, ret.
    destruct H as [-> | ->]; now intros [= <- _].
  - revert E. unfold checkLink. simpl. unfold bind, checkLinkBody, ret.
    destruct H as [-> | ->]; now intros [= _ <-].
Qed.



(** X10: a refresh moves [LastChecked] only when it succeeds.  A refresh
    that is due and gets the feed, parses it without an error and makes
    every article URL absolute sets [LastChecked] to the time it began and
    keeps the state and the last error.  A refresh that is due and fails,
    at the fetch, at the search for the root, in the parser or at a URL
    that does not resolve, records the error with [ErrorOccurred], empties
    the articles and leaves [LastChecked] alone, also when the error is
    the one the record already holds, so the next pass tries again at
    once.  In every case [LastChecked] is as it was or is the time the
    refresh began, at least 300 seconds after the last check. *)
Theorem LastChecked_moves_on_success
        {RT : Runtime} (link link' : LinkDetails) (s s' : Sys)
        (Hrun : checkForArticles link s = Some (link', s')) :
  let moment := (timeNow (world s)).1 in
  let s0 := mkSys (timeNow (world s)).2 (fetched s) in
  let due := minCheckDuration <= time.Sub moment (LastChecked link) in
  let request := makeFeedRequest (BaseUrl link) (FeedUrl link) s0 in
  let failed err :=
    link' = ErrorOccurred err (withArticles [] link)
    /\ LastChecked link' = LastChecked link
    /\ State link' = LinkTransientError
    /\ LastError link' = Some err
    /\ Articles link' = [] in
  (LastChecked link' = LastChecked link
   \/ (LastChecked link' = moment /\ due
       /\ State link' = State link /\ LastError link' = LastError link))
  /\ (due -> forall err s1, request = Some (inr err, s1) -> failed err)
  /\ (due -> forall resp s1 err ring,
         request = Some (inl resp, s1) ->
         firstStartElement (BodyXML resp) = (inr err, ring) ->
         failed err)
  /\ (due -> forall resp s1 first ring pfn,
         request = Some (inl resp, s1) ->
         firstStartElement (BodyXML resp) = (inl first, ring) ->
         parseFunctionForFeed first = Some pfn ->
         (forall err lk,
             pfn ring first (withArticles [] link) = Some (Some err, lk) ->
             failed err)
         /\ (forall lk err,
                pfn ring first (withArticles [] link) = Some (None, lk) ->
                absolutizeLoop (BaseUrl link) (sortIfLong (Articles lk))
                = inr err ->
                failed err)
         /\ (forall lk arts,
                pfn ring first (withArticles [] link) = Some (None, lk) ->
                absolutizeLoop (BaseUrl link) (sortIfLong (Articles lk))
                = inl arts ->
                link' = withLastChecked moment (withArticles arts link))).
Proof.
  intros moment s0 due request failed.
  assert (forall err, link' = ErrorOccurred err (withArticles [] link) ->
                      failed err) as Hfailed
      by (intros err ->; now repeat split).
  split.
  { pose proof Hrun as Hout.
    apply checkForArticles_outcome in Hout
      as [->|[[err ->]|(ring & first & parsed & arts & _ & _ & ->)]]; simpl;
      [now left..|].
    subst due moment.
    destruct (Z.le_gt_cases minCheckDuration
                            (time.Sub (timeNow (world s)).1
                                      (LastChecked link))) as [Hge|Hlt].
    - right. now repeat split.
    - left. revert Hrun. unfold checkForArticles, bind, Now, ret.
      destruct (timeNow (world s)) as [t w]. simpl in *.
      apply Z.ltb_lt in Hlt. rewrite Hlt. intros [= E _]. now symmetry. }
  revert Hrun. unfold checkForArticles, bind, Now, ret, liftOption.
  subst due request s0 moment.
  destruct (timeNow (world s)) as [moment w]. simpl.
  intros Hrun.
  assert (minCheckDuration <= time.Sub moment (LastChecked link) ->
          match makeFeedRequest (BaseUrl link) (FeedUrl link)
                                (mkSys w (fetched s)) with
          | Some (r, s1) =>
              match r with
              | inr err => Some (ErrorOccurred err (withArticles [] link), s1)
              | inl resp =>
                  match firstStartElement (BodyXML resp) with
                  | (inr err, _) =>
                      Some (ErrorOccurred err (withArticles [] link), s1)
                  | (inl first, ring) =>
                      match parseFunctionForFeed first with
                      | None => Some (withArticles [] link, s1)
                      | Some pfn =>
                          match pfn ring first (withArticles [] link) with
                          | Some (None, lk) =>
                              match absolutizeLoop
                                      (BaseUrl link)
                                      (sortIfLong (Articles lk)) with
                              | inl arts =>
                                  Some (withLastChecked
                                          moment (withArticles arts lk), s1)
                              | inr err =>
                                  Some (withArticles [] (ErrorOccurred err lk),
                                        s1)
                              end
                          | Some (Some err, lk) =>
                              Some (withArticles [] (ErrorOccurred err lk), s1)
                          | None => None
                          end
                      end
                  end
              end
          | None => None
          end = Some (link', s')) as Hdue.
  { intros Hge. apply Z.ltb_ge in Hge. rewrite Hge in Hrun.
    destruct (makeFeedRequest _ _ _) as [[[resp|err] s1]|]; [|exact Hrun..].
    destruct (firstStartElement _) as [[first|err] ring]; [|exact Hrun].
    destruct (parseFunctionForFeed first) as [pfn|] eqn:Epfn; [|exact Hrun].
    apply parseFunctionForFeed_Some in Epfn as ->.
    destruct (feedParser ring first _) as [[[err|] lk]|] eqn:Eparse;
      [exact Hrun| |exact Hrun].
    apply feedParserLoop_frame in Eparse as [parsed ->].
    revert Hrun. unfold sortIfLong. simpl.
    destruct (1 <? List.length parsed)%nat; simpl;
      destruct (absolutizeLoop _ _); intros H; exact H. }
  clear Hrun.
  assert (forall pfn ring first r lk,
             parseFunctionForFeed first = Some pfn ->
             pfn ring first (withArticles [] link) = Some (r, lk) ->
             exists parsed, lk = withArticles parsed link) as Hframe.
  { intros pfn ring first r lk Epfn Eparse.
    apply parseFunctionForFeed_Some in Epfn as ->.
    now apply feedParserLoop_frame in Eparse as [parsed ->]; exists parsed. }
  split; [|split].
  - intros Hge err s1 Ereq. specialize (Hdue Hge). rewrite Ereq in Hdue.
    injection Hdue as <- _. now apply Hfailed.
  - intros Hge resp s1 err ring Ereq Efirst. specialize (Hdue Hge).
    rewrite Ereq, Efirst in Hdue. injection Hdue as <- _. now apply Hfailed.
  - intros Hge resp s1 first ring pfn Ereq Efirst Epfn. specialize (Hdue Hge).
    rewrite Ereq, Efirst, Epfn in Hdue. split; [|split].
    + intros err lk Eparse. rewrite Eparse in Hdue.
      destruct (Hframe _ _ _ _ _ Epfn Eparse) as [parsed ->].
      injection Hdue as <- _. now apply Hfailed.
    + intros lk err Eparse Eabs. rewrite Eparse, Eabs in Hdue.
      destruct (Hframe _ _ _ _ _ Epfn Eparse) as [parsed ->].
      injection Hdue as <- _. now apply Hfailed.
    + intros lk arts Eparse Eabs. rewrite Eparse, Eabs in Hdue.
      destruct (Hframe _ _ _ _ _ Epfn Eparse) as [parsed ->].
      now injection Hdue as <- _.
Qed.

Lemma LastChecked_moves_on_success_witness :
  checkForArticles (RT := sample.offline) refusedBefore
                   (sample.start sample.offline tt)
  = Some (ErrorOccurred (LibError "connection refused") refusedBefore,
          mkSys (RT := sample.offline) tt ["http://x/f.xml"])
  /\ LastChecked (ErrorOccurred (LibError "connection refused") refusedBefore)
     = LastChecked refusedBefore
  /\ LastError (ErrorOccurred (LibError "connection refused") refusedBefore)
     = LastError refusedBefore.
Proof.
  split; [reflexivity|].
  destruct (proj1 (proj2 (LastChecked_moves_on_success
                            (RT := sample.offline) refusedBefore
                            (ErrorOccurred (LibError "connection refused")
                                           refusedBefore)
                            (sample.start sample.offline tt)
                            (mkSys (RT := sample.offline) tt
                                   ["http://x/f.xml"])
                            eq_refl))
                  ltac:(vm_compute; discriminate)
                  (LibError "connection refused")
                  (mkSys (RT := sample.offline) tt ["http://x/f.xml"])
                  eq_refl)
    as (_ & Hchecked & _ & Herror & _).
  split; [exact Hchecked|exact Herror].
Defined.

(** ** The page of a new link *)

(** X11: for a record in state New, the answer to the fetch of its page
    decides the pass when it is not a 200: a failed fetch and a status of
    500 or more leave the record in TransientError with a transient error
    as its last error; any other status moves it to NoFeedFound and
    records no error at all.  The page is the only URL fetched. *)
Theorem page_status_decides
        {RT : Runtime} (ld : LinkDetails) (s : Sys)
        (Hstate : State ld = LinkIsNew) :
  let after w := mkSys w (fetched s ++ [BaseUrl ld]) in
  (forall msg w,
      httpGet (BaseUrl ld) (world s) = (inr msg, w) ->
      checkLink ld s
      = Some (ErrorOccurred (MkTransientError ("findFeedUrl: " +:+ msg)) ld,
              after w))
  /\ (forall resp w,
         httpGet (BaseUrl ld) (world s) = (inl resp, w) ->
         StatusCode resp <> 200 ->
         checkLink ld s
         = Some (if 500 <=? StatusCode resp
                 then ErrorOccurred
                        (MkTransientError
                           ("findFeedUrl: Server error " +:+ Status resp)) ld
                 else withState LinkNoFeedFound ld,
                 after w)).
Proof.
  intros after. split.
  - intros msg w Hget. unfold checkLink. simpl.
    unfold bind, checkLinkBody. rewrite Hstate.
    unfold bind, findFeedUrl, bind, clientGet, ret. now rewrite Hget.
  - intros resp w Hget Hstatus. unfold checkLink. simpl.
    unfold bind, checkLinkBody. rewrite Hstate.
    unfold bind, findFeedUrl, bind, clientGet, ret. rewrite Hget. simpl.
    apply Z.eqb_neq in Hstatus. rewrite Hstatus.
    now destruct (500 <=? StatusCode resp).
Qed.

Lemma page_status_decides_witness :
  checkLink (RT := sampleNotFound) sample.newRecord
            (sample.start sampleNotFound tt)
  = Some (withState LinkNoFeedFound sample.newRecord,
          mkSys (RT := sampleNotFound) tt ["http://x/"]).
Proof.
  refine (proj2 (page_status_decides (RT := sampleNotFound) sample.newRecord
                   (sample.start sampleNotFound tt) _)
                (mkResponse 404 "404 Not Found" [] (links.mkTokenizer [] None)
                            (xml.mkDecoder [] None))
                tt _ _).
  - reflexivity.
  - reflexivity.
  - discriminate.
Defined.

(** ** The root of a feed *)

(** X12: [firstStartElement] skips every token up to the first start
    element, returns that element and leaves the decoder just behind it;
    when no start element is left it reads the decoder to its end and
    returns the error "No start element found.", whatever error the decoder
    itself ended with. *)
Theorem firstStartElement_finds_first (ring : xml.Decoder) :
  match firstStartElement ring with
  | (inl t, ring') =>
      exists pre,
        xml.upcoming ring = pre ++ xml.TStartElement t :: xml.upcoming ring'
        /\ Forall (fun t => isStart t = false) pre
        /\ xml.failure ring' = xml.failure ring
  | (inr err, ring') =>
      Forall (fun t => isStart t = false) (xml.upcoming ring)
      /\ err = MkError "No start element found."
      /\ xml.upcoming ring' = []
      /\ IsTransient (Some err) = false
  end.
Proof.
  unfold firstStartElement. destruct ring as [toks failure]. simpl.
  induction toks as [|t toks IH]; simpl.
  - now repeat split.
  - assert (isStart t = false ->
            match
              (let (o, rest) := firstStartLoop toks in
               match o with
               | Some t0 => (inl t0, xml.mkDecoder rest failure)
               | None =>
                   (inr (MkError "No start element found."),
                    xml.mkDecoder rest failure)
               end)
            with
            | (inl t0, ring') =>
                exists pre,
                  t :: toks = pre ++ xml.TStartElement t0 :: xml.upcoming ring'
                  /\ Forall (fun t => isStart t = false) pre
                  /\ xml.failure ring' = failure
            | (inr err, ring') =>
                Forall (fun t => isStart t = false) (t :: toks)
                /\ err = MkError "No start element found."
                /\ xml.upcoming ring' = []
                /\ IsTransient (Some err) = false
            end) as Hskip.
    { intros Ht. destruct (firstStartLoop toks) as [[t'|] rest]; simpl in *.
      - destruct IH as (pre & -> & Hpre & Hf). exists (t :: pre).
        split; [reflexivity|]. split; [now constructor|reflexivity].
      - destruct IH as (Hall & _ & Hrest & _).
        split; [now constructor|]. now repeat split. }
    destruct t as [st|n|c| | |]; try (apply Hskip; reflexivity).
    exists []. now repeat split.
Qed.

(** ** The article of an item *)

Section ItemArticle.

Context {RT : Runtime}.

Lemma append_assoc (a b c : string) : (a +:+ b) +:+ c = a +:+ b +:+ c.
Proof.
  induction a as [|x a IH]; [reflexivity|].
  change (String x ((a +:+ b) +:+ c) = String x (a +:+ b +:+ c)).
  now rewrite IH.
Qed.

Lemma append_nil_r (a : string) : a +:+ "" = a.
Proof.
  induction a as [|x a IH]; [reflexivity|].
  change (String x (a +:+ "") = String x a). now rewrite IH.
Qed.

Lemma default_last_cons {A} (d x : A) (l : list A) :
  default d (last (x :: l)) = default x (last l).
Proof. rewrite last_cons. now destruct (last l). Qed.

Lemma default_last_app {A} (d : A) (l1 l2 : list A) :
  default d (last (l1 ++ l2)) = default (default d (last l1)) (last l2).
Proof. rewrite last_app. now destruct (last l2). Qed.

Lemma hrefLoop_value attrs url found :
  (hrefLoop attrs url found).1 = default url (last (hrefValues attrs)).
Proof.
  revert url found. induction attrs as [|attr attrs IH]; intros url found;
    simpl; [reflexivity|].
  unfold hrefValues. simpl. destruct (String.eqb _ "href"); simpl.
  - rewrite IH. fold (hrefValues attrs). now rewrite default_last_cons.
  - now rewrite IH.
Qed.

(** The item loop over the children, from any article begun. *)
Lemma extractLoop_elements atom failure fs closing rest accum rv :
  Forall (simpleChild atom) fs ->
  isItemName (xml.Local_ closing) = true ->
  Forall (fun c => exists tm, parseTime c = inl tm) (dateTexts fs) ->
  extractLoop (elements fs ++ xml.TEndElement closing :: rest)
              failure atom accum rv
  = ((mkArticle
        (default (Url rv) (last (if atom then linkHrefs fs
                                 else contentsOf "link" fs)))
        (Title rv +:+ foldr String.append "" (contentsOf "title" fs))
        (timeOr (PubDate rv) (last (dateTexts fs))),
      None), rest).
Proof.
  intros Hsimple Hclosing. revert accum rv.
  induction Hsimple as [|[[[sp loc] attrs] content] fs [Hitem Hhref] Hsimple IH];
    intros accum rv Hdates.
  - simpl. fold (isItemName (xml.Local_ closing)). rewrite Hclosing.
    rewrite append_nil_r. now destruct atom, rv.
  - unfold simpleChild, named in Hitem, Hhref. simpl in Hitem, Hhref.
    unfold isItemName in Hitem. apply orb_false_iff in Hitem as [Hni Hne].
    unfold elements, dateTexts, contentsOf, linkHrefs, named in *.
    simpl in Hdates |- *. rewrite Hni, Hne. simpl.
    change ("" +:+ content) with content.
    change (concat (map element fs)) with (elements fs).
    destruct (String.eqb_spec loc "title") as [->|Htitle].
    { simpl. rewrite andb_false_r. simpl.
      rewrite IH by exact Hdates. simpl. now rewrite append_assoc. }
    destruct (String.eqb_spec loc "link") as [->|Hlink].
    { simpl. rewrite andb_true_r. destruct atom; simpl.
      - specialize (Hhref eq_refl).
        pose proof (hrefLoop_found attrs (Url rv) false) as Hfound.
        pose proof (hrefLoop_value attrs (Url rv) false) as Hvalue.
        destruct (hrefLoop attrs (Url rv) false) as [url found].
        simpl in Hfound, Hvalue. rewrite Hhref in Hfound. subst found url.
        simpl. rewrite IH by exact Hdates. simpl.
        now rewrite default_last_app.
      - rewrite IH by exact Hdates. simpl. now rewrite default_last_cons. }
    rewrite andb_false_r. simpl.
    fold (isDateName loc) in Hdates |- *.
    destruct (isDateName loc) eqn:Edate; simpl in Hdates |- *.
    + apply Forall_cons in Hdates as [[tm Htm] Hdates]. rewrite Htm.
      rewrite IH by exact Hdates. simpl. f_equal. f_equal. f_equal.
      rewrite last_cons.
      change (map snd (List.filter
                         (fun f => isDateName (xml.Local_ f.1.1)) fs))
        with (dateTexts fs).
      destruct (last (dateTexts fs)) as [c|] eqn:Elast; simpl.
      * apply last_Some_elem_of, list_elem_of_In in Elast.
        rewrite List.Forall_forall in Hdates.
        destruct (Hdates c Elast) as [tm' ->]. reflexivity.
      * now rewrite Htm.
    + now rewrite IH by exact Hdates.
Qed.

End ItemArticle.

(** X13: from an item or entry whose children are elements with text,
    [genericExtractArticle] makes the article whose title is the contents
    of all the [title] children put together, whose URL is the content of
    the last [link] child (for an Atom entry: the last [href] of its
    [link] children) and whose publish time is that of the last date
    child; a part that is missing gives the empty string or the zero
    time.  The decoder is left behind the end element of the item. *)
Theorem genericExtractArticle_of_children
        {RT : Runtime} (atom : bool) (failure : option string)
        (fs : list (xml.Name * list xml.Attr * string))
        (closing : xml.Name) (rest : list xml.Token) (link : LinkDetails)
        (Hsimple : Forall (simpleChild atom) fs)
        (Hclosing : isItemName (xml.Local_ closing) = true)
        (Hdates : Forall (fun c => exists tm, parseTime c = inl tm)
                         (dateTexts fs)) :
  genericExtractArticle
    (xml.mkDecoder (elements fs ++ xml.TEndElement closing :: rest) failure)
    link atom
  = ((articleOf atom fs, None), xml.mkDecoder rest failure).
Proof.
  unfold genericExtractArticle. simpl.
  now rewrite (extractLoop_elements atom failure fs closing rest ""
                                    emptyArticle Hsimple Hclosing Hdates).
Qed.

Lemma genericExtractArticle_of_children_witness :
  genericExtractArticle
    (RT := sample.feedServer)
    (xml.mkDecoder
       (elements [(xml.mkName "" "title", [], "A");
                  (xml.mkName "media" "title", [], "B");
                  (xml.mkName "" "link", [], "http://x/a");
                  (xml.mkName "" "pubDate", [], "2020-1-1")]
          ++ xml.TEndElement (xml.mkName "" "item") :: [])
       None)
    sample.neverChecked false
  = ((mkArticle "http://x/a" "AB" sample.jan1, None), xml.mkDecoder [] None).
Proof.
  apply (genericExtractArticle_of_children
           (RT := sample.feedServer) false None
           [(xml.mkName "" "title", [], "A");
            (xml.mkName "media" "title", [], "B");
            (xml.mkName "" "link", [], "http://x/a");
            (xml.mkName "" "pubDate", [], "2020-1-1")]
           (xml.mkName "" "item") [] sample.neverChecked).
  - repeat constructor; discriminate.
  - reflexivity.
  - repeat constructor. now exists sample.jan1.
Defined.

Section FeedOfItems.

Context {RT : Runtime}.

Lemma feedParserLoop_pieces fuel failure ps link r :
  Forall goodPiece ps ->
  feedParserLoop fuel (xml.mkDecoder (feedTokens ps) failure) link = Some r ->
  r = (match failure with None => None | Some msg => Some (LibError msg) end,
       withArticles (Articles link ++ pieceArticles ps) link).
Proof.
  intros Hgood. revert fuel link.
  induction Hgood as [|p ps Hp Hgood IH]; intros fuel link;
    (destruct fuel as [|fuel]; [discriminate|]).
  - simpl. rewrite app_nil_r.
    destruct failure; simpl; intros [= <-]; now destruct link.
  - unfold feedTokens. simpl map. simpl concat. fold (feedTokens ps).
    assert (forall lk,
               feedParserLoop fuel (xml.mkDecoder (feedTokens ps) failure) lk
               = Some r ->
               Articles lk = Articles link ->
               withArticles (Articles lk) link = lk ->
               r = (match failure with
                    | None => None
                    | Some msg => Some (LibError msg)
                    end,
                    withArticles (Articles link ++ pieceArticles ps) link))
      as Hskip.
    { intros lk Hrun Harts Hlk. apply IH in Hrun as ->.
      now rewrite Harts, <- Hlk. }
    destruct p as [st fs closing|t].
    + destruct Hp as (Hst & Hclosing & Hsimple & Hdates).
      simpl pieceTokens. simpl pieceArticles.
      change (feedParserLoop (S fuel) ?d link)
        with (match xml.Token_ d with
              | (inr EOF, _) => Some (None, link)
              | (inr err, _) => Some (Some err, link)
              | (inl (xml.TStartElement t), ring) =>
                  let looksLikeAtom :=
                    String.eqb (xml.Local_ (xml.SName t)) "entry" in
                  if (String.eqb (xml.Local_ (xml.SName t)) "item"
                      || looksLikeAtom)%bool
                  then
                    match genericExtractArticle ring link looksLikeAtom with
                    | ((_, Some err), _) => Some (Some err, link)
                    | ((art, None), ring) =>
                        feedParserLoop
                          fuel ring
                          (withArticles (Articles link ++ [art]) link)
                    end
                  else feedParserLoop fuel ring link
              | (inl _, ring) => feedParserLoop fuel ring link
              end).
      unfold xml.Token_. simpl.
      fold (isItemName (xml.Local_ (xml.SName st))). rewrite Hst.
      rewrite <- app_assoc. simpl.
      fold (isEntry st).
      unfold genericExtractArticle. simpl.
      rewrite (extractLoop_elements (isEntry st) failure fs closing
                                    (feedTokens ps) "" emptyArticle
                                    Hsimple Hclosing Hdates).
      fold (articleOf (isEntry st) fs).
      intros Hrun. apply IH in Hrun as ->. simpl.
      now rewrite <- app_assoc.
    + simpl pieceTokens. simpl pieceArticles. simpl in Hp. simpl.
      destruct t as [st|n|c| | |];
        try (intros Hrun; apply IH in Hrun as ->; reflexivity).
      fold (isItemName (xml.Local_ (xml.SName st))).
      rewrite (Hp st eq_refl).
      intros Hrun. now apply IH in Hrun as ->.
Qed.

End FeedOfItems.

(** X14: from a feed made of items and entries of that kind, with any
    other tokens between them, [feedParser] appends one article for each
    item or entry, in the order of the feed, to the articles the record
    holds, and changes nothing else in the record.  It returns no error
    when the decoder ends with the end of its input, and the decoder's
    error, with the articles parsed so far, when it ends with one. *)
Theorem feedParser_of_items
        {RT : Runtime} (failure : option string) (ps : list Piece)
        (root : xml.StartElement) (link : LinkDetails)
        (Hgood : Forall goodPiece ps) :
  feedParser (xml.mkDecoder (feedTokens ps) failure) root link
  = Some (match failure with None => None | Some msg => Some (LibError msg) end,
          withArticles (Articles link ++ pieceArticles ps) link).
Proof.
  destruct (feedParser_total (xml.mkDecoder (feedTokens ps) failure) root link)
    as [r Hr].
  rewrite Hr. f_equal. revert Hr. unfold feedParser.
  now apply feedParserLoop_pieces.
Qed.

Lemma feedParser_of_items_witness :
  feedParser (RT := sample.feedServer)
             (xml.mkDecoder
                (feedTokens
                   [POther (sample.open_ "channel");
                    PItem (sample.elem "item")
                          [(xml.mkName "" "title", [], "B");
                           (xml.mkName "" "pubDate", [], "2020-1-2")]
                          (xml.mkName "" "item");
                    PItem (sample.elem "item")
                          [(xml.mkName "" "title", [], "A");
                           (xml.mkName "" "pubDate", [], "2020-1-1")]
                          (xml.mkName "" "item");
                    POther (sample.close "channel")])
                None)
             (sample.elem "rss") sample.newRecord
  = Some (None,
          withArticles [mkArticle "" "B" sample.jan2;
                        mkArticle "" "A" sample.jan1]
                       sample.newRecord).
Proof.
  apply (feedParser_of_items (RT := sample.feedServer) None).
  repeat constructor; try discriminate.
  - now intros st [= <-].
  - now exists sample.jan2.
  - now exists sample.jan1.
Defined.

(** ** The links of a page *)

Section Anchors.

Lemma anchorBody_matched body closer rest failure depth title :
  matched htmlKind depth body = true ->
  links.Type_ closer = links.EndTagToken ->
  links.anchorBody (body ++ closer :: rest) failure depth title
  = (inl (title +:+ htmlText body), rest).
Proof.
  intros Hbody Hcloser. revert depth title Hbody.
  induction body as [|tok body IH]; intros depth title; simpl.
  - intros ->%Z.eqb_eq. rewrite Hcloser. simpl.
    now rewrite append_nil_r.
  - unfold htmlKind, htmlText. simpl.
    destruct (links.Type_ tok); simpl; intros Hbody;
      try (rewrite IH by assumption; reflexivity).
    + rewrite IH by assumption. unfold htmlText.
      now rewrite append_assoc.
    + apply andb_prop in Hbody as [Hpos%Z.ltb_lt Hbody].
      destruct (Z.ltb_spec (depth - 1) 0); [lia|].
      now rewrite IH.
Qed.

Lemma anchorBody_cases toks failure depth title :
  0 <= depth ->
  match links.anchorBody toks failure depth title with
  | (inl text, rest) =>
      exists body closer,
        toks = body ++ closer :: rest
        /\ matched htmlKind depth body = true
        /\ links.Type_ closer = links.EndTagToken
        /\ text = title +:+ htmlText body
  | (inr err, rest) => rest = [] /\ err = anchorError failure
  end.
Proof.
  revert depth title.
  induction toks as [|tok toks IH]; intros depth title Hdepth; simpl.
  - now destruct failure.
  - destruct (links.Type_ tok) eqn:Etype;
      try (specialize (IH depth title Hdepth);
           destruct (links.anchorBody toks _ _ _) as [[text|err] rest];
           [|exact IH];
           destruct IH as (body & closer & -> & Hbody & Hcloser & ->);
           exists (tok :: body), closer; unfold htmlKind, htmlText; simpl;
           rewrite Etype; now repeat split).
    + specialize (IH depth (title +:+ links.Data tok) Hdepth).
      destruct (links.anchorBody toks _ _ _) as [[text|err] rest]; [|exact IH].
      destruct IH as (body & closer & -> & Hbody & Hcloser & ->).
      exists (tok :: body), closer. unfold htmlKind, htmlText. simpl.
      rewrite Etype. repeat split; try assumption.
      now rewrite append_assoc.
    + specialize (IH (depth + 1) title ltac:(lia)).
      destruct (links.anchorBody toks _ _ _) as [[text|err] rest]; [|exact IH].
      destruct IH as (body & closer & -> & Hbody & Hcloser & ->).
      exists (tok :: body), closer. unfold htmlKind, htmlText. simpl.
      rewrite Etype. now repeat split.
    + destruct (Z.ltb_spec (depth - 1) 0).
      * exists [], tok. simpl. rewrite append_nil_r.
        repeat split; [|assumption]. apply Z.eqb_eq. lia.
      * specialize (IH (depth - 1) title ltac:(lia)).
        destruct (links.anchorBody toks _ _ _) as [[text|err] rest];
          [|exact IH].
        destruct IH as (body & closer & -> & Hbody & Hcloser & ->).
        exists (tok :: body), closer. unfold htmlKind, htmlText. simpl.
        rewrite Etype. repeat split; try assumption.
        apply andb_true_intro. split; [apply Z.ltb_lt; lia|assumption].
Qed.

End Anchors.

Section PageLinks.

Lemma checkTag_cases tok parser rv rv' err parser' :
  links.checkTag tok parser rv = (rv', err, parser') ->
  links.failure parser' = links.failure parser
  /\ links.pending parser' `suffix_of` links.pending parser
  /\ (rv' = rv \/ exists l, rv' = rv ++ [l] /\ linkFrom tok l)
  /\ (err = None \/ err = Some (anchorError (links.failure parser))).
Proof.
  assert ((rv, @None error, parser) = (rv', err, parser') ->
          links.failure parser' = links.failure parser
          /\ links.pending parser' `suffix_of` links.pending parser
          /\ (rv' = rv \/ exists l, rv' = rv ++ [l] /\ linkFrom tok l)
          /\ (err = None \/ err = Some (anchorError (links.failure parser))))
    as Hsame by (intros [= <- <- <-]; repeat split; auto).
  unfold links.checkTag, links.checkForAnchor, links.checkForLINK.
  destruct (String.eqb_spec (links.Data tok) "a") as [Ha|Ha]; simpl.
  - assert (String.eqb (links.Data tok) "link" = false) as ->
        by now rewrite Ha.
    destruct (links.Type_ tok); try exact Hsame.
    destruct (links.findAttr (links.Attr tok) "href") as [href [|]] eqn:Ehref;
      simpl; [|exact Hsame].
    pose proof (anchorBody_cases (links.pending parser) (links.failure parser)
                                 0 "" (Z.le_refl 0)) as Hbody.
    destruct (links.anchorBody _ _ _ _) as [[text|e] rest].
    + destruct Hbody as (body & closer & Etoks & _).
      assert (forall l,
                 links.Url l = links.Val href ->
                 (rv ++ [l], @None error,
                   links.mkTokenizer rest (links.failure parser))
                 = (rv', err, parser') ->
                 links.failure parser' = links.failure parser
                 /\ links.pending parser' `suffix_of` links.pending parser
                 /\ (rv' = rv \/ exists l, rv' = rv ++ [l] /\ linkFrom tok l)
                 /\ (err = None
                     \/ err = Some (anchorError (links.failure parser))))
        as Hadd.
      { intros l Hurl [= <- <- <-]. simpl. rewrite Etoks.
        repeat split; auto.
        - exists (body ++ [closer]). now rewrite <- app_assoc.
        - right. exists l. split; [reflexivity|].
          split; [now left|]. now exists href. }
      destruct (String.eqb text "").
      * destruct (links.findAttr (links.Attr tok) "title") as [title [|]].
        -- now apply Hadd.
        -- intros [= <- <- <-]. simpl. rewrite Etoks. repeat split; auto.
           exists (body ++ [closer]). now rewrite <- app_assoc.
      * now apply Hadd.
    + destruct Hbody as [-> ->]. intros [= <- <- <-]. simpl.
      repeat split; auto. apply suffix_nil.
  - destruct (String.eqb_spec (links.Data tok) "link") as [Hl|Hl];
      [|exact Hsame].
    simpl.
    destruct (links.findAttr (links.Attr tok) "href") as [href [|]] eqn:Ehref;
      simpl; [|exact Hsame].
    destruct (links.findAttr (links.Attr tok) "type") as [ty [|]];
      intros [= <- <- <-]; repeat split; auto; right;
      (eexists; split; [reflexivity|]);
      (split; [now right|]); now exists href.
Qed.

Lemma ExtractLoop_cases fuel parser rv lnks err :
  links.ExtractLoop fuel parser rv = Some (lnks, err) ->
  (exists new,
      lnks = rv ++ new
      /\ Forall (fun l => exists tok,
                     tok ∈ links.pending parser /\ linkFrom tok l) new)
  /\ (err = None /\ links.failure parser = None
      \/ err = Some (anchorError (links.failure parser))).
Proof.
  revert parser rv. induction fuel as [|fuel IH]; intros parser rv;
    [discriminate|].
  simpl. destruct (links.pending parser) as [|tok rest] eqn:Etoks.
  - unfold links.Err.
    destruct (links.failure parser); intros [= <- <-];
      (split; [exists []; now rewrite app_nil_r|auto]).
  - assert (forall p rv',
               links.failure p = links.failure parser ->
               links.pending p `suffix_of` rest ->
               (rv' = rv \/ exists l, rv' = rv ++ [l] /\ linkFrom tok l) ->
               links.ExtractLoop fuel p rv' = Some (lnks, err) ->
               (exists new,
                   lnks = rv ++ new
                   /\ Forall (fun l => exists tok0,
                                  tok0 ∈ tok :: rest /\ linkFrom tok0 l) new)
               /\ (err = None /\ links.failure parser = None
                   \/ err = Some (anchorError (links.failure parser))))
      as Hnext.
    { intros p rv' Hfail [pre Hpre] Hrv Hrun.
      apply IH in Hrun as [(new & -> & Hnew) Herr].
      rewrite Hfail in Herr. split; [|exact Herr].
      assert (Forall (fun l => exists tok0,
                          tok0 ∈ tok :: rest /\ linkFrom tok0 l) new)
        as Hnew'.
      { eapply Forall_impl; [exact Hnew|].
        intros l (tok0 & Hin & Hfrom). exists tok0. split; [|exact Hfrom].
        rewrite Hpre. apply elem_of_cons. right.
        apply elem_of_app. now right. }
      destruct Hrv as [->|(l & -> & Hl)].
      - now exists new.
      - exists (l :: new). rewrite <- app_assoc. split; [reflexivity|].
        constructor; [|exact Hnew'].
        exists tok. split; [apply elem_of_cons; now left|exact Hl]. }
    assert (links.ExtractLoop
              fuel (links.mkTokenizer rest (links.failure parser)) rv
            = Some (lnks, err) ->
            (exists new,
                lnks = rv ++ new
                /\ Forall (fun l => exists tok0,
                               tok0 ∈ tok :: rest /\ linkFrom tok0 l) new)
            /\ (err = None /\ links.failure parser = None
                \/ err = Some (anchorError (links.failure parser))))
      as Hskip by (apply Hnext; auto).
    assert (match links.checkTag
                    tok (links.mkTokenizer rest (links.failure parser)) rv with
            | (rv, Some err, _) => Some (rv, Some err)
            | (rv, None, parser) => links.ExtractLoop fuel parser rv
            end = Some (lnks, err) ->
            (exists new,
                lnks = rv ++ new
                /\ Forall (fun l => exists tok0,
                               tok0 ∈ tok :: rest /\ linkFrom tok0 l) new)
            /\ (err = None /\ links.failure parser = None
                \/ err = Some (anchorError (links.failure parser))))
      as Htag.
    { destruct (links.checkTag tok _ rv) as [[rv' e] p] eqn:Etag.
      apply checkTag_cases in Etag as (Hfail & Hsuf & Hrv & He).
      simpl in Hfail, Hsuf, He.
      destruct e as [e|]; [|now apply Hnext].
      destruct He as [|[= ->]]; [discriminate|].
      intros [= <- <-]. split; [|now right].
      destruct Hrv as [->|(l & -> & Hl)].
      - exists []. now rewrite app_nil_r.
      - exists [l]. split; [reflexivity|]. constructor; [|constructor].
        exists tok. split; [apply elem_of_cons; now left|exact Hl]. }
    destruct (links.Type_ tok); assumption.
Qed.

End PageLinks.

(** X15: for an [a] start tag with an [href], [checkForAnchor] reads on to
    the end tag that closes the anchor once the tags inside are matched,
    whatever the name of that end tag.  The title of the link is the text
    read on the way, at every depth; when there is none, the [title]
    attribute of the tag, and without one no link is added.  The tokenizer
    is left behind the closing tag. *)
Theorem checkForAnchor_reads_body
        (startTok closer : links.Token) (body rest : list links.Token)
        (failure : option string) (lnks : list links.Link)
        (href : links.Attribute)
        (Ha : links.Data startTok = "a")
        (Hhref : links.findAttr (links.Attr startTok) "href" = (href, true))
        (Hbody : matched htmlKind 0 body = true)
        (Hcloser : links.Type_ closer = links.EndTagToken) :
  links.checkForAnchor startTok
                       (links.mkTokenizer (body ++ closer :: rest) failure)
                       lnks
  = (if String.eqb (htmlText body) "" then
       match links.findAttr (links.Attr startTok) "title" with
       | (title, true) =>
           lnks ++ [links.mkLink (links.Val title) (links.Val href)]
       | (_, false) => lnks
       end
     else lnks ++ [links.mkLink (htmlText body) (links.Val href)],
     None, links.mkTokenizer rest failure).
Proof.
  unfold links.checkForAnchor. rewrite Ha, Hhref. simpl.
  rewrite (anchorBody_matched body closer rest failure 0 "" Hbody Hcloser).
  change ("" +:+ htmlText body) with (htmlText body).
  destruct (String.eqb (htmlText body) ""); [|reflexivity].
  now destruct (links.findAttr (links.Attr startTok) "title") as [title [|]].
Qed.

Lemma checkForAnchor_reads_body_witness :
  links.checkForAnchor
    (links.mkToken links.StartTagToken "a" [links.mkAttribute "href" "/x"])
    (links.mkTokenizer
       ([links.mkToken links.TextToken "Jorb " [];
         links.mkToken links.StartTagToken "abbr" [];
         links.mkToken links.TextToken "ABT" [];
         links.mkToken links.EndTagToken "abbr" []]
          ++ links.mkToken links.EndTagToken "p" []
          :: [links.mkToken links.TextToken "after" []])
       None)
    []
  = ([links.mkLink "Jorb ABT" "/x"], None,
     links.mkTokenizer [links.mkToken links.TextToken "after" []] None).
Proof.
  apply (checkForAnchor_reads_body
           (links.mkToken links.StartTagToken "a"
                          [links.mkAttribute "href" "/x"])
           (links.mkToken links.EndTagToken "p" [])
           [links.mkToken links.TextToken "Jorb " [];
            links.mkToken links.StartTagToken "abbr" [];
            links.mkToken links.TextToken "ABT" [];
            links.mkToken links.EndTagToken "abbr" []]
           [links.mkToken links.TextToken "after" []]
           None [] (links.mkAttribute "href" "/x"));
    reflexivity.
Defined.

(** X16: [Extract] of the HTML extractor always returns.  It returns no
    error only when the tokenizer ends with the end of its input; the
    error it returns is the tokenizer's or, when the input ends inside an
    anchor that has an [href], the error that says so. *)
Theorem Extract_error_origin (parser : links.Tokenizer) :
  exists lnks err,
    links.Extract parser = Some (lnks, err)
    /\ (err = None -> links.failure parser = None)
    /\ (forall e, err = Some e ->
                  e = match links.failure parser with
                      | Some msg => LibError msg
                      | None => LibError "EOF while parsing anchor body."
                      end).
Proof.
  destruct (Extract_total parser) as [[lnks err] Hrun].
  exists lnks, err. split; [exact Hrun|].
  apply ExtractLoop_cases in Hrun as [_ [[-> Hfail]| ->]].
  - split; [auto|discriminate].
  - split; [discriminate|]. intros e [= <-].
    unfold anchorError. now destruct (links.failure parser).
Qed.

(** X17: every link that [Extract] of the HTML extractor returns, with or
    without an error, is made from an [a] or [link] tag of the input, and
    its URL is the value of the first [href] attribute of that tag. *)
Theorem Extract_links_origin (parser : links.Tokenizer) :
  exists lnks err,
    links.Extract parser = Some (lnks, err)
    /\ Forall (fun l => exists tok,
                   tok ∈ links.pending parser /\ linkFrom tok l) lnks.
Proof.
  destruct (Extract_total parser) as [[lnks err] Hrun].
  exists lnks, err. split; [exact Hrun|].
  now apply ExtractLoop_cases in Hrun as [(new & -> & Hnew) _].
Qed.

(** ** The links of a page, read as XML *)

Section XmlLinks.

Variable showStart : xml.StartElement -> string.

Lemma titleLoop_matched body n rest failure depth rv :
  matched xmlKind depth body = true ->
  xmllinks.titleLoop (body ++ xml.TEndElement n :: rest) failure depth rv
  = (if String.eqb (xml.Local_ n) "a" then inl (rv +:+ xmlText body)
     else inr (LibError "Mismatched close tags for anchor?"), rest).
Proof.
  revert depth rv.
  induction body as [|t body IH]; intros depth rv; simpl.
  - intros ->%Z.eqb_eq. simpl. rewrite append_nil_r.
    now destruct (String.eqb (xml.Local_ n) "a").
  - unfold xmlText.
    destruct t as [t|m|c| | |]; simpl; intros Hbody;
      try (rewrite IH by assumption; reflexivity).
    + apply andb_prop in Hbody as [Hpos%Z.ltb_lt Hbody].
      destruct (Z.eqb_spec (depth - 1) (-1)); [lia|].
      destruct (Z.ltb_spec (depth - 1) 0); [lia|].
      simpl. now rewrite IH.
    + rewrite IH by assumption. unfold xmlText. now rewrite append_assoc.
Qed.

Lemma titleLoop_shorter toks failure depth rv :
  (List.length (xmllinks.titleLoop toks failure depth rv).2
   <= List.length toks)%nat.
Proof.
  revert depth rv.
  induction toks as [|t toks IH]; intros depth rv; simpl; [lia|].
  destruct t as [t|n|c| | |]; try (etransitivity; [apply IH|lia]).
  destruct (_ && _)%bool; simpl; [lia|].
  destruct (_ <? _); simpl; [lia|].
  etransitivity; [apply IH|lia].
Qed.

Lemma parseLink_shorter d anchor :
  (List.length (xml.upcoming (xmllinks.parseLink showStart d anchor).2)
   <= List.length (xml.upcoming d))%nat.
Proof.
  unfold xmllinks.parseLink, xmllinks.extractTitleCData.
  pose proof (titleLoop_shorter (xml.upcoming d) (xml.failure d) 0 "")
    as Hlen.
  destruct (String.eqb _ ""); simpl; [lia|].
  destruct (String.eqb _ "link"); simpl; [lia|].
  now destruct (xmllinks.titleLoop _ _ _ _) as [[title|err] rest].
Qed.

Lemma parseLink_url d anchor lnk d' :
  xmllinks.parseLink showStart d anchor = (inl lnk, d') ->
  links.Url lnk = xmllinks.extractHREF anchor
  /\ xmllinks.extractHREF anchor <> ""
  /\ xml.failure d' = xml.failure d.
Proof.
  unfold xmllinks.parseLink, xmllinks.extractTitleCData.
  destruct (String.eqb_spec (xmllinks.extractHREF anchor) "");
    [discriminate|].
  destruct (String.eqb _ "link"); [now intros [= <- <-]|].
  destruct (xmllinks.titleLoop _ _ _ _) as [[title|err] rest];
    [|discriminate].
  now intros [= <- <-].
Qed.

Lemma parseLinksLoop_enough fuel d rv :
  (List.length (xml.upcoming d) < fuel)%nat ->
  is_Some (xmllinks.parseLinksLoop showStart fuel d rv).
Proof.
  revert d rv. induction fuel as [|fuel IH]; intros d rv Hlen; [lia|].
  simpl. unfold xml.Token_.
  destruct (xml.upcoming d) as [|t rest] eqn:Etoks.
  - destruct (xml.endError _); eauto.
  - simpl in Hlen.
    assert (forall rv', is_Some (xmllinks.parseLinksLoop
               showStart fuel (xml.mkDecoder rest (xml.failure d)) rv'))
      as Hskip by (intros; apply IH; simpl; lia).
    destruct t as [t|n|c| | |]; auto.
    destruct (_ || _)%bool; auto.
    pose proof (parseLink_shorter (xml.mkDecoder rest (xml.failure d)) t)
      as Hshort.
    destruct (xmllinks.parseLink _ _ _) as [[lnk|err] d']; simpl in Hshort;
      eauto.
    apply IH. lia.
Qed.

Lemma parseLinksLoop_cases fuel d rv lnks err :
  xmllinks.parseLinksLoop showStart fuel d rv = Some (lnks, err) ->
  Forall (fun l => links.Url l <> "") rv ->
  Forall (fun l => links.Url l <> "") lnks
  /\ (err = None -> xml.failure d = None).
Proof.
  revert d rv. induction fuel as [|fuel IH]; intros d rv; [discriminate|].
  simpl. unfold xml.Token_.
  destruct (xml.upcoming d) as [|t rest] eqn:Etoks.
  - unfold xml.endError.
    destruct (xml.failure d); intros [= <- <-] Hrv; split; auto;
      discriminate.
  - assert (xmllinks.parseLinksLoop
              showStart fuel (xml.mkDecoder rest (xml.failure d)) rv
            = Some (lnks, err) ->
            Forall (fun l => links.Url l <> "") rv ->
            Forall (fun l => links.Url l <> "") lnks
            /\ (err = None -> xml.failure d = None))
      as Hskip by (intros Hrun Hrv; now apply IH in Hrun).
    destruct t as [t|n|c| | |]; auto.
    destruct (_ || _)%bool; auto.
    destruct (xmllinks.parseLink _ _ _) as [[lnk|e] d'] eqn:Elink.
    + apply parseLink_url in Elink as (Hurl & Hne & Hfail).
      simpl in Hfail.
      intros Hrun Hrv. apply IH in Hrun as [Hlnks Herr].
      * split; [exact Hlnks|]. now rewrite <- Hfail.
      * apply Forall_app. split; [exact Hrv|]. repeat constructor.
        now rewrite Hurl.
    + intros [= <- <-] Hrv. split; [exact Hrv|discriminate].
Qed.

End XmlLinks.

(** X18: [Extract] of the XML extractor always returns, and no link it
    returns, with or without an error, has an empty URL.  It returns no
    error only when the decoder ends with the end of its input. *)
Theorem xml_Extract_urls_not_empty
        (showStart : xml.StartElement -> string) (src : xml.Decoder) :
  exists lnks err,
    xmllinks.Extract showStart src = Some (lnks, err)
    /\ Forall (fun l => links.Url l <> "") lnks
    /\ (err = None -> xml.failure src = None).
Proof.
  destruct (parseLinksLoop_enough
              showStart (S (List.length (xml.upcoming src))) src []
              ltac:(lia)) as [[lnks err] Hrun].
  exists lnks, err. split; [exact Hrun|].
  now apply parseLinksLoop_cases in Hrun.
Qed.

(** X19: behind the start of an anchor, [extractTitleCData] reads on to
    the end element that follows the matched elements inside.  When that
    end element is an [a], the title is the character data read on the
    way, at every depth; when it has another name, the result is the
    error about mismatched tags.  The decoder is left behind that end
    element. *)
Theorem extractTitleCData_reads_body
        (body rest : list xml.Token) (n : xml.Name) (failure : option string)
        (Hbody : matched xmlKind 0 body = true) :
  xmllinks.extractTitleCData
    (xml.mkDecoder (body ++ xml.TEndElement n :: rest) failure)
  = (if String.eqb (xml.Local_ n) "a" then inl (xmlText body)
     else inr (LibError "Mismatched close tags for anchor?"),
     xml.mkDecoder rest failure).
Proof.
  unfold xmllinks.extractTitleCData. simpl.
  now rewrite (titleLoop_matched body n rest failure 0 "" Hbody).
Qed.

Lemma extractTitleCData_reads_body_witness :
  xmllinks.extractTitleCData
    (xml.mkDecoder
       ([sample.text "Jorb "; sample.open_ "abbr"; sample.text "ABT";
         sample.close "abbr"]
          ++ xml.TEndElement (xml.mkName "" "a") :: [sample.text "after"])
       None)
  = (inl "Jorb ABT", xml.mkDecoder [sample.text "after"] None).
Proof.
  apply (extractTitleCData_reads_body
           [sample.text "Jorb "; sample.open_ "abbr"; sample.text "ABT";
            sample.close "abbr"]
           [sample.text "after"] (xml.mkName "" "a") None).
  reflexivity.
Defined.

(** ** The report of [main] *)

Section Report.

Lemma MarkAllAsRead_Articles (ld : LinkDetails) :
  Articles (MarkAllAsRead ld) = Articles ld.
Proof. unfold MarkAllAsRead. now destruct (time.After _ _). Qed.

Lemma MarkAllAsRead_State (ld : LinkDetails) :
  State (MarkAllAsRead ld) = State ld.
Proof. unfold MarkAllAsRead. now destruct (time.After _ _). Qed.

Lemma MarkAllAsRead_nothing_unread (ld : LinkDetails) :
  UnreadArticles (MarkAllAsRead ld) = [].
Proof.
  unfold UnreadArticles.
  rewrite unreadLoop_filter, MarkAllAsRead_Articles. simpl.
  apply filter_after_nil. intros a Ha. rewrite MarkAllAsRead_LastRead.
  assert (PubDate a <= foldr Z.max 0 (map PubDate (Articles ld)))
    by (apply foldr_max_ge, in_map, Ha).
  lia.
Qed.

Lemma MarkAllAsRead_again (ld : LinkDetails) :
  MarkAllAsRead (MarkAllAsRead ld) = MarkAllAsRead ld.
Proof.
  pose proof (MarkAllAsRead_LastRead ld) as Hread.
  pose proof (MarkAllAsRead_Articles ld) as Harts.
  set (ld' := MarkAllAsRead ld) in *.
  unfold MarkAllAsRead. rewrite latestLoop_zero, Harts.
  unfold time.After.
  replace (LastRead ld' <? foldr Z.max 0 (map PubDate (Articles ld)))
    with false by (symmetry; apply Z.ltb_ge; lia).
  reflexivity.
Qed.

Lemma printArticles_more (unread : list Article) (out : string) :
  exists more, main.printArticles unread out = out +:+ more.
Proof.
  revert out. induction unread as [|art unread IH]; intros out; simpl.
  - exists "". now rewrite append_nil_r.
  - destruct (IH (out +:+ "<li><a href='" +:+ Url art +:+ "'>" +:+ Title art
                      +:+ "</a>" +:+ main.nl)) as [more ->].
    eexists. rewrite append_assoc. reflexivity.
Qed.

End Report.

(** X20: when every link of the input has a record in the store, the loop
    of [main] that prints the report does not panic.  It only adds to the
    output, and the only change it makes to a record is [MarkAllAsRead],
    made to records in state HasFeed.  Afterwards no record of a link of
    the input that is in state HasFeed has an unread article. *)
Theorem report_marks_listed_feeds
        (lnks : list links.Link) (ls : LinkStore) (heap : Heap) (out : string)
        (Hlisted : Forall (fun lnk =>
                             exists p, Links ls !! links.Url lnk = Some p
                                       /\ is_Some (heap !! p)) lnks) :
  exists out' heap',
    main.report lnks ls heap out = Some (out', heap')
    /\ (exists more, out' = out +:+ more)
    /\ (forall p,
           heap' !! p = heap !! p
           \/ exists d, heap !! p = Some d /\ State d = LinkHasFeed
                        /\ heap' !! p = Some (MarkAllAsRead d))
    /\ Forall (fun lnk =>
                 forall p d,
                   Links ls !! links.Url lnk = Some p ->
                   heap' !! p = Some d ->
                   State d = LinkHasFeed ->
                   UnreadArticles d = []) lnks.
Proof.
  revert heap out Hlisted.
  induction lnks as [|lnk lnks IH]; intros heap out Hlisted.
  - exists out, heap. split; [reflexivity|].
    split; [exists ""; now rewrite append_nil_r|].
    split; [now left|constructor].
  - apply Forall_cons in Hlisted as [(p & Hp & d & Hd) Hlisted].
    simpl. rewrite Hp, Hd.
    assert (forall out1,
               (exists more, out1 = out +:+ more) ->
               (State d = LinkHasFeed -> UnreadArticles d = []) ->
               exists out' heap',
                 main.report lnks ls heap out1 = Some (out', heap')
                 /\ (exists more, out' = out +:+ more)
                 /\ (forall p,
                        heap' !! p = heap !! p
                        \/ exists d, heap !! p = Some d
                                     /\ State d = LinkHasFeed
                                     /\ heap' !! p = Some (MarkAllAsRead d))
                 /\ Forall (fun lnk =>
                              forall p d,
                                Links ls !! links.Url lnk = Some p ->
                                heap' !! p = Some d ->
                                State d = LinkHasFeed ->
                                UnreadArticles d = []) (lnk :: lnks))
      as Hsame.
    { intros out1 [more1 ->] Hread.
      destruct (IH heap (out +:+ more1) Hlisted)
        as (out' & heap' & -> & [more ->] & Hmarked & Hunread).
      exists ((out +:+ more1) +:+ more), heap'. split; [reflexivity|].
      split; [exists (more1 +:+ more); apply append_assoc|].
      split; [exact Hmarked|].
      constructor; [|exact Hunread].
      intros p0 d0 Hp0 Hd0 Hstate. rewrite Hp in Hp0. simplify_eq.
      destruct (Hmarked p0) as [Heq|(d1 & Hd1 & _ & Hd1')].
      - rewrite Heq, Hd in Hd0. simplify_eq. now apply Hread.
      - rewrite Hd0 in Hd1'. simplify_eq. apply MarkAllAsRead_nothing_unread. }
    assert (exists more, out = out +:+ more) as Hout
        by (exists ""; now rewrite append_nil_r).
    destruct (State d) eqn:Estate;
      try (destruct (LastError d);
           [apply Hsame; [|discriminate];
            eexists; rewrite !append_assoc; reflexivity
           |apply Hsame; [exact Hout|discriminate]]).
    destruct (List.length (UnreadArticles d) =? 0)%nat eqn:Elen.
    + apply Hsame; [exact Hout|]. intros _.
      apply Nat.eqb_eq in Elen. now apply length_zero_iff_nil.
    + destruct (printArticles_more
                  (UnreadArticles d)
                  ((out +:+ "<h1>" +:+ LTitle d +:+ "</h1>" +:+ main.nl)
                     +:+ "<ul>" +:+ main.nl)) as [printed Hprinted].
      rewrite Hprinted.
      assert (Forall (fun lnk =>
                        exists p0, Links ls !! links.Url lnk = Some p0
                                   /\ is_Some (<[p := MarkAllAsRead d]> heap
                                                 !! p0)) lnks) as Hlisted1.
      { eapply Forall_impl; [exact Hlisted|].
        intros l (p0 & Hp0 & Hd0). exists p0. split; [exact Hp0|].
        destruct (decide (p0 = p)) as [->|Hne].
        - rewrite lookup_insert_eq. eauto.
        - now rewrite lookup_insert_ne. }
      destruct (IH (<[p := MarkAllAsRead d]> heap)
                   ((((out +:+ "<h1>" +:+ LTitle d +:+ "</h1>" +:+ main.nl)
                        +:+ "<ul>" +:+ main.nl) +:+ printed)
                      +:+ "</ul>" +:+ main.nl) Hlisted1)
        as (out' & heap' & Hrun & [more ->] & Hmarked & Hunread).
      exists ((((((out +:+ "<h1>" +:+ LTitle d +:+ "</h1>" +:+ main.nl)
                        +:+ "<ul>" +:+ main.nl) +:+ printed)
                      +:+ "</ul>" +:+ main.nl)) +:+ more), heap'.
      split; [exact Hrun|].
      split; [eexists; rewrite !append_assoc; reflexivity|].
      assert (heap' !! p = Some (MarkAllAsRead d)) as Hd'.
      { destruct (Hmarked p) as [Heq|(d1 & Hd1 & _ & Hd1')].
        - now rewrite Heq, lookup_insert_eq.
        - rewrite lookup_insert_eq in Hd1. simplify_eq.
          now rewrite Hd1', MarkAllAsRead_again. }
      split.
      * intros q. destruct (decide (q = p)) as [->|Hne].
        -- right. exists d. now repeat split.
        -- destruct (Hmarked q) as [Heq|(d1 & Hd1 & Hs1 & Hd1')].
           ++ left. now rewrite Heq, lookup_insert_ne.
           ++ right. exists d1. rewrite lookup_insert_ne in Hd1 by congruence.
              now repeat split.
      * constructor; [|exact Hunread].
        intros p0 d0 Hp0 Hd0 _. rewrite Hp in Hp0. simplify_eq.
        apply MarkAllAsRead_nothing_unread.
Qed.

Lemma report_marks_listed_feeds_witness :
  exists out' heap',
    main.report [links.mkLink "x" "http://x/"]
                (mkLinkStore {[ "http://x/" := 1%positive ]} ["http://x/"])
                {[ 1%positive := sample.around 100 ]} ""
    = Some (out', heap')
    /\ Forall (fun lnk =>
                 forall p d,
                   ({[ "http://x/" := 1%positive ]} : gmap string ptr)
                     !! links.Url lnk = Some p ->
                   heap' !! p = Some d ->
                   State d = LinkHasFeed ->
                   UnreadArticles d = [])
              [links.mkLink "x" "http://x/"].
Proof.
  destruct (report_marks_listed_feeds
              [links.mkLink "x" "http://x/"]
              (mkLinkStore {[ "http://x/" := 1%positive ]} ["http://x/"])
              {[ 1%positive := sample.around 100 ]} "")
    as (out' & heap' & Hrun & _ & _ & Hunread).
  - repeat constructor. exists 1%positive. simpl.
    split; [apply lookup_singleton_eq|].
    rewrite lookup_singleton_eq. eauto.
  - exists out', heap'. split; [exact Hrun|exact Hunread].
Defined.

(** ** A refresh that succeeds *)

Section RefreshOfItems.

Context {RT : Runtime}.

Lemma absolutizeLoop_resolves base arts :
  Forall (fun a => exists u, forceAbsolute base (Url a) = inl u) arts ->
  exists arts',
    absolutizeLoop base arts = inl arts'
    /\ Forall2 (absolutized base) arts' arts.
Proof.
  induction 1 as [|a arts [u Hu] _ (arts' & IH & Hall)]; simpl.
  - exists []. split; [reflexivity|constructor].
  - rewrite Hu, IH. exists (withUrl u a :: arts'). split; [reflexivity|].
    constructor; [|exact Hall]. now repeat split.
Qed.

Lemma sortIfLong_perm (arts : ArticleArray) :
  SortContract sortSort -> sortIfLong arts ≡ₚ arts.
Proof.
  intros Hsort. unfold sortIfLong.
  destruct (1 <? List.length arts)%nat; [apply Hsort|reflexivity].
Qed.

End RefreshOfItems.

(** X21: a refresh that is due, finds the feed with status 200 and a root
    it knows, and reads a feed of items and entries whose URLs resolve,
    keeps one article for every item, none more: the articles of the
    record are then the articles of the items in some order, each with
    its URL made absolute, whatever articles the record held before.
    [LastChecked] becomes the time the refresh began; the state and the
    last error stay. *)
Theorem refresh_keeps_every_item
        {RT : Runtime} (Hsort : SortContract sortSort)
        (link : LinkDetails) (s : Sys)
        (moment : time.Time) (w w' : W) (absU : string) (resp : Response)
        (first : xml.StartElement) (ps : list Piece)
        (Hnow : timeNow (world s) = (moment, w))
        (Hdue : minCheckDuration <= time.Sub moment (LastChecked link))
        (Habs : forceAbsolute (BaseUrl link) (FeedUrl link) = inl absU)
        (Hget : httpGet absU w = (inl resp, w'))
        (Hok : StatusCode resp = 200)
        (Hfirst : firstStartElement (BodyXML resp)
                  = (inl first, xml.mkDecoder (feedTokens ps) None))
        (Hroot : In (xml.Local_ (xml.SName first)) ["rss"; "feed"; "RDF"])
        (Hgood : Forall goodPiece ps)
        (Hurls : Forall (fun a => exists u,
                             forceAbsolute (BaseUrl link) (Url a) = inl u)
                        (pieceArticles ps)) :
  exists link',
    checkForArticles link s = Some (link', mkSys w' (fetched s ++ [absU]))
    /\ State link' = State link
    /\ LastError link' = LastError link
    /\ LastChecked link' = moment
    /\ exists sorted,
        sorted ≡ₚ pieceArticles ps
        /\ Forall2 (absolutized (BaseUrl link)) (Articles link') sorted.
Proof.
  destruct (absolutizeLoop_resolves (BaseUrl link)
                                    (sortIfLong (pieceArticles ps)))
    as (arts & Earts & Hall).
  { now rewrite (sortIfLong_perm (pieceArticles ps) Hsort). }
  exists (withLastChecked moment (withArticles arts link)).
  split; [|repeat split; exists (sortIfLong (pieceArticles ps));
           split; [now apply sortIfLong_perm|exact Hall]].
  unfold checkForArticles, bind, Now, ret. rewrite Hnow. simpl.
  apply Z.ltb_ge in Hdue. rewrite Hdue.
  unfold makeFeedRequest. rewrite Habs. unfold bind, clientGet. simpl.
  rewrite Hget. simpl. rewrite Hok. simpl. rewrite Hfirst.
  rewrite (parseFunctionForFeed_known first Hroot).
  destruct (feedParser_total (xml.mkDecoder (feedTokens ps) None) first
                             (withArticles [] link)) as [r Hr].
  rewrite Hr. unfold feedParser in Hr.
  apply (feedParserLoop_pieces _ None ps) in Hr as ->; [|exact Hgood].
  simpl. unfold sortIfLong in Earts.
  destruct (1 <? List.length (pieceArticles ps))%nat; simpl;
    rewrite Earts; reflexivity.
Qed.

Lemma refresh_keeps_every_item_witness :
  exists link',
    checkForArticles (RT := sample.feedServer) sample.neverChecked
                     (sample.start sample.feedServer tt)
    = Some (link', mkSys (RT := sample.feedServer) tt ["http://x/f.xml"])
    /\ LastChecked link' = 400000000000
    /\ exists sorted,
        sorted ≡ₚ pieceArticles (RT := sample.feedServer) twoItemPieces
        /\ Forall2 (absolutized (RT := sample.feedServer) "http://x/")
                   (Articles link') sorted.
Proof.
  destruct (refresh_keeps_every_item
              (RT := sample.feedServer) merge_sort_contract
              sample.neverChecked (sample.start sample.feedServer tt)
              400000000000 tt tt "http://x/f.xml"
              (sample.ok "application/rss+xml" [] sample.twoItems None)
              (sample.elem "rss") twoItemPieces)
    as (link' & Hrun & _ & _ & Hchecked & Hsorted);
    try reflexivity.
  - vm_compute. discriminate.
  - simpl. now left.
  - repeat constructor; try discriminate.
    + now intros st [= <-].
    + now exists sample.jan2.
    + now exists sample.jan1.
  - repeat constructor; eexists; reflexivity.
  - exists link'. now repeat split.
Defined.

(** ** A page that loads *)

Section PageOfNewLink.

Context {RT : Runtime}.




End PageOfNewLink.


